(** * proxy-browser: the rewriting pipeline of [server.js]

    A shallow embedding of the three request handlers of [server.js]
    ([/meta], [/asset], [/proxy]) and of the helper [absoluteUrl], together
    with the properties the specification states about them.

    Conventions of the embedding.
    - A JavaScript string is a Rocq [string] holding its UTF-8 encoding.
      The operations used by the source ([startsWith], [includes], [split],
      [trim], [toLowerCase], the two regular expressions,
      [encodeURIComponent]) are written on these bytes; multi-byte white
      space and line terminators are recognised by their UTF-8 sequences.
    - [new URL(relative, base)] is the platform's WHATWG URL parser.  It is
      transcribed state by state from the URL Standard in [Module URL].
      Two things are left to the platform ([Platform]): the Unicode
      ToASCII step for host names that carry non-ASCII bytes or [xn--]
      labels, and whether [^] belongs to the path percent-encode set, which
      the URL Standard added and older Node releases do not have.  The
      properties hold for every platform.
    - A document is the tree cheerio builds; [cheerio.load], the parsing of
      the markup handed to [prepend] and [$.html()] themselves are
      parameters of the handlers.
    - [fetch] is an oracle indexed by the number of calls made so far, so
      two fetches of one address may differ.  A response records what the
      handler itself sets: the status, the headers set through [res.set],
      as Express stores them, and the body.  Of what [res.send] and
      [res.json] do on their own, only the status 304 they give to a
      request that revalidates is represented, in [status_sent].

    Part I holds the embedding and the notions the statements use, Part II
    the properties, one theorem for each claim C1 to C10 of the
    specification. *)

From Stdlib Require Import String Ascii List Bool NArith Arith Lia.
From Stdlib Require Import DecimalString.
Import ListNotations.
Open Scope string_scope.
Open Scope bool_scope.
Open Scope nat_scope.
Set Warnings "-register-all".

(* ================================================================== *)
(** * Part I: definitions *)
(* ================================================================== *)

(** ** Characters *)

Module Chr.

Definition code (c : ascii) : N := N_of_ascii c.

Definition between (lo hi : N) (c : ascii) : bool :=
  (lo <=? code c)%N && (code c <=? hi)%N.

Definition is_upper (c : ascii) : bool := between 65 90 c.
Definition is_lower (c : ascii) : bool := between 97 122 c.
Definition is_alpha (c : ascii) : bool := is_upper c || is_lower c.
Definition is_digit (c : ascii) : bool := between 48 57 c.
Definition is_alnum (c : ascii) : bool := is_alpha c || is_digit c.
Definition is_hex (c : ascii) : bool :=
  is_digit c || between 65 70 c || between 97 102 c.

Definition lower (c : ascii) : ascii :=
  if is_upper c then ascii_of_N (code c + 32) else c.

Definition dquote : ascii := ascii_of_N 34.
Definition squote : ascii := ascii_of_N 39.

(** Membership of a character in the characters of a string. *)
Fixpoint one_of (set : string) (c : ascii) : bool :=
  match set with
  | EmptyString => false
  | String d rest => Ascii.eqb c d || one_of rest c
  end.

(** Value of a digit in radix up to 16 (0 when [c] is no digit). *)
Definition digit_value (c : ascii) : N :=
  if is_digit c then (code c - 48)%N
  else if between 65 70 c then (code c - 55)%N
  else if between 97 102 c then (code c - 87)%N
  else 0%N.

Definition hex_digit_upper (n : N) : ascii :=
  if (n <? 10)%N then ascii_of_N (48 + n) else ascii_of_N (55 + n).

Definition hex_digit_lower (n : N) : ascii :=
  if (n <? 10)%N then ascii_of_N (48 + n) else ascii_of_N (87 + n).

End Chr.

(** ** The JavaScript string operations the source uses *)

Module Str.

Definition of_char (c : ascii) : string := String c EmptyString.

Fixpoint rev_acc (s acc : string) : string :=
  match s with
  | EmptyString => acc
  | String c r => rev_acc r (String c acc)
  end.

Definition rev (s : string) : string := rev_acc s EmptyString.

Fixpoint map (f : ascii -> ascii) (s : string) : string :=
  match s with
  | EmptyString => EmptyString
  | String c r => String (f c) (map f r)
  end.

Fixpoint forallb (p : ascii -> bool) (s : string) : bool :=
  match s with
  | EmptyString => true
  | String c r => p c && forallb p r
  end.

Fixpoint existsb (p : ascii -> bool) (s : string) : bool :=
  match s with
  | EmptyString => false
  | String c r => p c || existsb p r
  end.

Fixpoint filter (p : ascii -> bool) (s : string) : string :=
  match s with
  | EmptyString => EmptyString
  | String c r => if p c then String c (filter p r) else filter p r
  end.

(** [s.startsWith(p)] *)
Fixpoint startsWith (p s : string) : bool :=
  match p, s with
  | EmptyString, _ => true
  | String a p', String b s' => Ascii.eqb a b && startsWith p' s'
  | String _ _, EmptyString => false
  end.

(** The text after a prefix, when the prefix is there. *)
Fixpoint strip_prefix (p s : string) : option string :=
  match p, s with
  | EmptyString, _ => Some s
  | String a p', String b s' =>
      if Ascii.eqb a b then strip_prefix p' s' else None
  | String _ _, EmptyString => None
  end.

(** [s.includes(p)] *)
Fixpoint includes (p s : string) : bool :=
  startsWith p s ||
  match s with
  | EmptyString => false
  | String _ r => includes p r
  end.

Definition endsWith (p s : string) : bool := startsWith (rev p) (rev s).

(** [s.toLowerCase()] on the ASCII letters.  The source compares the
    result with ASCII literals only ([stylesheet], the three kinds of
    favicon link); no character outside ASCII lower-cases to a text these
    comparisons would accept, so they are unaffected. *)
Definition toLowerCase (s : string) : string := map Chr.lower s.

(** [s.split(sep)] for a one-character separator: never empty. *)
Fixpoint split (sep : ascii) (s : string) : list string :=
  match s with
  | EmptyString => [EmptyString]
  | String c r =>
      if Ascii.eqb c sep then EmptyString :: split sep r
      else match split sep r with
           | [] => [of_char c]
           | x :: xs => String c x :: xs
           end
  end.

(** [parts.join(sep)] *)
Fixpoint join (sep : string) (parts : list string) : string :=
  match parts with
  | [] => EmptyString
  | [x] => x
  | x :: rest => x ++ sep ++ join sep rest
  end.

(** Length in bytes of the white-space character (in the sense of the
    regular expression class [\s] and of [trim]) at the head of [s];
    0 when [s] does not start with one.  The classes are: TAB, LF, VT,
    FF, CR, SPACE, U+00A0, U+1680, U+2000..U+200A, U+2028, U+2029,
    U+202F, U+205F, U+3000, U+FEFF. *)
Definition ws_len (s : string) : nat :=
  match s with
  | EmptyString => 0
  | String c r =>
      let n := Chr.code c in
      if Chr.between 9 13 c || (n =? 32)%N then 1
      else match r with
      | String d (String e _) =>
          let m := Chr.code d in
          let k := Chr.code e in
          if (n =? 226)%N && (m =? 128)%N &&
             (Chr.between 128 138 e || (k =? 168)%N || (k =? 169)%N
              || (k =? 175)%N) then 3
          else if (n =? 226)%N && (m =? 129)%N && (k =? 159)%N then 3
          else if (n =? 225)%N && (m =? 154)%N && (k =? 128)%N then 3
          else if (n =? 227)%N && (m =? 128)%N && (k =? 128)%N then 3
          else if (n =? 239)%N && (m =? 187)%N && (k =? 191)%N then 3
          else if (n =? 194)%N && (m =? 160)%N then 2
          else 0
      | String d EmptyString =>
          if (n =? 194)%N && (Chr.code d =? 160)%N then 2 else 0
      | EmptyString => 0
      end
  end.

Fixpoint drop (n : nat) (s : string) : string :=
  match n, s with
  | O, _ => s
  | S n', String _ r => drop n' r
  | S _, EmptyString => EmptyString
  end.

Fixpoint take (n : nat) (s : string) : string :=
  match n, s with
  | O, _ => EmptyString
  | S n', String c r => String c (take n' r)
  | S _, EmptyString => EmptyString
  end.

(** [s.trimStart()].  [skip] counts the bytes still to drop of the
    white-space character being removed. *)
Fixpoint trimStart_skip (skip : nat) (s : string) : string :=
  match s with
  | EmptyString => EmptyString
  | String c r =>
      match skip with
      | S k => trimStart_skip k r
      | O =>
          match ws_len s with
          | O => s
          | S k => trimStart_skip k r
          end
      end
  end.

Definition trimStart (s : string) : string := trimStart_skip 0 s.

(** [s] is made of white space only. *)
Fixpoint all_ws_skip (skip : nat) (s : string) : bool :=
  match s with
  | EmptyString => true
  | String c r =>
      match skip with
      | S k => all_ws_skip k r
      | O =>
          match ws_len s with
          | O => false
          | S k => all_ws_skip k r
          end
      end
  end.

Definition all_ws (s : string) : bool := all_ws_skip 0 s.

(** [s.trimEnd()]: the text is cut where only white space remains. *)
Fixpoint trimEnd (s : string) : string :=
  match s with
  | EmptyString => EmptyString
  | String c r => if all_ws s then EmptyString else String c (trimEnd r)
  end.

(** [s.trim()] *)
Definition trim (s : string) : string := trimEnd (trimStart s).

(** [s.split(/\s+/)]: the pieces between maximal runs of white space.
    [cur] is the piece being read, in reverse; [in_run] tells that a run
    of white space is being passed, [skip] counts the bytes still to pass
    of its current character. *)
Fixpoint split_ws_go (skip : nat) (in_run : bool) (s cur : string)
  : list string :=
  match s with
  | EmptyString => [rev cur]
  | String c r =>
      match skip with
      | S k => split_ws_go k in_run r cur
      | O =>
          match ws_len s with
          | O => split_ws_go 0 false r (String c cur)
          | S k =>
              if in_run then split_ws_go k true r EmptyString
              else rev cur :: split_ws_go k true r EmptyString
          end
      end
  end.

Definition split_ws (s : string) : list string :=
  split_ws_go 0 false s EmptyString.

End Str.

(** ** [encodeURIComponent]

    Every byte is escaped as [%XX] (upper-case hexadecimal) except the
    unreserved marks [A-Z a-z 0-9 - _ . ! ~ * ' ( )].  On the UTF-8 bytes of
    a well-formed string this is what the ECMAScript function produces. *)

Definition uri_unreserved (c : ascii) : bool :=
  Chr.is_alnum c || Chr.one_of "-_.!~*'()" c.

Definition percent_byte (c : ascii) : string :=
  String "%" (String (Chr.hex_digit_upper (Chr.code c / 16))
             (String (Chr.hex_digit_upper (Chr.code c mod 16)) EmptyString)).

Fixpoint encodeURIComponent (s : string) : string :=
  match s with
  | EmptyString => EmptyString
  | String c r =>
      (if uri_unreserved c then Str.of_char c else percent_byte c)
        ++ encodeURIComponent r
  end.

(** ** What the platform decides *)

(** [domain_to_ascii] is the domain-to-ASCII step of the URL Standard on a
    percent-decoded host name that needs it: UTF-8 decoding, then Unicode
    ToASCII (UTS 46, non-transitional); [None] is failure.
    [caret_in_path_set] tells whether [^] is in the path percent-encode
    set. *)
Class Platform : Type := {
  domain_to_ascii : string -> option string;
  caret_in_path_set : bool
}.

(** ** The WHATWG URL parser behind [new URL(relative, base)] *)

Module URL.

Section Parser.
Context {platform : Platform}.

Inductive host_t : Type :=
| Domain (name : string)
| IPv4 (address : N)
| IPv6 (pieces : list N)
| OpaqueHost (name : string).     (* the empty host is [OpaqueHost ""] *)

Inductive path_t : Type :=
| OpaquePath (text : string)
| Segments (segs : list string).

Record t : Type := mk {
  scheme : string;
  username : string;
  password : string;
  host : option host_t;
  port : option N;
  path : path_t;
  query : option string;
  fragment : option string
}.

Definition with_scheme (u : t) (v : string) : t :=
  mk v (username u) (password u) (host u) (port u) (path u) (query u)
     (fragment u).
Definition with_credentials (u : t) (user pass : string) : t :=
  mk (scheme u) user pass (host u) (port u) (path u) (query u)
     (fragment u).
Definition with_host (u : t) (v : option host_t) : t :=
  mk (scheme u) (username u) (password u) v (port u) (path u) (query u)
     (fragment u).
Definition with_port (u : t) (v : option N) : t :=
  mk (scheme u) (username u) (password u) (host u) v (path u) (query u)
     (fragment u).
Definition with_path (u : t) (v : path_t) : t :=
  mk (scheme u) (username u) (password u) (host u) (port u) v (query u)
     (fragment u).
Definition with_query (u : t) (v : option string) : t :=
  mk (scheme u) (username u) (password u) (host u) (port u) (path u) v
     (fragment u).
Definition with_fragment (u : t) (v : option string) : t :=
  mk (scheme u) (username u) (password u) (host u) (port u) (path u)
     (query u) v.

Definition blank : t :=
  mk "" "" "" None None (Segments []) None None.

(** *** Schemes *)

Definition default_port (s : string) : option N :=
  if String.eqb s "ftp" then Some 21%N
  else if String.eqb s "http" then Some 80%N
  else if String.eqb s "https" then Some 443%N
  else if String.eqb s "ws" then Some 80%N
  else if String.eqb s "wss" then Some 443%N
  else None.

Definition is_special_scheme (s : string) : bool :=
  String.eqb s "ftp" || String.eqb s "file" || String.eqb s "http"
  || String.eqb s "https" || String.eqb s "ws" || String.eqb s "wss".

Definition is_special (u : t) : bool := is_special_scheme (scheme u).

Definition has_opaque_path (u : t) : bool :=
  match path u with OpaquePath _ => true | Segments _ => false end.

(** *** Percent-encode sets *)

Definition c0_control_set (c : ascii) : bool :=
  (Chr.code c <=? 31)%N || (126 <? Chr.code c)%N.
Definition fragment_set (c : ascii) : bool :=
  c0_control_set c || Ascii.eqb c Chr.dquote || Chr.one_of " <>`" c.
Definition query_set (c : ascii) : bool :=
  c0_control_set c || Ascii.eqb c Chr.dquote || Chr.one_of " #<>" c.
Definition special_query_set (c : ascii) : bool :=
  query_set c || Chr.one_of "'" c.
Definition path_set (c : ascii) : bool :=
  query_set c || Chr.one_of "?`{}" c
  || (Ascii.eqb c "^" && caret_in_path_set).
Definition userinfo_set (c : ascii) : bool :=
  query_set c || Chr.one_of "?`{}" c || Chr.one_of "/:;=@[\]^|" c.

Fixpoint percent_encode (set : ascii -> bool) (s : string) : string :=
  match s with
  | EmptyString => EmptyString
  | String c r =>
      (if set c then percent_byte c else Str.of_char c)
        ++ percent_encode set r
  end.

(** Percent-decoding: [%XX] with two hexadecimal digits becomes the byte. *)
Fixpoint percent_decode (s : string) : string :=
  match s with
  | EmptyString => EmptyString
  | String c r =>
      match r with
      | String h (String l r') =>
          if Ascii.eqb c "%" && Chr.is_hex h && Chr.is_hex l
          then String (ascii_of_N (Chr.digit_value h * 16
                                   + Chr.digit_value l))
                      (percent_decode r')
          else String c (percent_decode r)
      | _ => String c (percent_decode r)
      end
  end.

(** *** Numbers *)

Definition decimal (n : N) : string :=
  NilZero.string_of_uint (N.to_uint n).

Fixpoint parse_radix_acc (radix acc : N) (s : string) : N :=
  match s with
  | EmptyString => acc
  | String c r => parse_radix_acc radix (acc * radix + Chr.digit_value c)%N r
  end.

Definition parse_radix (radix : N) (s : string) : N :=
  parse_radix_acc radix 0%N s.

Definition is_radix_digit (radix : N) (c : ascii) : bool :=
  Chr.is_hex c && (Chr.digit_value c <? radix)%N.

(** The longest prefix of [s] whose characters do not satisfy [stop], and
    what follows it (starting at the stopping character, if any). *)
Fixpoint span_until (stop : ascii -> bool) (s : string) : string * string :=
  match s with
  | EmptyString => (EmptyString, EmptyString)
  | String c r =>
      if stop c then (EmptyString, s)
      else let (a, b) := span_until stop r in (String c a, b)
  end.

(** *** Hosts *)

Definition forbidden_host_code_point (c : ascii) : bool :=
  (Chr.code c =? 0)%N || (Chr.code c =? 9)%N || (Chr.code c =? 10)%N
  || (Chr.code c =? 13)%N || Chr.one_of " #/:<>?@[\]^|" c.

Definition forbidden_domain_code_point (c : ascii) : bool :=
  forbidden_host_code_point c || (Chr.code c <=? 31)%N
  || Ascii.eqb c "%" || (Chr.code c =? 127)%N.

(** The IPv4 number parser: decimal, [0x] hexadecimal or [0] octal. *)
Definition ipv4_number (input : string) : option N :=
  match input with
  | EmptyString => None
  | _ =>
      let '(digits, radix) :=
        if (2 <=? String.length input)
           && (Str.startsWith "0x" input || Str.startsWith "0X" input)
        then (Str.drop 2 input, 16%N)
        else if (2 <=? String.length input) && Str.startsWith "0" input
        then (Str.drop 1 input, 8%N)
        else (input, 10%N) in
      match digits with
      | EmptyString => Some 0%N
      | _ => if Str.forallb (is_radix_digit radix) digits
             then Some (parse_radix radix digits) else None
      end
  end.

Definition last_is_empty (parts : list string) : bool :=
  String.eqb (List.last parts "x") "".

Definition ends_in_a_number (input : string) : bool :=
  let parts := Str.split "." input in
  if last_is_empty parts && (List.length parts =? 1) then false
  else
    let parts := if last_is_empty parts then removelast parts else parts in
    let last := List.last parts "" in
    if negb (String.eqb last "") && Str.forallb Chr.is_digit last then true
    else match ipv4_number last with Some _ => true | None => false end.

Fixpoint option_all {A} (l : list (option A)) : option (list A) :=
  match l with
  | [] => Some []
  | None :: _ => None
  | Some x :: r =>
      match option_all r with Some xs => Some (x :: xs) | None => None end
  end.

Fixpoint ipv4_sum (numbers : list N) (counter : nat) (acc : N) : N :=
  match numbers with
  | [] => acc
  | n :: r => ipv4_sum r (S counter) (acc + n * 256 ^ (3 - N.of_nat counter))%N
  end.

Definition ipv4_parse (input : string) : option N :=
  let parts := Str.split "." input in
  let parts := if last_is_empty parts && (1 <? List.length parts)
               then removelast parts else parts in
  if 4 <? List.length parts then None
  else match option_all (List.map ipv4_number parts) with
       | None => None
       | Some numbers =>
           let front := removelast numbers in
           let final := List.last numbers 0%N in
           if List.existsb (fun n => (255 <? n)%N) front then None
           else if (256 ^ (5 - N.of_nat (List.length numbers)) <=? final)%N
           then None
           else Some (ipv4_sum front 0 final)
       end.

Definition set_nth (l : list N) (i : nat) (v : N) : list N :=
  firstn i l ++ match skipn i l with [] => [] | _ :: r => v :: r end.

(** Up to four hexadecimal digits of an IPv6 piece. *)
Fixpoint read_hex (s : string) (value : N) (len : nat) (room : nat)
  : N * nat * string :=
  match room, s with
  | S room', String c r =>
      if Chr.is_hex c
      then read_hex r (value * 16 + Chr.digit_value c)%N (S len) room'
      else (value, len, s)
  | _, _ => (value, len, s)
  end.

(** The digits of one part of an IPv4 address embedded in IPv6. *)
Fixpoint read_ipv4_piece (s : string) (piece : option N)
  : option (N * string) :=
  match s with
  | String c r =>
      if Chr.is_digit c then
        let number := Chr.digit_value c in
        match piece with
        | None => read_ipv4_piece r (Some number)
        | Some 0%N => None
        | Some p =>
            if (255 <? p * 10 + number)%N then None
            else read_ipv4_piece r (Some (p * 10 + number)%N)
        end
      else match piece with Some p => Some (p, s) | None => None end
  | EmptyString =>
      match piece with Some p => Some (p, s) | None => None end
  end.

(** The loops of the IPv6 parser take fuel; every round reads at least one
    character, so the length of the input plus one is enough. *)
Fixpoint ipv4_in_ipv6 (fuel : nat) (s : string) (address : list N)
         (pieceIndex numbersSeen : nat) : option (list N * nat) :=
  match fuel with
  | O => None
  | S fuel' =>
      match s with
      | EmptyString =>
          if numbersSeen =? 4 then Some (address, pieceIndex) else None
      | String c r =>
          let after_dot :=
            if 0 <? numbersSeen
            then if Ascii.eqb c "." && (numbersSeen <? 4)
                 then Some r else None
            else Some s in
          match after_dot with
          | None => None
          | Some s1 =>
              match read_ipv4_piece s1 None with
              | None => None
              | Some (piece, s2) =>
                  let address :=
                    set_nth address pieceIndex
                            (nth pieceIndex address 0 * 256 + piece)%N in
                  let numbersSeen := S numbersSeen in
                  let pieceIndex :=
                    if (numbersSeen =? 2) || (numbersSeen =? 4)
                    then S pieceIndex else pieceIndex in
                  ipv4_in_ipv6 fuel' s2 address pieceIndex numbersSeen
              end
          end
      end
  end.

Fixpoint ipv6_loop (fuel : nat) (s : string) (address : list N)
         (pieceIndex : nat) (compress : option nat)
  : option (list N * nat * option nat) :=
  match fuel with
  | O => None
  | S fuel' =>
      match s with
      | EmptyString => Some (address, pieceIndex, compress)
      | String c r =>
          if pieceIndex =? 8 then None
          else if Ascii.eqb c ":" then
            match compress with
            | Some _ => None
            | None => ipv6_loop fuel' r address (S pieceIndex)
                                (Some (S pieceIndex))
            end
          else
            let '(value, len, s') := read_hex s 0%N 0 4 in
            match s' with
            | EmptyString =>
                Some (set_nth address pieceIndex value, S pieceIndex,
                      compress)
            | String d r' =>
                if Ascii.eqb d "." then
                  if len =? 0 then None
                  else if 6 <? pieceIndex then None
                  else match ipv4_in_ipv6 (S (String.length s)) s address
                                          pieceIndex 0 with
                       | Some (address', pieceIndex') =>
                           Some (address', pieceIndex', compress)
                       | None => None
                       end
                else if Ascii.eqb d ":" then
                  match r' with
                  | EmptyString => None
                  | _ => ipv6_loop fuel' r'
                                   (set_nth address pieceIndex value)
                                   (S pieceIndex) compress
                  end
                else None
            end
      end
  end.

Definition swap_nth (l : list N) (i j : nat) : list N :=
  set_nth (set_nth l i (nth j l 0%N)) j (nth i l 0%N).

Fixpoint ipv6_swaps (fuel : nat) (address : list N)
         (pieceIndex swaps compress : nat) : list N :=
  match fuel with
  | O => address
  | S fuel' =>
      if negb (pieceIndex =? 0) && (0 <? swaps)
      then ipv6_swaps fuel'
             (swap_nth address pieceIndex (compress + swaps - 1))
             (pieceIndex - 1) (swaps - 1) compress
      else address
  end.

Definition ipv6_parse (input : string) : option (list N) :=
  let zero := repeat 0%N 8 in
  let start :=
    match input with
    | String c r =>
        if Ascii.eqb c ":" then
          match r with
          | String d r' =>
              if Ascii.eqb d ":" then Some (r', 1, Some 1) else None
          | EmptyString => None
          end
        else Some (input, 0, None)
    | EmptyString => Some (input, 0, None)
    end in
  match start with
  | None => None
  | Some (s, pieceIndex, compress) =>
      match ipv6_loop (S (String.length s)) s zero pieceIndex compress with
      | None => None
      | Some (address, pieceIndex, Some k) =>
          Some (ipv6_swaps 8 address 7 (pieceIndex - k) k)
      | Some (address, pieceIndex, None) =>
          if pieceIndex =? 8 then Some address else None
      end
  end.

(** Host names the domain-to-ASCII step has to transform: a byte outside
    ASCII, or a label that starts with [xn--].  On every other name that
    step only lower-cases, as the URL Standard notes. *)
Definition needs_idna (domain : string) : bool :=
  Str.existsb (fun c => (127 <? Chr.code c)%N) domain
  || List.existsb (Str.startsWith "xn--")
                  (Str.split "." (Str.toLowerCase domain)).

Definition opaque_host_parse (input : string) : option host_t :=
  if Str.existsb forbidden_host_code_point input then None
  else Some (OpaqueHost (percent_encode c0_control_set input)).

Definition host_parse (input : string) (isOpaque : bool) : option host_t :=
  if Str.startsWith "[" input then
    if Str.endsWith "]" input then
      match ipv6_parse (Str.take (String.length input - 2)
                                 (Str.drop 1 input)) with
      | Some pieces => Some (IPv6 pieces)
      | None => None
      end
    else None
  else if isOpaque then opaque_host_parse input
  else
    let domain := percent_decode input in
    match (if needs_idna domain then domain_to_ascii domain
           else Some (Str.toLowerCase domain)) with
    | None => None
    | Some asciiDomain =>
        if String.eqb asciiDomain "" then None
        else if Str.existsb forbidden_domain_code_point asciiDomain then None
        else if ends_in_a_number asciiDomain then
          match ipv4_parse asciiDomain with
          | Some n => Some (IPv4 n)
          | None => None
          end
        else Some (Domain asciiDomain)
    end.

(** *** Serializers *)

Definition ipv4_serialize (address : N) : string :=
  decimal (address / 16777216 mod 256) ++ "." ++
  decimal (address / 65536 mod 256) ++ "." ++
  decimal (address / 256 mod 256) ++ "." ++
  decimal (address mod 256).

(** Lower-case hexadecimal without leading zeros. *)
Fixpoint hex_acc (fuel : nat) (n : N) (acc : string) : string :=
  match fuel with
  | O => acc
  | S fuel' =>
      let acc := String (Chr.hex_digit_lower (n mod 16)) acc in
      if (n / 16 =? 0)%N then acc else hex_acc fuel' (n / 16)%N acc
  end.

Definition hex (n : N) : string := hex_acc 16 n EmptyString.

(** Length of the run of zero pieces at the head of [l]. *)
Fixpoint zero_run (l : list N) : nat :=
  match l with
  | 0%N :: r => S (zero_run r)
  | _ => 0
  end.

(** Index and length of the first longest run of zero pieces. *)
Fixpoint longest_zero_run (l : list N) (index : nat) (best : nat * nat)
  : nat * nat :=
  match l with
  | [] => best
  | _ :: r =>
      let n := zero_run l in
      longest_zero_run r (S index)
                       (if snd best <? n then (index, n) else best)
  end.

Definition ipv6_compress (address : list N) : option nat :=
  let (index, n) := longest_zero_run address 0 (0, 0) in
  if 1 <? n then Some index else None.

Fixpoint ipv6_pieces (l : list N) (pieceIndex : nat)
         (compress : option nat) (ignore0 : bool) : string :=
  match l with
  | [] => EmptyString
  | x :: r =>
      if ignore0 && (x =? 0)%N
      then ipv6_pieces r (S pieceIndex) compress true
      else if match compress with
              | Some k => k =? pieceIndex
              | None => false
              end
      then (if pieceIndex =? 0 then "::" else ":")
             ++ ipv6_pieces r (S pieceIndex) compress true
      else hex x ++ (if pieceIndex =? 7 then "" else ":")
             ++ ipv6_pieces r (S pieceIndex) compress false
  end.

Definition ipv6_serialize (address : list N) : string :=
  ipv6_pieces address 0 (ipv6_compress address) false.

Definition host_serialize (h : host_t) : string :=
  match h with
  | Domain name => name
  | OpaqueHost name => name
  | IPv4 address => ipv4_serialize address
  | IPv6 pieces => "[" ++ ipv6_serialize pieces ++ "]"
  end.

Definition path_serialize (p : path_t) : string :=
  match p with
  | OpaquePath text => text
  | Segments segs =>
      List.fold_right (fun seg out => "/" ++ seg ++ out) "" segs
  end.

Definition includes_credentials (u : t) : bool :=
  negb (String.eqb (username u) "") || negb (String.eqb (password u) "").

Definition opt_prefixed (mark : string) (v : option string) : string :=
  match v with Some x => mark ++ x | None => "" end.

(** The URL serializer: what [toString()] and [href] return. *)
Definition serialize (u : t) : string :=
  scheme u ++ ":" ++
  match host u with
  | Some h =>
      "//" ++
      (if includes_credentials u
       then username u ++
            (if String.eqb (password u) "" then "" else ":" ++ password u)
            ++ "@"
       else "") ++
      host_serialize h ++
      match port u with Some p => ":" ++ decimal p | None => "" end
  | None =>
      match path u with
      | Segments (first :: _ :: _) =>
          if String.eqb first "" then "/." else ""
      | _ => ""
      end
  end ++
  path_serialize (path u) ++
  opt_prefixed "?" (query u) ++
  opt_prefixed "#" (fragment u).

(** *** Path segments *)

Definition is_single_dot (buffer : string) : bool :=
  let b := Str.toLowerCase buffer in
  String.eqb b "." || String.eqb b "%2e".

Definition is_double_dot (buffer : string) : bool :=
  let b := Str.toLowerCase buffer in
  String.eqb b ".." || String.eqb b ".%2e" || String.eqb b "%2e."
  || String.eqb b "%2e%2e".

Definition is_windows_drive_letter (s : string) : bool :=
  match s with
  | String a (String b EmptyString) =>
      Chr.is_alpha a && Chr.one_of ":|" b
  | _ => false
  end.

Definition is_normalized_windows_drive_letter (s : string) : bool :=
  match s with
  | String a (String b EmptyString) => Chr.is_alpha a && Ascii.eqb b ":"
  | _ => false
  end.

Definition starts_with_windows_drive_letter (s : string) : bool :=
  match s with
  | String a (String b r) =>
      Chr.is_alpha a && Chr.one_of ":|" b &&
      match r with
      | EmptyString => true
      | String c _ => Chr.one_of "/\?#" c
      end
  | _ => false
  end.

Definition segments (u : t) : list string :=
  match path u with Segments l => l | OpaquePath _ => [] end.

Definition shorten_path (u : t) : t :=
  match path u with
  | OpaquePath _ => u
  | Segments l =>
      match l with
      | [only] =>
          if String.eqb (scheme u) "file"
             && is_normalized_windows_drive_letter only
          then u else with_path u (Segments [])
      | _ => with_path u (Segments (removelast l))
      end
  end.

Definition append_segment (u : t) (seg : string) : t :=
  with_path u (Segments (segments u ++ [seg])).

(** What the path state does with the finished [buffer]; [slash] tells
    whether the segment was closed by a slash. *)
Definition push_segment (u : t) (buffer : string) (slash : bool) : t :=
  if is_double_dot buffer then
    let u := shorten_path u in
    if slash then u else append_segment u ""
  else if is_single_dot buffer then
    if slash then u else append_segment u ""
  else
    let buffer :=
      if String.eqb (scheme u) "file"
         && match segments u with [] => true | _ => false end
         && is_windows_drive_letter buffer
      then match buffer with
           | String a (String _ r) => String a (String ":" r)
           | _ => buffer
           end
      else buffer in
    append_segment u buffer.

(** *** The states of the basic URL parser, last state first.
    Each function takes the input that remains, starting at the code
    point the state is about to read. *)

Definition fragment_state (u : t) (s : string) : t :=
  with_fragment u (Some (percent_encode fragment_set s)).

Definition query_state (u : t) (s : string) : t :=
  let (q, rest) := span_until (Ascii.eqb "#") s in
  let set := if is_special u then special_query_set else query_set in
  let u := with_query u (Some (percent_encode set q)) in
  match rest with
  | String _ r => fragment_state u r
  | EmptyString => u
  end.

Definition is_slash (special : bool) (c : ascii) : bool :=
  Ascii.eqb c "/" || (special && Ascii.eqb c "\").

Fixpoint path_state (u : t) (buffer : string) (s : string) : t :=
  match s with
  | EmptyString => push_segment u buffer false
  | String c r =>
      if is_slash (is_special u) c
      then path_state (push_segment u buffer true) "" r
      else if Ascii.eqb c "?"
      then query_state (with_query (push_segment u buffer false) (Some "")) r
      else if Ascii.eqb c "#"
      then fragment_state (push_segment u buffer false) r
      else path_state u
             (buffer ++ (if path_set c then percent_byte c
                         else Str.of_char c)) r
  end.

Definition opaque_path_state (u : t) (s : string) : t :=
  let (p, rest) := span_until (Chr.one_of "?#") s in
  let u := with_path u (OpaquePath (percent_encode c0_control_set p)) in
  match rest with
  | String c r =>
      if Ascii.eqb c "?" then query_state (with_query u (Some "")) r
      else fragment_state u r
  | EmptyString => u
  end.

Definition path_start_state (u : t) (s : string) : t :=
  match s with
  | EmptyString => if is_special u then path_state u "" s else u
  | String c r =>
      if is_special u then
        if is_slash true c then path_state u "" r else path_state u "" s
      else if Ascii.eqb c "?" then query_state (with_query u (Some "")) r
      else if Ascii.eqb c "#" then fragment_state u r
      else if Ascii.eqb c "/" then path_state u "" r
      else path_state u "" s
  end.

(** End of the authority: end of input, [/], [?], [#], and [\] in a
    special URL. *)
Definition authority_end (special : bool) (c : ascii) : bool :=
  Chr.one_of "/?#" c || (special && Ascii.eqb c "\").

Definition at_authority_end (special : bool) (s : string) : bool :=
  match s with
  | EmptyString => true
  | String c _ => authority_end special c
  end.

Definition port_state (u : t) (s : string) : option t :=
  let (buffer, rest) := span_until (fun c => negb (Chr.is_digit c)) s in
  if at_authority_end (is_special u) rest then
    match buffer with
    | EmptyString => Some (path_start_state u rest)
    | _ =>
        let port := parse_radix 10 buffer in
        if (65535 <? port)%N then None
        else
          let stored :=
            match default_port (scheme u) with
            | Some d => if (d =? port)%N then None else Some port
            | None => Some port
            end in
          Some (path_start_state (with_port u stored) rest)
    end
  else None.

Inductive host_end : Type :=
| AtColon (rest : string)      (* a colon outside brackets; [rest] follows it *)
| AtEnd (rest : string).       (* end of the authority; [rest] starts there *)

Fixpoint host_scan (special insideBrackets : bool) (s : string)
  : string * host_end :=
  match s with
  | EmptyString => (EmptyString, AtEnd s)
  | String c r =>
      if Ascii.eqb c ":" && negb insideBrackets then (EmptyString, AtColon r)
      else if authority_end special c then (EmptyString, AtEnd s)
      else
        let inside :=
          if Ascii.eqb c "[" then true
          else if Ascii.eqb c "]" then false
          else insideBrackets in
        let (buffer, e) := host_scan special inside r in
        (String c buffer, e)
  end.

Definition host_state (u : t) (s : string) : option t :=
  match host_scan (is_special u) false s with
  | (buffer, AtColon rest) =>
      if String.eqb buffer "" then None
      else match host_parse buffer (negb (is_special u)) with
           | None => None
           | Some h => port_state (with_host u (Some h)) rest
           end
  | (buffer, AtEnd rest) =>
      if is_special u && String.eqb buffer "" then None
      else match host_parse buffer (negb (is_special u)) with
           | None => None
           | Some h => Some (path_start_state (with_host u (Some h)) rest)
           end
  end.

(** Text before and after the last [@] of [s], if there is one. *)
Fixpoint split_last_at (s : string) : option (string * string) :=
  match s with
  | EmptyString => None
  | String c r =>
      match split_last_at r with
      | Some (a, b) => Some (String c a, b)
      | None => if Ascii.eqb c "@" then Some (EmptyString, r) else None
      end
  end.

(** The authority state reads up to the end of the authority; what
    precedes the last [@] is the credentials (user name up to the first
    colon, password after it), and the host state restarts after it. *)
Definition authority_state (u : t) (s : string) : option t :=
  let (authority, rest) := span_until (authority_end (is_special u)) s in
  match split_last_at authority with
  | None => host_state u s
  | Some (credentials, hostport) =>
      if String.eqb hostport "" then None
      else
        let (user, after) := span_until (Ascii.eqb ":") credentials in
        let pass := match after with String _ p => p | EmptyString => "" end in
        host_state
          (with_credentials u (percent_encode userinfo_set user)
                            (percent_encode userinfo_set pass))
          (hostport ++ rest)
  end.

Fixpoint special_authority_ignore_slashes_state (u : t) (s : string)
  : option t :=
  match s with
  | EmptyString => authority_state u s
  | String c r =>
      if is_slash true c then special_authority_ignore_slashes_state u r
      else authority_state u s
  end.

Definition special_authority_slashes_state (u : t) (s : string)
  : option t :=
  match s with
  | String "/" (String "/" r) => special_authority_ignore_slashes_state u r
  | _ => special_authority_ignore_slashes_state u s
  end.

Definition path_or_authority_state (u : t) (s : string) : option t :=
  match s with
  | String "/" r => authority_state u r
  | _ => Some (path_state u "" s)
  end.

Definition inherit_authority (u base : t) : t :=
  with_port (with_host (with_credentials u (username base) (password base))
                       (host base)) (port base).

Definition relative_slash_state (u base : t) (s : string) : option t :=
  match s with
  | String c r =>
      if is_special u && is_slash true c
      then special_authority_ignore_slashes_state u r
      else if Ascii.eqb c "/" then authority_state u r
      else Some (path_state (inherit_authority u base) "" s)
  | EmptyString => Some (path_state (inherit_authority u base) "" s)
  end.

Definition relative_state (u base : t) (s : string) : option t :=
  let u := with_scheme u (scheme base) in
  let copied :=
    with_query (with_path (inherit_authority u base) (path base))
               (query base) in
  match s with
  | EmptyString => Some copied
  | String c r =>
      if is_slash (is_special u) c then relative_slash_state u base r
      else if Ascii.eqb c "?"
      then Some (query_state (with_query copied (Some "")) r)
      else if Ascii.eqb c "#" then Some (fragment_state copied r)
      else Some (path_state (shorten_path (with_query copied None)) "" s)
  end.

Definition special_relative_or_authority_state (u base : t) (s : string)
  : option t :=
  match s with
  | String "/" (String "/" r) => special_authority_ignore_slashes_state u r
  | _ => relative_state u base s
  end.

Definition empty_host : host_t := OpaqueHost "".

Definition file_host_state (u : t) (s : string) : option t :=
  let (buffer, rest) := span_until (Chr.one_of "/\?#") s in
  if is_windows_drive_letter buffer then Some (path_state u buffer rest)
  else if String.eqb buffer ""
  then Some (path_start_state (with_host u (Some empty_host)) rest)
  else match host_parse buffer (negb (is_special u)) with
       | None => None
       | Some h =>
           let h := match h with
                    | Domain name =>
                        if String.eqb name "localhost" then empty_host else h
                    | _ => h
                    end in
           Some (path_start_state (with_host u (Some h)) rest)
       end.

Definition file_base (base : option t) : option t :=
  match base with
  | Some b => if String.eqb (scheme b) "file" then Some b else None
  | None => None
  end.

Definition file_slash_state (u : t) (base : option t) (s : string)
  : option t :=
  match s with
  | String c r =>
      if is_slash true c then file_host_state u r
      else
        let u :=
          match file_base base with
          | Some b =>
              let u := with_host u (host b) in
              match segments b with
              | first :: _ =>
                  if negb (starts_with_windows_drive_letter s)
                     && is_normalized_windows_drive_letter first
                  then append_segment u first else u
              | [] => u
              end
          | None => u
          end in
        Some (path_state u "" s)
  | EmptyString =>
      let u :=
        match file_base base with
        | Some b =>
            let u := with_host u (host b) in
            match segments b with
            | first :: _ =>
                if is_normalized_windows_drive_letter first
                then append_segment u first else u
            | [] => u
            end
        | None => u
        end in
      Some (path_state u "" s)
  end.

Definition file_state (u : t) (base : option t) (s : string) : option t :=
  let u := with_host (with_scheme u "file") (Some empty_host) in
  match s with
  | String c r =>
      if is_slash true c then file_slash_state u base r
      else
        match file_base base with
        | Some b =>
            let copied :=
              with_query (with_path (with_host u (host b)) (path b))
                         (query b) in
            if Ascii.eqb c "?"
            then Some (query_state (with_query copied (Some "")) r)
            else if Ascii.eqb c "#" then Some (fragment_state copied r)
            else
              let u := with_query copied None in
              let u := if starts_with_windows_drive_letter s
                       then with_path u (Segments [])
                       else shorten_path u in
              Some (path_state u "" s)
        | None => Some (path_state u "" s)
        end
  | EmptyString =>
      match file_base base with
      | Some b =>
          Some (with_query (with_path (with_host u (host b)) (path b))
                           (query b))
      | None => Some (path_state u "" s)
      end
  end.

Definition no_scheme_state (u : t) (base : option t) (s : string)
  : option t :=
  match base with
  | None => None
  | Some b =>
      if has_opaque_path b then
        match s with
        | String "#" r =>
            Some (fragment_state
                    (with_query (with_path (with_scheme u (scheme b))
                                           (path b)) (query b)) r)
        | _ => None
        end
      else if String.eqb (scheme b) "file" then file_state u base s
      else relative_state u b s
  end.

(** The scheme of [s] (lower-cased) and what follows its colon, when [s]
    starts with a letter followed by letters, digits, [+], [-], [.] up to
    a colon. *)
Fixpoint scheme_rest (s : string) : option (string * string) :=
  match s with
  | EmptyString => None
  | String c r =>
      if Ascii.eqb c ":" then Some (EmptyString, r)
      else if Chr.is_alnum c || Chr.one_of "+-." c then
        match scheme_rest r with
        | Some (a, b) => Some (String (Chr.lower c) a, b)
        | None => None
        end
      else None
  end.

Definition split_scheme (s : string) : option (string * string) :=
  match s with
  | String c _ => if Chr.is_alpha c then scheme_rest s else None
  | EmptyString => None
  end.

Definition c0_control_or_space (c : ascii) : bool := (Chr.code c <=? 32)%N.

Fixpoint strip_leading (p : ascii -> bool) (s : string) : string :=
  match s with
  | String c r => if p c then strip_leading p r else s
  | EmptyString => s
  end.

Definition strip_both (p : ascii -> bool) (s : string) : string :=
  Str.rev (strip_leading p (Str.rev (strip_leading p s))).

Definition tab_or_newline (c : ascii) : bool :=
  (Chr.code c =? 9)%N || (Chr.code c =? 10)%N || (Chr.code c =? 13)%N.

(** The basic URL parser, without state override. *)
Definition basic_parse (input : string) (base : option t) : option t :=
  let s := Str.filter (fun c => negb (tab_or_newline c))
                      (strip_both c0_control_or_space input) in
  match split_scheme s with
  | None => no_scheme_state blank base s
  | Some (sch, rest) =>
      let u := with_scheme blank sch in
      if String.eqb sch "file" then file_state u base rest
      else if is_special_scheme sch then
        match base with
        | Some b =>
            if String.eqb (scheme b) sch
            then special_relative_or_authority_state u b rest
            else special_authority_slashes_state u rest
        | None => special_authority_slashes_state u rest
        end
      else match rest with
           | String "/" r => path_or_authority_state u r
           | _ => Some (opaque_path_state (with_path u (OpaquePath "")) rest)
           end
  end.

(** [new URL(input, base)]: the base is parsed first, without a base of
    its own; [None] is the [TypeError] the constructor throws. *)
Definition new (input : string) (base : option string) : option t :=
  match base with
  | None => basic_parse input None
  | Some b =>
      match basic_parse b None with
      | None => None
      | Some parsedBase => basic_parse input (Some parsedBase)
      end
  end.

Definition toString (u : t) : string := serialize u.

(** [u.origin]: scheme, host and port for [http], [https], [ftp], [ws],
    [wss]; the origin of the enclosed URL for [blob:]; otherwise the
    opaque origin, which serializes as [null]. *)
Definition tuple_origin (u : t) : string :=
  scheme u ++ "://" ++
  match host u with Some h => host_serialize h | None => "" end ++
  match port u with Some p => ":" ++ decimal p | None => "" end.

Definition origin (u : t) : string :=
  if String.eqb (scheme u) "blob" then
    match basic_parse (path_serialize (path u)) None with
    | Some inner =>
        if String.eqb (scheme inner) "http"
           || String.eqb (scheme inner) "https"
        then tuple_origin inner else "null"
    | None => "null"
    end
  else if String.eqb (scheme u) "file" then "null"
  else if is_special u then tuple_origin u
  else "null".

End Parser.

End URL.

(** ** [absoluteUrl] (server.js, lines 36-42) *)

Section Resolver.
Context {platform : Platform}.

Definition absoluteUrl (base relative : string) : option string :=
  match URL.new relative (Some base) with
  | Some u => Some (URL.toString u)
  | None => None
  end.

End Resolver.

(** JavaScript truthiness of a string, and of a string that may be
    [undefined] or [null]. *)
Definition truthy (s : string) : bool := negb (String.eqb s "").

Definition truthy_opt (v : option string) : bool :=
  match v with Some s => truthy s | None => false end.

(** ** The document tree and the cheerio operations the source uses *)

Module Dom.

Definition attribs := list (string * string).

Inductive node : Type :=
| Element (name : string) (attrs : attribs) (children : list node)
| Text (data : string)
| Other (data : string).        (* comment, doctype, processing directive *)

Definition document := list node.

(** [$(el).attr(name)] *)
Fixpoint attr (name : string) (a : attribs) : option string :=
  match a with
  | [] => None
  | (k, v) :: r => if String.eqb k name then Some v else attr name r
  end.

Definition has_attr (name : string) (a : attribs) : bool :=
  match attr name a with Some _ => true | None => false end.

(** [$(el).attr(name, value)]: the value of an attribute that is there is
    replaced in place, a new attribute goes last. *)
Fixpoint set_attr (name value : string) (a : attribs) : attribs :=
  match a with
  | [] => [(name, value)]
  | (k, v) :: r =>
      if String.eqb k name then (k, value) :: r
      else (k, v) :: set_attr name value r
  end.

(** A selector is a test on the tag name and the attributes. *)
Definition selector := string -> attribs -> bool.

(** [tag[name]] *)
Definition tag_with (tag name : string) : selector :=
  fun n a => String.eqb n tag && has_attr name a.

(** [[name]] *)
Definition any_with (name : string) : selector :=
  fun _ a => has_attr name a.

(** [tag[name="value"]] *)
Definition tag_attr_is (tag name value : string) : selector :=
  fun n a => String.eqb n tag &&
             match attr name a with
             | Some v => String.eqb v value
             | None => false
             end.

(** [tag[name="value"]] for an attribute whose value HTML compares
    without regard to letter case ([rel] is one; [property] is not): the
    selector engine of cheerio lower-cases both sides.  Lower-casing the
    ASCII letters is enough for the values used here, [icon],
    [shortcut icon] and [apple-touch-icon]: the only characters outside
    ASCII whose lower case holds an ASCII letter are U+212A, which gives
    [k], and U+0130, which gives [i] and a combining dot. *)
Definition tag_attr_is_ci (tag name value : string) : selector :=
  fun n a => String.eqb n tag &&
             match attr name a with
             | Some v => String.eqb (Str.toLowerCase v)
                                    (Str.toLowerCase value)
             | None => false
             end.

Definition tag_is (tag : string) : selector :=
  fun n _ => String.eqb n tag.

(** [$(sel).each((i, el) => ...)] where the callback only reads and sets
    attributes of [el]: every selected element gets its attributes
    updated by [f]. *)
Fixpoint each_node (sel : selector) (f : attribs -> attribs) (n : node)
  : node :=
  match n with
  | Element name a children =>
      Element name (if sel name a then f a else a)
              (List.map (each_node sel f) children)
  | _ => n
  end.

Definition each (sel : selector) (f : attribs -> attribs) (d : document)
  : document :=
  List.map (each_node sel f) d.

(** [$(sel)]: the selected elements in document order, as name and
    attributes with their children. *)
Fixpoint select_node (sel : selector) (n : node) : list node :=
  match n with
  | Element name a children =>
      (if sel name a then [n] else [])
        ++ List.flat_map (select_node sel) children
  | _ => []
  end.

Definition select (sel : selector) (d : document) : list node :=
  List.flat_map (select_node sel) d.

Definition node_attr (name : string) (n : node) : option string :=
  match n with
  | Element _ a _ => attr name a
  | _ => None
  end.

(** [$(sel).attr(name)]: the attribute of the first selected element. *)
Definition first_attr (sel : selector) (name : string) (d : document)
  : option string :=
  match select sel d with
  | n :: _ => node_attr name n
  | [] => None
  end.

(** [.text()]: the text of all descendants, in order. *)
Fixpoint text (n : node) : string :=
  match n with
  | Element _ _ children =>
      List.fold_right (fun c out => text c ++ out) "" children
  | Text data => data
  | Other _ => ""
  end.

(** [$(sel).first().text()] *)
Definition first_text (sel : selector) (d : document) : string :=
  match select sel d with
  | n :: _ => text n
  | [] => ""
  end.

(** [$(sel).prepend(fragment)]: the nodes of the fragment become the
    first children of every selected element. *)
Fixpoint prepend_node (sel : selector) (fragment : list node) (n : node)
  : node :=
  match n with
  | Element name a children =>
      Element name a
              ((if sel name a then fragment else [])
                 ++ List.map (prepend_node sel fragment) children)
  | _ => n
  end.

Definition prepend (sel : selector) (fragment : list node) (d : document)
  : document :=
  List.map (prepend_node sel fragment) d.

(** Every attribute of every element, with the tag it sits on. *)
Fixpoint node_attributes (n : node) : list (string * string * string) :=
  match n with
  | Element name a children =>
      List.map (fun kv => (name, fst kv, snd kv)) a
        ++ List.flat_map node_attributes children
  | _ => []
  end.

Definition attributes (d : document) : list (string * string * string) :=
  List.flat_map node_attributes d.

End Dom.

(** ** The rewriting rules of the [/proxy] handler (lines 137-194) *)

Section Rules.
Context {platform : Platform}.

(** The two indirection endpoints. *)
Definition proxy_ref (abs : string) : string :=
  "/proxy?url=" ++ encodeURIComponent abs.

Definition asset_ref (abs : string) : string :=
  "/asset?url=" ++ encodeURIComponent abs.

(** Apply a rule to the attribute [name]: the rule gives the new value, or
    nothing when the element is left alone. *)
Definition update_attr (name : string) (rule : string -> option string)
           (a : Dom.attribs) : Dom.attribs :=
  match Dom.attr name a with
  | None => a
  | Some v =>
      match rule v with
      | Some v' => Dom.set_attr name v' a
      | None => a
      end
  end.

(** [absoluteUrl] followed by [if (abs)] / [if (!abs) return]. *)
Definition resolved (base ref : string) : option string :=
  match absoluteUrl base ref with
  | Some abs => if truthy abs then Some abs else None
  | None => None
  end.

(** Lines 137-143: [a[href]]. *)
Definition anchor_href (base href : string) : option string :=
  if negb (truthy href) then None
  else if Str.startsWith "#" href || Str.startsWith "javascript:" href
  then None
  else match resolved base href with
       | Some abs => Some (proxy_ref abs)
       | None => None
       end.

(** Lines 146-156: [img[src]] and [script[src]]. *)
Definition asset_src (base src : string) : option string :=
  match resolved base src with
  | Some abs => Some (asset_ref abs)
  | None => None
  end.

(** [/\.(css)$/i.test(abs.split('?')[0])] *)
Definition css_path_test (abs : string) : bool :=
  Str.endsWith ".css" (Str.toLowerCase (List.hd "" (Str.split "?" abs))).

(** Lines 158-169: [link[href]]; [rel] is the [rel] attribute if any. *)
Definition link_href (base : string) (rel : option string) (href : string)
  : option string :=
  let rel := Str.toLowerCase
               (match rel with
                | Some r => if truthy r then r else ""
                | None => ""
                end) in
  match resolved base href with
  | None => None
  | Some abs =>
      if String.eqb rel "stylesheet" || css_path_test abs
      then Some (asset_ref abs)
      else Some (proxy_ref abs)
  end.

(** *** The regular expression of line 175

    It reads: the letters [url], an opening parenthesis, group 1 an
    optional single or double quote, group 2 a lazy run of characters
    other than line terminators, a back-reference to group 1, a closing
    parenthesis; with the global flag. *)

(** A line terminator starts here: LF, CR, U+2028 or U+2029.  The dot of
    the regular expression matches anything else. *)
Definition line_terminator_at (s : string) : bool :=
  match s with
  | String c r =>
      (Chr.code c =? 10)%N || (Chr.code c =? 13)%N ||
      match r with
      | String d (String e _) =>
          (Chr.code c =? 226)%N && (Chr.code d =? 128)%N
          && ((Chr.code e =? 168)%N || (Chr.code e =? 169)%N)
      | _ => false
      end
  | EmptyString => false
  end.

(** The lazy [(.*?)] followed by [close]: the shortest text without line
    terminator after which [close] stands, and what follows [close]. *)
Fixpoint lazy_until (close s : string) : option (string * string) :=
  match Str.strip_prefix close s with
  | Some rest => Some (EmptyString, rest)
  | None =>
      match s with
      | EmptyString => None
      | String c r =>
          if line_terminator_at s then None
          else match lazy_until close r with
               | Some (inner, rest) => Some (String c inner, rest)
               | None => None
               end
      end
  end.

Definition is_quote (c : ascii) : bool :=
  Ascii.eqb c Chr.squote || Ascii.eqb c Chr.dquote.

(** A match of the regular expression at the start of [s]: the quote
    captured by group 1 (possibly empty), the text of group 2, and what
    follows the match.  The optional quote is tried first; when no closing
    quote and parenthesis follow, the engine backtracks to the empty
    quote. *)
Definition url_match (s : string) : option (string * string * string) :=
  match Str.strip_prefix "url(" s with
  | None => None
  | Some after =>
      let unquoted :=
        match lazy_until ")" after with
        | Some (inner, rest) => Some (EmptyString, inner, rest)
        | None => None
        end in
      match after with
      | String c r =>
          if is_quote c then
            match lazy_until (String c ")") r with
            | Some (inner, rest) => Some (Str.of_char c, inner, rest)
            | None => unquoted
            end
          else unquoted
      | EmptyString => unquoted
      end
  end.

(** The input cut at the successive matches of the global expression. *)
Inductive piece : Type :=
| Plain (c : ascii)                       (* a character outside any match *)
| UrlRef (quote inner : string).          (* a match [url(q inner q)] *)

Definition matched_text (quote inner : string) : string :=
  "url(" ++ quote ++ inner ++ quote ++ ")".

Definition piece_text (p : piece) : string :=
  match p with
  | Plain c => Str.of_char c
  | UrlRef q inner => matched_text q inner
  end.

Fixpoint url_pieces (fuel : nat) (s : string) : list piece :=
  match fuel with
  | O => []
  | S fuel' =>
      match s with
      | EmptyString => []
      | String c r =>
          match url_match s with
          | Some (q, inner, rest) => UrlRef q inner :: url_pieces fuel' rest
          | None => Plain c :: url_pieces fuel' r
          end
      end
  end.

Fixpoint concat_map {A} (f : A -> string) (l : list A) : string :=
  match l with
  | [] => EmptyString
  | x :: r => f x ++ concat_map f r
  end.

(** [style.replace(re, (m, q, inner) => ...)] *)
Definition replace_urls (f : string -> string -> string -> string)
           (style : string) : string :=
  concat_map (fun p => match p with
                       | Plain c => Str.of_char c
                       | UrlRef q inner => f (matched_text q inner) q inner
                       end)
             (url_pieces (String.length style) style).

(** The callback of lines 175-179. *)
Definition style_url (base : string) (m q inner : string) : string :=
  match resolved base inner with
  | None => m
  | Some abs => "url('" ++ asset_ref abs ++ "')"
  end.

(** Lines 172-181: [[style]]. *)
Definition style_value (base style : string) : option string :=
  if negb (truthy style) then None
  else Some (replace_urls (style_url base) style).

(** Lines 187-192: one candidate of a [srcset], already trimmed. *)
Definition srcset_candidate (base p : string) : string :=
  let tokens := Str.split_ws p in
  let u := List.hd "" tokens in
  let descriptor := List.nth_error tokens 1 in
  match resolved base u with
  | None => p
  | Some abs =>
      asset_ref abs ++ (if truthy_opt descriptor
                        then " " ++ match descriptor with
                                    | Some d => d
                                    | None => ""
                                    end
                        else "")
  end.

(** Lines 184-194: [img[srcset]]. *)
Definition srcset_value (base srcset : string) : option string :=
  if negb (truthy srcset) then None
  else Some (Str.join ", "
               (List.map (srcset_candidate base)
                         (List.map Str.trim (Str.split "," srcset)))).

(** The six passes over the document, in the order of the source. *)
Definition rewrite_anchors (base : string) : Dom.document -> Dom.document :=
  Dom.each (Dom.tag_with "a" "href") (update_attr "href" (anchor_href base)).

Definition rewrite_images (base : string) : Dom.document -> Dom.document :=
  Dom.each (Dom.tag_with "img" "src") (update_attr "src" (asset_src base)).

Definition rewrite_scripts (base : string) : Dom.document -> Dom.document :=
  Dom.each (Dom.tag_with "script" "src") (update_attr "src" (asset_src base)).

Definition rewrite_links (base : string) : Dom.document -> Dom.document :=
  Dom.each (Dom.tag_with "link" "href")
           (fun a => update_attr "href" (link_href base (Dom.attr "rel" a)) a).

Definition rewrite_styles (base : string) : Dom.document -> Dom.document :=
  Dom.each (Dom.any_with "style") (update_attr "style" (style_value base)).

Definition rewrite_srcsets (base : string) : Dom.document -> Dom.document :=
  Dom.each (Dom.tag_with "img" "srcset")
           (update_attr "srcset" (srcset_value base)).

Definition rewrite_rules (base : string) (d : Dom.document) : Dom.document :=
  rewrite_srcsets base
    (rewrite_styles base
       (rewrite_links base
          (rewrite_scripts base
             (rewrite_images base
                (rewrite_anchors base d))))).

End Rules.

(** ** The metadata extraction of the [/meta] handler (lines 57-74) *)

Section Metadata.
Context {platform : Platform}.

(** [a || b || c] followed by a truthiness test: the first operand that is
    a non-empty string. *)
Fixpoint first_truthy (l : list (option string)) : option string :=
  match l with
  | [] => None
  | v :: r => if truthy_opt v then v else first_truthy r
  end.

(** Line 57. *)
Definition meta_title (url : string) (d : Dom.document) : string :=
  match first_truthy
          [Dom.first_attr (Dom.tag_attr_is "meta" "property" "og:title")
                          "content" d;
           Some (Dom.first_text (Dom.tag_is "title") d)] with
  | Some t => t
  | None => url
  end.

(** Lines 60-62: the [href] of the first [link] of each kind, in the order
    [icon], [shortcut icon], [apple-touch-icon]. *)
Definition favicon_candidates (d : Dom.document) : list (option string) :=
  [Dom.first_attr (Dom.tag_attr_is_ci "link" "rel" "icon") "href" d;
   Dom.first_attr (Dom.tag_attr_is_ci "link" "rel" "shortcut icon") "href" d;
   Dom.first_attr (Dom.tag_attr_is_ci "link" "rel" "apple-touch-icon")
                  "href" d].

(** Lines 68-73: the synthesized [origin + '/favicon.ico']. *)
Definition favicon_fallback (url : string) : option string :=
  match URL.new url None with
  | Some u => Some (URL.origin u ++ "/favicon.ico")
  | None => None
  end.

(** Lines 64-74; [None] is [null]. *)
Definition meta_favicon (url : string) (d : Dom.document) : option string :=
  match first_truthy (favicon_candidates d) with
  | Some favicon => absoluteUrl url favicon
  | None => favicon_fallback url
  end.

End Metadata.

(** ** Requests, responses and the upstream *)

(** What [fetch] resolves to.  [up_bytes] is what the body stream delivers;
    when [up_intact] is false the stream fails after these bytes.
    [up_pipeable] is the test [r.body && typeof r.body.pipe === 'function']. *)
Record upstream : Type := {
  up_status : nat;
  up_content_type : option string;    (* [headers.get('content-type')] *)
  up_pipeable : bool;
  up_bytes : string;
  up_intact : bool
}.

Inductive fetched : Type :=
| Rejected                            (* network error, time-out, bad address *)
| Resolved (r : upstream).

(** The upstream seen by one request: the outcome of its [n]-th call of
    [fetch] for an address. *)
Definition network := nat -> string -> fetched.

Inductive payload : Type :=
| NoBody
| Json (fields : list (string * option string))  (* [res.json]; [None] is null *)
| Sent (data : string)                           (* [res.send] *)
| Piped (data : string) (finished : bool).       (* [body.pipe(res)] *)

(** The response as the handler leaves it: the status ([200] unless
    [res.status] is called), the headers set through [res.set], the body. *)
Record response : Type := {
  status : nat;
  headers : list (string * string);
  body : payload
}.

Definition fresh : response := {| status := 200; headers := []; body := NoBody |}.

Fixpoint set_header (name value : string) (h : list (string * string))
  : list (string * string) :=
  match h with
  | [] => [(name, value)]
  | (k, v) :: r =>
      if String.eqb k name then (k, value) :: r
      else (k, v) :: set_header name value r
  end.

Fixpoint header (name : string) (h : list (string * string)) : option string :=
  match h with
  | [] => None
  | (k, v) :: r => if String.eqb k name then Some v else header name r
  end.

(** *** A monad for the body of a handler

    The state is the number of [fetch] calls made and the response under
    construction; a computation either returns or throws, and a throw keeps
    the state, as a JavaScript exception keeps the mutations made before
    it. *)

Record world : Type := { calls : nat; res : response }.

Definition io (A : Type) : Type := network -> world -> option A * world.

Definition ret {A} (a : A) : io A := fun _ w => (Some a, w).

Definition bind {A B} (m : io A) (k : A -> io B) : io B :=
  fun net w =>
    match m net w with
    | (Some a, w') => k a net w'
    | (None, w') => (None, w')
    end.

Definition throw {A} : io A := fun _ w => (None, w).

Definition try_catch {A} (m handler : io A) : io A :=
  fun net w =>
    match m net w with
    | (Some a, w') => (Some a, w')
    | (None, w') => handler net w'
    end.

Notation "x <- m ;; k" := (bind m (fun x => k))
  (at level 61, m at next level, right associativity).
Notation "m ;; k" := (bind m (fun _ => k))
  (at level 61, right associativity).

(** [await fetch(url, ...)] *)
Definition fetch (url : string) : io upstream :=
  fun net w =>
    let w' := {| calls := S (calls w); res := res w |} in
    match net (calls w) url with
    | Resolved r => (Some r, w')
    | Rejected => (None, w')
    end.

(** [await r.text()] and [await r.buffer()]: the whole body, or a throw
    when the stream fails. *)
Definition read_all (r : upstream) : io string :=
  if up_intact r then ret (up_bytes r) else throw.

Definition modify (f : response -> response) : io unit :=
  fun _ w => (Some tt, {| calls := calls w; res := f (res w) |}).

Definition res_status (code : nat) : io unit :=
  modify (fun r => {| status := code; headers := headers r; body := body r |}).

(** What [res.set] stores for [Content-Type] (Express 4,
    [lib/response.js]): a value in which the regular expression
    [/;\s*charset\s*=/] finds nothing, and whose part before the first
    semicolon starts with [text/], [application/javascript] or
    [application/json], gets [; charset=utf-8] appended. *)
Definition charset_parameter_at (s : string) : bool :=
  match Str.strip_prefix ";" s with
  | Some r =>
      match Str.strip_prefix "charset" (Str.trimStart r) with
      | Some r' => Str.startsWith "=" (Str.trimStart r')
      | None => false
      end
  | None => false
  end.

Fixpoint declares_charset (s : string) : bool :=
  charset_parameter_at s
  || match s with
     | String _ r => declares_charset r
     | EmptyString => false
     end.

Definition has_default_charset (type : string) : bool :=
  Str.startsWith "text/" type
  || Str.startsWith "application/javascript" type
  || Str.startsWith "application/json" type.

Definition express_content_type (value : string) : string :=
  if declares_charset value then value
  else if has_default_charset (List.hd "" (Str.split ";" value))
  then value ++ "; charset=utf-8"
  else value.

(** [res.set(name, value)] *)
Definition res_set (name value : string) : io unit :=
  modify (fun r =>
            {| status := status r;
               headers :=
                 set_header name
                   (if String.eqb (Str.toLowerCase name) "content-type"
                    then express_content_type value else value)
                   (headers r);
               body := body r |}).

Definition res_body (b : payload) : io unit :=
  modify (fun r => {| status := status r; headers := headers r; body := b |}).

Definition res_json (fields : list (string * option string)) : io unit :=
  res_body (Json fields).

Definition res_send (data : string) : io unit := res_body (Sent data).

(** [r.body.pipe(res)]: the bytes the stream delivers go out; the response
    is finished only when the stream ends without failure. *)
Definition pipe (r : upstream) : io unit :=
  res_body (Piped (up_bytes r) (up_intact r)).

Definition when (b : bool) (m : io unit) : io unit :=
  if b then m else ret tt.

(** The response a handler leaves behind. *)
Definition run (m : io unit) (net : network) : response :=
  res (snd (m net {| calls := 0; res := fresh |})).


(** ** The handlers *)

Definition dq : string := Str.of_char Chr.dquote.

(** The markup of line 197, with [base] spliced in as the source does. *)
Definition banner_html (base : string) : string :=
  "<div style=" ++ dq ++
  "position:fixed;left:0;right:0;top:0;background:rgba(0,0,0,0.55);color:#fff;padding:6px;z-index:99999;font-family:system-ui;font-size:12px;"
  ++ dq ++ ">Proxied via In-Browser Proxy — <a href=" ++ dq ++ base ++ dq ++
  " style=" ++ dq ++ "color:#9cf;" ++ dq ++ " target=" ++ dq ++ "_blank" ++ dq
  ++ " rel=" ++ dq ++ "noopener noreferrer" ++ dq ++ ">Open original</a></div>".

Section Server.
Context {platform : Platform}.

(** cheerio's parser and serializer are taken as they are:
    [load] is [cheerio.load(text)], [load_raw] is
    [cheerio.load(text, { decodeEntities: false })], [fragment] parses
    the markup handed to [prepend], [html] is [$.html()]. *)
Variable load : string -> Dom.document.
Variable load_raw : string -> Dom.document.
Variable fragment : string -> list Dom.node.
Variable html : Dom.document -> string.

(** Lines 48-81. *)
Definition meta_handler (url : option string) : io unit :=
  match url with
  | Some url' =>
      if truthy url' then
        try_catch
          (r <- fetch url' ;;
           text <- read_all r ;;
           let d := load text in
           res_json [("title", Some (meta_title url' d));
                     ("favicon", meta_favicon url' d)])
          (res_json [("title", Some url'); ("favicon", None)])
      else res_status 400 ;; res_json [("error", Some "missing url")]
  | None => res_status 400 ;; res_json [("error", Some "missing url")]
  end.

(** Lines 88-111. *)
Definition asset_handler (url : option string) : io unit :=
  match url with
  | Some url' =>
      if truthy url' then
        try_catch
          (r <- fetch url' ;;
           when (truthy_opt (up_content_type r))
                (res_set "Content-Type"
                         (match up_content_type r with
                          | Some ct => ct
                          | None => ""
                          end)) ;;
           if up_pipeable r then pipe r
           else (buf <- read_all r ;; res_send buf))
          (res_status 500 ;; res_send "Asset fetch failed")
      else res_status 400 ;; res_send "No url"
  | None => res_status 400 ;; res_send "No url"
  end.

(** Lines 134-197: the rules, then the banner. *)
Definition rewrite_page (base : string) (d : Dom.document) : Dom.document :=
  Dom.prepend (Dom.tag_is "body") (fragment (banner_html base))
              (rewrite_rules base d).

(** Lines 117-205. *)
Definition proxy_handler (url : option string) : io unit :=
  match url with
  | Some url' =>
      if truthy url' then
        try_catch
          (r <- fetch url' ;;
           let contentType :=
             match up_content_type r with
             | Some ct => if truthy ct then ct else ""
             | None => ""
             end in
           if negb (Str.includes "text/html" contentType) then
             r2 <- fetch url' ;;
             if up_pipeable r2 then pipe r2
             else (b <- read_all r2 ;; res_send b)
           else
             text <- read_all r ;;
             let d := rewrite_page url' (load_raw text) in
             res_set "Content-Type" "text/html; charset=utf-8" ;;
             res_send (html d))
          (res_status 500 ;; res_send "Proxy failed")
      else res_status 400 ;; res_send "No url"
  | None => res_status 400 ;; res_send "No url"
  end.

End Server.

(** ** Predicates used in the statements *)

Section Statements.
Context {platform : Platform}.

Definition scheme_char (c : ascii) : bool :=
  Chr.is_lower c || Chr.is_digit c || Chr.one_of "+-." c.

(** A scheme as the parser stores it: a lower-case letter followed by
    lower-case letters, digits, [+], [-] and [.]. *)
Definition valid_scheme (s : string) : bool :=
  match s with
  | String c r => Chr.is_lower c && Str.forallb scheme_char r
  | EmptyString => false
  end.

(** An absolute URL string: a scheme, a colon, and the rest. *)
Definition absolute_url_string (abs : string) : Prop :=
  exists sch rest, abs = sch ++ ":" ++ rest /\ valid_scheme sch = true.


(** The new value of an anchor's [href] in the words of the amended
    claim C3: an empty value and values that start with [#] or
    [javascript:] stay; any other value is resolved and becomes the
    navigate reference, or stays when resolution fails. *)
Definition anchor_new_href (base href : string) : string :=
  if String.eqb href "" then href
  else if Str.startsWith "#" href then href
  else if Str.startsWith "javascript:" href then href
  else match absoluteUrl base href with
       | Some abs => "/proxy?url=" ++ encodeURIComponent abs
       | None => href
       end.

(** The values of the attribute [name] on the elements [tag[name]] of a
    document, in document order. *)
Definition slot_values (tag name : string) (d : Dom.document)
  : list (option string) :=
  List.map (Dom.node_attr name) (Dom.select (Dom.tag_with tag name) d).

Definition anchor_hrefs : Dom.document -> list (option string) :=
  slot_values "a" "href".

(** The value a rule leaves in the attribute. *)
Definition apply_rule (rule : string -> option string) (v : string) : string :=
  match rule v with Some v' => v' | None => v end.

(** What becomes of one piece of a style text, in the words of claim C8:
    text outside the references stays; a reference that resolves becomes
    the asset reference in single quotes; one that does not stays as
    written. *)
Definition url_image (base : string) (p : piece) : string :=
  match p with
  | Plain c => Str.of_char c
  | UrlRef q inner =>
      match absoluteUrl base inner with
      | Some abs => "url('/asset?url=" ++ encodeURIComponent abs ++ "')"
      | None => "url(" ++ q ++ inner ++ q ++ ")"
      end
  end.

(** The quote captured with a reference: none, single or double. *)
Definition quote_mark (q : string) : Prop :=
  q = "" \/ q = Str.of_char Chr.squote \/ q = Str.of_char Chr.dquote.

(** What becomes of one trimmed candidate of a [srcset], in the words of
    the amended claim C6: the first token is the URL, the second, if any,
    the descriptor. *)
Definition candidate_image (base cand : string) : string :=
  match absoluteUrl base (List.hd "" (Str.split_ws cand)) with
  | Some abs =>
      "/asset?url=" ++ encodeURIComponent abs ++
      match List.nth_error (Str.split_ws cand) 1 with
      | Some d => if String.eqb d "" then "" else " " ++ d
      | None => ""
      end
  | None => cand
  end.

(** *** The inline style rule in the words of the amended claim C8 *)

(** The values of the [style] attribute on the elements that have one,
    whatever their tag, in document order. *)
Definition style_values (d : Dom.document) : list (option string) :=
  List.map (Dom.node_attr "style") (Dom.select (Dom.any_with "style") d).

(** The line terminators: LF, CR, U+2028 and U+2029, the last two in
    UTF-8. *)
Definition line_terminators : list string :=
  [String (ascii_of_N 10) "";
   String (ascii_of_N 13) "";
   String (ascii_of_N 226) (String (ascii_of_N 128)
                                   (String (ascii_of_N 168) ""));
   String (ascii_of_N 226) (String (ascii_of_N 128)
                                   (String (ascii_of_N 169) ""))].

Definition one_line (t : string) : Prop :=
  forall lt, In lt line_terminators -> forall a b, t <> a ++ lt ++ b.

(** [t] is the shortest text after which [close] stands in [s]; it holds
    no line terminator; [rest] is what follows [close]. *)
Definition shortest_before (close s t rest : string) : Prop :=
  s = t ++ close ++ rest
  /\ (forall t' rest', s = t' ++ close ++ rest' ->
                       String.length t <= String.length t')
  /\ one_line t.

Definition quote (q : string) : Prop := q = "'" \/ q = dq.

(** A reference stands at the start of [s]: the text [url(], then either
    a quote [q], the shortest one-line text [t] up to the same quote and a
    closing parenthesis, or, when [s] does not go on like this, no quote
    and the shortest one-line text [t] up to a closing parenthesis;
    [rest] is what follows the parenthesis. *)
Definition reference_at (s q t rest : string) : Prop :=
  exists after,
    s = "url(" ++ after
    /\ ((quote q
         /\ exists after', after = q ++ after'
                           /\ shortest_before (q ++ ")") after' t rest)
        \/ (q = ""
            /\ shortest_before ")" after t rest
            /\ forall q' after' t' rest',
                quote q' -> after = q' ++ after' ->
                ~ shortest_before (q' ++ ")") after' t' rest')).

(** What becomes of a reference: the asset reference in single quotes
    when its text resolves, the reference as written when not. *)
Definition reference_image (base q t : string) : string :=
  match absoluteUrl base t with
  | Some abs => "url('/asset?url=" ++ encodeURIComponent abs ++ "')"
  | None => "url(" ++ q ++ t ++ q ++ ")"
  end.

(** The style text read from left to right: where a reference stands it
    is replaced by its image and reading goes on after it; any other
    character is kept. *)
Inductive style_rewritten (base : string) : string -> string -> Prop :=
| sr_end : style_rewritten base "" ""
| sr_reference (s q t rest out : string) :
    reference_at s q t rest ->
    style_rewritten base rest out ->
    style_rewritten base s (reference_image base q t ++ out)
| sr_other (c : ascii) (s out : string) :
    (forall q t rest, ~ reference_at (String c s) q t rest) ->
    style_rewritten base s out ->
    style_rewritten base (String c s) (String c out).

(** The same for a whole attribute value, present or not. *)
Definition style_attribute_rewritten (base : string)
           (old new : option string) : Prop :=
  match old, new with
  | Some o, Some n => style_rewritten base o n
  | None, None => True
  | _, _ => False
  end.

(** The new value of a [srcset], in the words of the amended claim C6:
    an empty value stays; any other value is split at its commas, each
    piece is trimmed and replaced by its image, and the images are joined
    by a comma and a space. *)
Definition srcset_new_value (base srcset : string) : string :=
  if String.eqb srcset "" then srcset
  else Str.join ", "
         (List.map (fun piece => candidate_image base (Str.trim piece))
                   (Str.split "," srcset)).

(** The [Content-Type] the asset relay leaves on the response, in the
    words of the amended claim C4: none when the upstream value is absent
    or empty, else what Express makes of the upstream value. *)
Definition forwarded_content_type (r : upstream) : list (string * string) :=
  match up_content_type r with
  | Some ct =>
      if String.eqb ct "" then []
      else [("Content-Type", express_content_type ct)]
  | None => []
  end.

(** The [href] found for the favicon, if any: the first non-empty one
    among the first [link] of each of the three kinds. *)
Definition discovered_favicon (d : Dom.document) : option string :=
  first_truthy (favicon_candidates d).

(** The same in the words of the amended claim C10.  A [link] element
    is of a kind when its [rel], in any letter case, is that word. *)
Definition rel_is (word : string) : Dom.selector :=
  fun tag a =>
    String.eqb tag "link" &&
    match Dom.attr "rel" a with
    | Some v => String.eqb (Str.toLowerCase v) word
    | None => false
    end.

(** The [href], if any, of the first [link] of a kind in the document. *)
Definition first_link_href (word : string) (d : Dom.document)
  : option string :=
  match Dom.select (rel_is word) d with
  | n :: _ => Dom.node_attr "href" n
  | [] => None
  end.

Definition present {A} (l : list (option A)) : list A :=
  List.flat_map (fun o => match o with Some x => [x] | None => [] end) l.

(** The first non-empty one among the [href] of the first [icon] link, of
    the first [shortcut icon] link and of the first [apple-touch-icon]
    link. *)
Definition favicon_href (d : Dom.document) : option string :=
  List.find (fun h => negb (String.eqb h ""))
            (present [first_link_href "icon" d;
                      first_link_href "shortcut icon" d;
                      first_link_href "apple-touch-icon" d]).

(** A text as [encodeURIComponent] produces it: unreserved characters and
    escapes [%XX] with two upper-case hexadecimal digits. *)
Definition upper_hex (c : ascii) : bool :=
  Chr.is_digit c || Chr.between 65 70 c.

Fixpoint component_encoded (s : string) : bool :=
  match s with
  | EmptyString => true
  | String c r =>
      if Ascii.eqb c "%" then
        match r with
        | String h (String l r') =>
            upper_hex h && upper_hex l && component_encoded r'
        | _ => false
        end
      else uri_unreserved c && component_encoded r
  end.

(** A reference to the navigate endpoint, to the asset endpoint, to one of
    the two: the path and the [url] parameter, percent-encoded. *)
Definition navigate_ref (v : string) : bool :=
  match Str.strip_prefix "/proxy?url=" v with
  | Some e => component_encoded e
  | None => false
  end.

Definition asset_reference (v : string) : bool :=
  match Str.strip_prefix "/asset?url=" v with
  | Some e => component_encoded e
  | None => false
  end.

Definition endpoint_ref (v : string) : bool :=
  navigate_ref v || asset_reference v.

(** An attribute of a document: tag, attribute name, value. *)
Definition attr_tag (x : string * string * string) : string := fst (fst x).
Definition attr_name (x : string * string * string) : string := snd (fst x).
Definition attr_value (x : string * string * string) : string := snd x.

(** What the rules write in place of the value [old] of the attribute
    [name] on an element [tag], in the words of the amended claim C1. *)
Definition written (base tag name old new : string) : Prop :=
  (tag = "a" /\ name = "href"
   /\ old <> ""
   /\ Str.startsWith "#" old = false
   /\ Str.startsWith "javascript:" old = false
   /\ exists abs, absoluteUrl base old = Some abs
                  /\ new = "/proxy?url=" ++ encodeURIComponent abs)
  \/ ((tag = "img" \/ tag = "script") /\ name = "src"
      /\ exists abs, absoluteUrl base old = Some abs
                     /\ new = "/asset?url=" ++ encodeURIComponent abs)
  \/ (tag = "link" /\ name = "href"
      /\ exists abs, absoluteUrl base old = Some abs
                     /\ (new = "/asset?url=" ++ encodeURIComponent abs
                         \/ new = "/proxy?url=" ++ encodeURIComponent abs))
  \/ (name = "style" /\ style_rewritten base old new)
  \/ (tag = "img" /\ name = "srcset" /\ new = srcset_new_value base old).

(** An attribute of the input and the attribute at the same place of the
    output: same tag, same name, and the value kept or written. *)
Definition attribute_rewritten (base : string)
           (x y : string * string * string) : Prop :=
  attr_tag y = attr_tag x
  /\ attr_name y = attr_name x
  /\ (attr_value y = attr_value x
      \/ written base (attr_tag x) (attr_name x) (attr_value x)
                 (attr_value y)).

End Statements.

(** ** Notions used in the proofs about the parser *)

Module Shape.
Import URL.

(** [v] has the scheme, host and port of [u]. *)
Definition same_authority (u v : t) : Prop :=
  scheme v = scheme u /\ host v = host u /\ port v = port u.

(** Every URL a state may return has the scheme of [u]. *)
Definition keeps_scheme (u : t) (r : option t) : Prop :=
  forall v, r = Some v -> scheme v = scheme u.

(** A URL whose scheme is [file]. *)
Definition is_file (r : option t) : Prop :=
  forall v, r = Some v -> scheme v = "file".

(** A character the parser neither strips nor removes. *)
Definition clean (c : ascii) : bool := negb (Chr.code c <=? 32)%N.

Definition segmented (u : t) : Prop := has_opaque_path u = false.

Definition keeps_segmented (r : option t) : Prop :=
  forall v, r = Some v -> segmented v.

Definition http_like (u : t) : Prop :=
  scheme u = "http" \/ scheme u = "https".

End Shape.

(** ** Sample upstreams and documents *)

(** An upstream that answers every call with the same response. *)
Definition steady (r : upstream) : network := fun _ _ => Resolved r.

Definition not_found_page : upstream :=
  {| up_status := 404; up_content_type := Some "text/plain";
     up_pipeable := true; up_bytes := "not found"; up_intact := true |}.

Definition png_image : upstream :=
  {| up_status := 200; up_content_type := Some "image/png";
     up_pipeable := true; up_bytes := "PNG bytes"; up_intact := true |}.

(** An upstream that rejects every call. *)
Definition unreachable : network := fun _ _ => Rejected.

Definition page_with_broken_icon : Dom.document :=
  [Dom.Element "html" []
     [Dom.Element "head" []
        [Dom.Element "link"
           [("rel", "icon"); ("href", "https://exa<mple.com/i.png")] []]]].

Definition html_page : upstream :=
  {| up_status := 200; up_content_type := Some "text/html";
     up_pipeable := true; up_bytes := "<html>"; up_intact := true |}.

Definition page_with_upper_case_icon : Dom.document :=
  [Dom.Element "html" []
     [Dom.Element "head" []
        [Dom.Element "title" [] [Dom.Text "Example"];
         Dom.Element "link"
           [("rel", "ICON"); ("href", "https://exa<mple.com/i.png")] []]]].

Definition page_with_icon_without_href : Dom.document :=
  [Dom.Element "html" []
     [Dom.Element "head" []
        [Dom.Element "link" [("rel", "icon")] [];
         Dom.Element "link"
           [("rel", "icon"); ("href", "https://exa<mple.com/i.png")] []]]].

Definition page_with_base : Dom.document :=
  [Dom.Element "html" []
     [Dom.Element "head" []
        [Dom.Element "base" [("href", "https://other.example/")] []];
      Dom.Element "body" []
        [Dom.Element "a" [("href", "/x")] []]]].

Definition page_with_apostrophe : Dom.document :=
  [Dom.Element "div" [("style", "background:url(it's.png)")] []].

Definition page_with_frame : Dom.document :=
  [Dom.Element "html" []
     [Dom.Element "body" []
        [Dom.Element "iframe" [("src", "https://other.example/frame")] []]]].

(** ** Tactics *)

Ltac all_chars c :=
  destruct c as [[] [] [] [] [] [] [] []]; vm_compute;
  try reflexivity; try discriminate; auto.

Ltac run_handler :=
  unfold run, try_catch, bind, fetch, read_all, pipe, when, res_send,
    res_json, res_body, res_set, res_status, modify, ret, throw; simpl.

(** ** Notions used in the further properties *)

Section FurtherNotions.
Context {platform : Platform}.

(** The characters a written reference is made of. *)
Definition ref_char (c : ascii) : bool :=
  Chr.is_alnum c || Chr.one_of "-_.!~*'()%/?=" c.

(** The new value of the [src] of an [img] or [script]: the asset
    reference when the value resolves, the value itself when not. *)
Definition asset_new_src (base src : string) : string :=
  match absoluteUrl base src with
  | Some abs => "/asset?url=" ++ encodeURIComponent abs
  | None => src
  end.

(** The attribute slots the six passes select. *)
Definition rewritten_slot (tag name : string) : bool :=
  (String.eqb tag "a" && String.eqb name "href")
  || (String.eqb tag "img" && String.eqb name "src")
  || (String.eqb tag "script" && String.eqb name "src")
  || (String.eqb tag "link" && String.eqb name "href")
  || String.eqb name "style"
  || (String.eqb tag "img" && String.eqb name "srcset").

(** A tree with the attribute values blanked: what is left is the nesting
    of the elements, their tags, the names and order of their attributes,
    and the text. *)
Fixpoint shape (n : Dom.node) : Dom.node :=
  match n with
  | Dom.Element name a children =>
      Dom.Element name (List.map (fun kv => (fst kv, "")) a)
                  (List.map shape children)
  | _ => n
  end.

(** The inverse of [prepend]: the first [k] children of every selected
    element are dropped. *)
Fixpoint drop_first_node (sel : Dom.selector) (k : nat) (n : Dom.node)
  : Dom.node :=
  match n with
  | Dom.Element name a children =>
      let rest := List.map (drop_first_node sel k) children in
      Dom.Element name a (if sel name a then List.skipn k rest else rest)
  | _ => n
  end.

Definition drop_first (sel : Dom.selector) (k : nat) (d : Dom.document)
  : Dom.document :=
  List.map (drop_first_node sel k) d.

(** The number of [fetch] calls a handler makes. *)
Definition fetches (m : io unit) (net : network) : nat :=
  calls (snd (m net {| calls := 0; res := fresh |})).

(** The declared content type as line 123 reads it. *)
Definition declared_type (r : upstream) : string :=
  match up_content_type r with
  | Some ct => if truthy ct then ct else ""
  | None => ""
  end.

(** A request without a usable [url]. *)
Definition url_missing (url : option string) : Prop :=
  url = None \/ url = Some "".

Definition page_without_head : Dom.document :=
  [Dom.Element "html" [] [Dom.Element "body" [] [Dom.Text "hello"]]].

(** The [content] of the first Open Graph title of a document. *)
Definition og_title (d : Dom.document) : option string :=
  Dom.first_attr (Dom.tag_attr_is "meta" "property" "og:title") "content" d.

(** The document has no element with this tag. *)
Definition lacks (tag : string) (d : Dom.document) : Prop :=
  Dom.select (Dom.tag_is tag) d = [].

Definition page_with_title : Dom.document :=
  [Dom.Element "html" []
     [Dom.Element "head" []
        [Dom.Element "title" [] [Dom.Text "Example Domain"]]]].

End FurtherNotions.

(** ** The tab manager of the client ([public/app.js])

    The tab objects live in a heap, addressed by the order of their
    creation; the array [tabs], the variable [active] and the closures of
    the pending [loadTab] calls hold references into it, so that a change
    made through one of them is seen through the others.  [renderTabs]
    only reads the state and is left out.  The identifier of a new tab
    (time and random digits in the source) comes with the event that
    creates it. *)

Module App.

Record tab : Type := {
  id : string;
  url : string;
  title : string;
  favicon : option string
}.

(** The object [fetchMeta] returns; a field that is missing, [null] or
    [undefined] is [None].  The body of an ok answer is taken to be an
    object whose [title] and [favicon], where present, are strings, as the
    metadata lookup of the server sends it. *)
Record meta : Type := {
  got_title : option string;
  got_favicon : option string
}.

Record state : Type := {
  heap : list tab;
  tabs : list nat;
  active : option nat;
  address : string;                    (* [urlInput.value] *)
  frame : option string;               (* [iframe.src], once the script set it *)
  pending : list (nat * string)        (* [loadTab] calls awaiting [fetchMeta] *)
}.

Definition initial (typed : string) : state :=
  {| heap := []; tabs := []; active := None; address := typed;
     frame := None; pending := [] |}.

(** [/^https?:\/\//i.test(url)] *)
Definition has_http_prefix (url : string) : bool :=
  Str.startsWith "http://" (Str.toLowerCase url)
  || Str.startsWith "https://" (Str.toLowerCase url).

(** Lines 296-298: the address the go button loads, if any. *)
Definition go_url (typed : string) : option string :=
  let url := Str.trim typed in
  if negb (truthy url) then None
  else Some (if negb (has_http_prefix url) then "https://" ++ url else url).

(** Lines 231-240: [fetchMeta].  [answer] is what the request to [/meta]
    gave: nothing when it threw, else the flag [resp.ok] and the decoded
    body. *)
Definition fetchMeta (answer : option (bool * meta)) (url : string) : meta :=
  match answer with
  | Some (true, data) => data
  | _ => {| got_title := Some url; got_favicon := None |}
  end.

Definition id_of (s : state) (r : nat) : string :=
  match nth_error (heap s) r with
  | Some t => id t
  | None => ""
  end.

Fixpoint set_nth (r : nat) (t : tab) (h : list tab) : list tab :=
  match h, r with
  | [], _ => []
  | _ :: rest, O => t :: rest
  | x :: rest, S r' => x :: set_nth r' t rest
  end.

(** Lines 279-284: [loadTab] up to its [await]. *)
Definition loadTab_begin (r : nat) (s : state) : state :=
  match nth_error (heap s) r with
  | Some t =>
      {| heap := heap s; tabs := tabs s; active := Some r;
         address := url t; frame := frame s;
         pending := pending s ++ [(r, url t)] |}
  | None => s
  end.

(** Lines 285-290: [loadTab] after its [await]. *)
Definition loadTab_finish (r : nat) (m : meta) (s : state) : state :=
  match nth_error (heap s) r with
  | Some t =>
      let t' :=
        {| id := id t; url := url t;
           title := if truthy_opt (got_title m)
                    then match got_title m with Some x => x | None => "" end
                    else url t;
           favicon := if truthy_opt (got_favicon m)
                      then Some ("/asset?url=" ++
                                 encodeURIComponent
                                   (match got_favicon m with
                                    | Some x => x
                                    | None => ""
                                    end))
                      else None |} in
      {| heap := set_nth r t' (heap s); tabs := tabs s; active := active s;
         address := address s;
         frame := Some ("/proxy?url=" ++ encodeURIComponent (url t));
         pending := pending s |}
  | None => s
  end.

(** Lines 223-229. *)
Definition createTab (u i : string) (s : state) : state :=
  let r := List.length (heap s) in
  loadTab_begin r
    {| heap := heap s ++ [{| id := i; url := u; title := u;
                            favicon := None |}];
       tabs := tabs s ++ [r]; active := active s; address := address s;
       frame := frame s; pending := pending s |}.

(** Lines 270-276. *)
Definition closeTab (i : string) (s : state) : state :=
  let kept := List.filter (fun r => negb (String.eqb (id_of s r) i))
                          (tabs s) in
  let active' :=
    match active s with
    | Some a => if String.eqb (id_of s a) i then List.hd_error kept
                else Some a
    | None => None
    end in
  let s' := {| heap := heap s; tabs := kept; active := active';
               address := address s; frame := frame s;
               pending := pending s |} in
  match active' with
  | Some a => loadTab_begin a s'
  | None => {| heap := heap s; tabs := kept; active := None;
               address := address s; frame := Some "";
               pending := pending s |}
  end.

(** Lines 295-303: the go button. *)
Definition go (i : string) (s : state) : state :=
  match go_url (address s) with
  | None => s
  | Some u =>
      match active s with
      | Some a =>
          match nth_error (heap s) a with
          | Some t =>
              loadTab_begin a
                {| heap := set_nth a {| id := id t; url := u;
                                        title := title t;
                                        favicon := favicon t |} (heap s);
                   tabs := tabs s; active := active s;
                   address := address s; frame := frame s;
                   pending := pending s |}
          | None => s
          end
      | None => createTab u i s
      end
  end.

(** The list without its [k]-th element. *)
Fixpoint remove_nth {A} (k : nat) (l : list A) : list A :=
  match l, k with
  | [], _ => []
  | _ :: rest, O => rest
  | x :: rest, S k' => x :: remove_nth k' rest
  end.

Inductive event : Type :=
| NewTab (i : string)             (* the new-tab button, Ctrl+T *)
| Type_ (text : string)           (* the user edits the address field *)
| Go (i : string)                 (* the go button *)
| Close (i : string)              (* a close button, Ctrl+W *)
| Select (r : nat)                (* a click on a listed tab *)
| MetaArrived (k : nat) (answer : option (bool * meta)).
                                  (* the [k]-th pending [fetchMeta] settles *)

Definition step (s : state) (e : event) : state :=
  match e with
  | NewTab i => createTab "https://example.com" i s
  | Type_ text =>
      {| heap := heap s; tabs := tabs s; active := active s;
         address := text; frame := frame s; pending := pending s |}
  | Go i => go i s
  | Close i => closeTab i s
  | Select r => if List.existsb (Nat.eqb r) (tabs s)
                then loadTab_begin r s else s
  | MetaArrived k answer =>
      match nth_error (pending s) k with
      | Some (r, u) =>
          loadTab_finish r (fetchMeta answer u)
            {| heap := heap s; tabs := tabs s; active := active s;
               address := address s; frame := frame s;
               pending := remove_nth k (pending s) |}
      | None => s
      end
  end.

(** Line 318 and the events after it: the script creates a first tab
    when it is loaded.  [typed] is what the address field holds then and
    [i] the id drawn for the first tab. *)
Definition loaded (typed i : string) : state :=
  createTab "https://example.com" i (initial typed).

Definition run (typed i : string) (events : list event) : state :=
  List.fold_left step events (loaded typed i).

(** What holds of every tab object. *)
Definition tab_ok (t : tab) : Prop :=
  url t <> "" /\ has_http_prefix (url t) = true /\ title t <> ""
  /\ (favicon t = None
      \/ exists f, favicon t = Some f /\ asset_reference f = true).

(** What holds of every state. *)
Definition state_ok (s : state) : Prop :=
  Forall tab_ok (heap s)
  /\ Forall (fun r => r < List.length (heap s)) (tabs s)
  /\ Forall (fun p => fst p < List.length (heap s)) (pending s)
  /\ (forall a, active s = Some a -> In a (tabs s))
  /\ (active s = None -> tabs s = [])
  /\ (frame s = None \/ frame s = Some ""
      \/ exists f, frame s = Some f /\ navigate_ref f = true).

End App.

(** ** The platform of the examples *)

(** The platform of the examples: one without the Unicode step, and with
    the older path percent-encode set.  No example has a host name that
    needs that step or a [^] in a path, so each of them evaluates to the
    same value on every platform. *)
Definition example_platform : Platform :=
  {| domain_to_ascii := fun _ => None; caret_in_path_set := false |}.

#[global] Existing Instance example_platform.

(* ================================================================== *)
(** * Part II: properties *)
(* ================================================================== *)

(** ** Strings *)

Lemma append_nil_r (s : string) : s ++ "" = s.
Proof. induction s as [|c s IH]; simpl; [reflexivity | now rewrite IH]. Qed.

Lemma append_assoc (a b c : string) : (a ++ b) ++ c = a ++ b ++ c.
Proof. induction a as [|x a IH]; simpl; [reflexivity | now rewrite IH]. Qed.

Lemma length_append (a b : string) :
  String.length (a ++ b) = String.length a + String.length b.
Proof. induction a as [|x a IH]; simpl; [reflexivity | now rewrite IH]. Qed.

Lemma strip_prefix_spec (p s rest : string) :
  Str.strip_prefix p s = Some rest -> s = p ++ rest.
Proof.
  revert s; induction p as [|a p IH]; intros s H; simpl in *.
  - now inversion H.
  - destruct s as [|b s]; [discriminate|].
    destruct (Ascii.eqb a b) eqn:E; [|discriminate].
    apply Ascii.eqb_eq in E; subst b. now rewrite (IH _ H).
Qed.

Lemma strip_prefix_append (p rest : string) :
  Str.strip_prefix p (p ++ rest) = Some rest.
Proof.
  induction p as [|a p IH]; simpl; [reflexivity|].
  now rewrite Ascii.eqb_refl.
Qed.

Lemma forallb_append (p : ascii -> bool) (a b : string) :
  Str.forallb p (a ++ b) = Str.forallb p a && Str.forallb p b.
Proof.
  induction a as [|x a IH]; simpl; [reflexivity|].
  now rewrite IH, andb_assoc.
Qed.

(** ** Characters, by enumeration *)

Lemma lower_alpha_is_lower (c : ascii) :
  Chr.is_alpha c = true -> Chr.is_lower (Chr.lower c) = true.
Proof. all_chars c. Qed.

Lemma lower_scheme_char (c : ascii) :
  Chr.is_alnum c || Chr.one_of "+-." c = true ->
  scheme_char (Chr.lower c) = true.
Proof. all_chars c. Qed.

(** ** The parser keeps what the later states do not touch *)

Module URLFacts.
Import URL Shape.

Section Facts.
Context {platform : Platform}.

Lemma same_authority_refl u : same_authority u u.
Proof. now repeat split. Qed.

Lemma same_authority_trans u v w :
  same_authority u v -> same_authority v w -> same_authority u w.
Proof.
  intros (a & b & c) (d & e & f); repeat split; congruence.
Qed.

Lemma fragment_state_authority u s : same_authority u (fragment_state u s).
Proof. now repeat split. Qed.

Lemma query_state_authority u s : same_authority u (query_state u s).
Proof.
  unfold query_state. destruct (span_until _ s) as [q rest].
  destruct rest; now repeat split.
Qed.

Lemma shorten_path_authority u : same_authority u (shorten_path u).
Proof.
  unfold shorten_path. destruct (path u) as [|l]; [apply same_authority_refl|].
  destruct l as [|x [|y l]]; try now repeat split.
  destruct (_ && _); now repeat split.
Qed.

Lemma push_segment_authority u b slash :
  same_authority u (push_segment u b slash).
Proof.
  unfold push_segment.
  destruct (is_double_dot b).
  - destruct slash; [apply shorten_path_authority|].
    eapply same_authority_trans; [apply shorten_path_authority|].
    now repeat split.
  - destruct (is_single_dot b); [destruct slash|]; now repeat split.
Qed.

Lemma is_special_authority u v :
  same_authority u v -> is_special v = is_special u.
Proof. intros (a & _); unfold is_special; now rewrite a. Qed.

Lemma path_state_authority s : forall u b,
  same_authority u (path_state u b s).
Proof.
  induction s as [|c s IH]; intros u b; simpl.
  - apply push_segment_authority.
  - destruct (is_slash (is_special u) c).
    + eapply same_authority_trans; [apply push_segment_authority|apply IH].
    + destruct (Ascii.eqb c "?").
      * eapply same_authority_trans; [apply push_segment_authority|].
        eapply same_authority_trans; [|apply query_state_authority].
        now repeat split.
      * destruct (Ascii.eqb c "#"); [|apply IH].
        eapply same_authority_trans; [apply push_segment_authority|].
        apply fragment_state_authority.
Qed.

Lemma path_start_state_authority u s :
  same_authority u (path_start_state u s).
Proof.
  unfold path_start_state. destruct s as [|c s].
  - destruct (is_special u);
      [apply path_state_authority | apply same_authority_refl].
  - destruct (is_special u).
    + destruct (is_slash true c); apply path_state_authority.
    + destruct (Ascii.eqb c "?").
      * eapply same_authority_trans; [|apply query_state_authority].
        now repeat split.
      * destruct (Ascii.eqb c "#"); [apply fragment_state_authority|].
        destruct (Ascii.eqb c "/"); apply path_state_authority.
Qed.

Lemma keeps_scheme_none u : keeps_scheme u None.
Proof. intros v H; discriminate. Qed.

Lemma keeps_scheme_some u v :
  scheme v = scheme u -> keeps_scheme u (Some v).
Proof. intros H w E; inversion E; now subst. Qed.

Lemma keeps_scheme_step u u' r :
  scheme u' = scheme u -> keeps_scheme u' r -> keeps_scheme u r.
Proof. intros H K v E. rewrite <- H. now apply K. Qed.

Lemma path_state_scheme u b s : scheme (path_state u b s) = scheme u.
Proof. apply path_state_authority. Qed.

Lemma path_start_state_scheme u s :
  scheme (path_start_state u s) = scheme u.
Proof. apply path_start_state_authority. Qed.

Lemma query_state_scheme u s : scheme (query_state u s) = scheme u.
Proof. apply query_state_authority. Qed.

Lemma opaque_path_state_scheme u s :
  scheme (opaque_path_state u s) = scheme u.
Proof.
  unfold opaque_path_state. destruct (span_until _ s) as [p rest].
  destruct rest as [|c rest]; [reflexivity|].
  destruct (Ascii.eqb c "?"); [now rewrite query_state_scheme|reflexivity].
Qed.

Lemma port_state_scheme u s : keeps_scheme u (port_state u s).
Proof.
  unfold port_state. destruct (span_until _ s) as [buffer rest].
  destruct (at_authority_end _ rest); [|apply keeps_scheme_none].
  destruct buffer.
  - apply keeps_scheme_some, path_start_state_scheme.
  - destruct (_ <? _)%N; [apply keeps_scheme_none|].
    apply keeps_scheme_some. now rewrite path_start_state_scheme.
Qed.

Lemma host_state_scheme u s : keeps_scheme u (host_state u s).
Proof.
  unfold host_state.
  destruct (host_scan _ _ s) as [buffer [rest|rest]].
  - destruct (String.eqb buffer ""); [apply keeps_scheme_none|].
    destruct (host_parse _ _); [|apply keeps_scheme_none].
    eapply keeps_scheme_step; [|apply port_state_scheme]. reflexivity.
  - destruct (_ && _); [apply keeps_scheme_none|].
    destruct (host_parse _ _); [|apply keeps_scheme_none].
    apply keeps_scheme_some. now rewrite path_start_state_scheme.
Qed.

Lemma authority_state_scheme u s : keeps_scheme u (authority_state u s).
Proof.
  unfold authority_state. destruct (span_until _ s) as [authority rest].
  destruct (split_last_at authority) as [[credentials hostport]|];
    [|apply host_state_scheme].
  destruct (String.eqb hostport ""); [apply keeps_scheme_none|].
  destruct (span_until _ credentials) as [user after].
  eapply keeps_scheme_step; [|apply host_state_scheme]. reflexivity.
Qed.

Lemma ignore_slashes_scheme s : forall u,
  keeps_scheme u (special_authority_ignore_slashes_state u s).
Proof.
  induction s as [|c s IH]; intros u; simpl.
  - apply authority_state_scheme.
  - destruct (is_slash true c); [apply IH | apply authority_state_scheme].
Qed.

Lemma special_authority_slashes_scheme u s :
  keeps_scheme u (special_authority_slashes_state u s).
Proof.
  unfold special_authority_slashes_state.
  destruct s as [|c s]; [apply ignore_slashes_scheme|].
  destruct c as [[] [] [] [] [] [] [] []]; try apply ignore_slashes_scheme.
  destruct s as [|d s]; [apply ignore_slashes_scheme|].
  destruct d as [[] [] [] [] [] [] [] []]; apply ignore_slashes_scheme.
Qed.

Lemma path_or_authority_scheme u s :
  keeps_scheme u (path_or_authority_state u s).
Proof.
  unfold path_or_authority_state.
  destruct s as [|c s]; [apply keeps_scheme_some, path_state_scheme|].
  destruct c as [[] [] [] [] [] [] [] []];
    try (apply keeps_scheme_some, path_state_scheme).
  apply authority_state_scheme.
Qed.

Lemma relative_slash_scheme u base s :
  keeps_scheme u (relative_slash_state u base s).
Proof.
  unfold relative_slash_state. destruct s as [|c s].
  - apply keeps_scheme_some. now rewrite path_state_scheme.
  - destruct (_ && _); [apply ignore_slashes_scheme|].
    destruct (Ascii.eqb c "/"); [apply authority_state_scheme|].
    apply keeps_scheme_some. now rewrite path_state_scheme.
Qed.

Lemma shorten_path_scheme u : scheme (shorten_path u) = scheme u.
Proof. apply shorten_path_authority. Qed.

Lemma relative_state_scheme u base s :
  keeps_scheme base (relative_state u base s).
Proof.
  unfold relative_state. destruct s as [|c s].
  - now apply keeps_scheme_some.
  - destruct (is_slash _ c).
    + eapply keeps_scheme_step; [|apply relative_slash_scheme]. reflexivity.
    + destruct (Ascii.eqb c "?").
      * apply keeps_scheme_some. now rewrite query_state_scheme.
      * destruct (Ascii.eqb c "#"); apply keeps_scheme_some;
          [reflexivity|].
        now rewrite path_state_scheme, shorten_path_scheme.
Qed.

Lemma special_relative_or_authority_scheme u base s :
  scheme u = scheme base ->
  keeps_scheme base (special_relative_or_authority_state u base s).
Proof.
  intros E. unfold special_relative_or_authority_state.
  assert (K : keeps_scheme base (special_authority_ignore_slashes_state
                                   u (Str.drop 2 s))).
  { eapply keeps_scheme_step; [|apply ignore_slashes_scheme]. exact E. }
  destruct s as [|c s]; [apply relative_state_scheme|].
  destruct c as [[] [] [] [] [] [] [] []]; try apply relative_state_scheme.
  destruct s as [|d s]; [apply relative_state_scheme|].
  destruct d as [[] [] [] [] [] [] [] []]; try apply relative_state_scheme.
  exact K.
Qed.

Lemma is_file_some v : scheme v = "file" -> is_file (Some v).
Proof. intros H w E; inversion E; now subst. Qed.

Lemma is_file_keeps u r :
  scheme u = "file" -> keeps_scheme u r -> is_file r.
Proof. intros H K v E. rewrite <- H. now apply K. Qed.

Lemma file_host_state_scheme u s : keeps_scheme u (file_host_state u s).
Proof.
  unfold file_host_state. destruct (span_until _ s) as [buffer rest].
  destruct (is_windows_drive_letter buffer);
    [apply keeps_scheme_some, path_state_scheme|].
  destruct (String.eqb buffer "").
  - apply keeps_scheme_some. now rewrite path_start_state_scheme.
  - destruct (host_parse _ _); [|apply keeps_scheme_none].
    apply keeps_scheme_some. now rewrite path_start_state_scheme.
Qed.

Lemma append_segment_scheme u seg : scheme (append_segment u seg) = scheme u.
Proof. reflexivity. Qed.

Lemma file_slash_state_scheme u base s :
  keeps_scheme u (file_slash_state u base s).
Proof.
  unfold file_slash_state. destruct s as [|c s].
  - apply keeps_scheme_some. rewrite path_state_scheme.
    destruct (file_base base) as [b|]; [|reflexivity].
    destruct (segments b) as [|first l]; [reflexivity|].
    destruct (is_normalized_windows_drive_letter first); reflexivity.
  - destruct (is_slash true c); [apply file_host_state_scheme|].
    apply keeps_scheme_some. rewrite path_state_scheme.
    destruct (file_base base) as [b|]; [|reflexivity].
    destruct (segments b) as [|first l]; [reflexivity|].
    destruct (_ && _); reflexivity.
Qed.

Lemma file_state_scheme u base s : is_file (file_state u base s).
Proof.
  unfold file_state. destruct s as [|c s].
  - destruct (file_base base);
      apply is_file_some; [reflexivity | now rewrite path_state_scheme].
  - destruct (is_slash true c).
    + eapply is_file_keeps; [|apply file_slash_state_scheme]. reflexivity.
    + destruct (file_base base) as [b|].
      * destruct (Ascii.eqb c "?");
          [apply is_file_some; now rewrite query_state_scheme|].
        destruct (Ascii.eqb c "#"); [now apply is_file_some|].
        apply is_file_some. rewrite path_state_scheme.
        destruct (starts_with_windows_drive_letter _);
          [reflexivity | now rewrite shorten_path_scheme].
      * apply is_file_some. now rewrite path_state_scheme.
Qed.

Lemma file_base_scheme base b :
  file_base base = Some b -> base = Some b /\ scheme b = "file".
Proof.
  unfold file_base. destruct base as [b'|]; [|discriminate].
  destruct (String.eqb (scheme b') "file") eqn:E; [|discriminate].
  intros H; inversion H; subst. apply String.eqb_eq in E. now split.
Qed.

Lemma scheme_rest_chars s : forall sch rest,
  scheme_rest s = Some (sch, rest) -> Str.forallb scheme_char sch = true.
Proof.
  induction s as [|c s IH]; intros sch rest H; cbn [scheme_rest] in H;
    [discriminate|].
  destruct (Ascii.eqb c ":"); [inversion H; reflexivity|].
  destruct (Chr.is_alnum c || Chr.one_of "+-." c) eqn:E; [|discriminate].
  destruct (scheme_rest s) as [[a b]|]; [|discriminate].
  inversion H; subst; cbn [Str.forallb].
  rewrite (lower_scheme_char _ E). now apply (IH a rest).
Qed.

Lemma alpha_not_colon c : Chr.is_alpha c = true -> Ascii.eqb c ":" = false.
Proof. all_chars c. Qed.

Lemma split_scheme_valid s sch rest :
  split_scheme s = Some (sch, rest) -> valid_scheme sch = true.
Proof.
  unfold split_scheme. destruct s as [|c s]; [discriminate|].
  destruct (Chr.is_alpha c) eqn:A; [|discriminate].
  intros H. pose proof (scheme_rest_chars _ _ _ H) as F.
  cbn [scheme_rest] in H. rewrite (alpha_not_colon _ A) in H.
  destruct (Chr.is_alnum c || Chr.one_of "+-." c); [|discriminate].
  destruct (scheme_rest s) as [[a b]|]; [|discriminate].
  inversion H; subst; cbn [Str.forallb valid_scheme] in *.
  rewrite (lower_alpha_is_lower _ A). cbn [andb].
  apply andb_true_iff in F. apply F.
Qed.

(** The scheme of a parsed URL is valid, given that the base's is. *)
Lemma basic_parse_scheme input base u :
  (forall b, base = Some b -> valid_scheme (scheme b) = true) ->
  basic_parse input base = Some u ->
  valid_scheme (scheme u) = true.
Proof.
  intros B. unfold basic_parse.
  set (s := Str.filter _ _). clearbody s.
  destruct (split_scheme s) as [[sch rest]|] eqn:S.
  - pose proof (split_scheme_valid _ _ _ S) as V.
    destruct (String.eqb sch "file") eqn:F.
    { intros H. now rewrite (file_state_scheme _ _ _ _ H). }
    assert (K : forall r, keeps_scheme (with_scheme blank sch) r ->
                          r = Some u -> valid_scheme (scheme u) = true).
    { intros r K H. now rewrite (K _ H). }
    destruct (is_special_scheme sch).
    + destruct base as [b|];
        [|apply K, special_authority_slashes_scheme].
      destruct (String.eqb (scheme b) sch) eqn:E;
        [|apply K, special_authority_slashes_scheme].
      apply String.eqb_eq in E. intros H.
      rewrite (special_relative_or_authority_scheme
                 (with_scheme blank sch) b rest (eq_sym E) _ H).
      now apply B.
    + assert (O : forall r,
                 Some (opaque_path_state
                         (with_path (with_scheme blank sch) (OpaquePath ""))
                         r) = Some u ->
                 valid_scheme (scheme u) = true).
      { intros r H; inversion H; subst.
        now rewrite opaque_path_state_scheme. }
      destruct rest as [|c rest]; [apply O|].
      destruct c as [[] [] [] [] [] [] [] []]; try apply O.
      apply K, path_or_authority_scheme.
  - unfold no_scheme_state. destruct base as [b|]; [|discriminate].
    specialize (B b eq_refl).
    destruct (has_opaque_path b).
    + destruct s as [|c s]; [discriminate|].
      destruct c as [[] [] [] [] [] [] [] []]; try discriminate.
      intros H; inversion H; subst. exact B.
    + destruct (String.eqb (scheme b) "file").
      * intros H. now rewrite (file_state_scheme _ _ _ _ H).
      * intros H. now rewrite (relative_state_scheme _ _ _ _ H).
Qed.

Lemma new_scheme input base u :
  new input base = Some u -> valid_scheme (scheme u) = true.
Proof.
  unfold new. destruct base as [b|].
  - destruct (basic_parse b None) as [pb|] eqn:P; [|discriminate].
    apply basic_parse_scheme. intros b' E; inversion E; subst.
    apply (basic_parse_scheme b None); [discriminate | exact P].
  - apply basic_parse_scheme. discriminate.
Qed.

End Facts.

End URLFacts.

(** ** [absoluteUrl] *)

Section AbsoluteUrl.
Context {platform : Platform}.

Lemma serialize_starts_with_scheme (u : URL.t) :
  exists rest, URL.serialize u = URL.scheme u ++ ":" ++ rest.
Proof. unfold URL.serialize. eexists. reflexivity. Qed.

(** Whatever [absoluteUrl] returns starts with a scheme and a colon. *)
Lemma absoluteUrl_absolute (base ref abs : string) :
  absoluteUrl base ref = Some abs -> absolute_url_string abs.
Proof.
  unfold absoluteUrl. destruct (URL.new ref (Some base)) as [u|] eqn:E;
    [|discriminate].
  intros H; inversion H; subst.
  destruct (serialize_starts_with_scheme u) as [rest R].
  exists (URL.scheme u), rest. split; [exact R|].
  apply (URLFacts.new_scheme _ _ _ E).
Qed.

Lemma absolute_url_string_truthy (abs : string) :
  absolute_url_string abs -> truthy abs = true.
Proof.
  intros (sch & rest & E & V). subst.
  destruct sch; [discriminate | reflexivity].
Qed.

(** The test [if (abs)] after [absoluteUrl] never rejects a result. *)
Lemma resolved_is_absoluteUrl (base ref : string) :
  resolved base ref = absoluteUrl base ref.
Proof.
  unfold resolved. destruct (absoluteUrl base ref) as [abs|] eqn:E;
    [|reflexivity].
  now rewrite (absolute_url_string_truthy _ (absoluteUrl_absolute _ _ _ E)).
Qed.

End AbsoluteUrl.

(** ** Attributes and selections *)

Module DomFacts.
Import Dom.

(** Induction on a tree, with the property known of all children. *)
Lemma node_induction (P : node -> Prop) :
  (forall name a children,
      Forall P children -> P (Element name a children)) ->
  (forall data, P (Text data)) ->
  (forall data, P (Other data)) ->
  forall n, P n.
Proof.
  intros HE HT HO. fix IH 1. intros [name a children|data|data].
  - apply HE. induction children as [|c r IHr]; constructor.
    + apply IH.
    + exact IHr.
  - apply HT.
  - apply HO.
Qed.

Lemma attr_set_same name v a : attr name (set_attr name v a) = Some v.
Proof.
  induction a as [|[k w] a IH]; simpl.
  - now rewrite String.eqb_refl.
  - destruct (String.eqb k name) eqn:E; simpl; now rewrite E.
Qed.

Lemma attr_set_other name name' v a :
  name <> name' -> attr name' (set_attr name v a) = attr name' a.
Proof.
  intros N. apply String.eqb_neq in N.
  induction a as [|[k w] a IH]; simpl.
  - now rewrite N.
  - destruct (String.eqb k name) eqn:E; simpl.
    + apply String.eqb_eq in E; subst k. now rewrite N.
    + now rewrite IH.
Qed.

Lemma flat_map_map {A B C} (f : B -> list C) (g : A -> B) (l : list A) :
  flat_map f (List.map g l) = flat_map (fun x => f (g x)) l.
Proof. induction l as [|x l IH]; simpl; [reflexivity | now rewrite IH]. Qed.

Lemma map_flat_map {A B C} (f : B -> C) (g : A -> list B) (l : list A) :
  List.map f (flat_map g l) = flat_map (fun x => List.map f (g x)) l.
Proof.
  induction l as [|x l IH]; simpl; [reflexivity|].
  now rewrite List.map_app, IH.
Qed.

Lemma flat_map_ext_Forall {A B} (P : A -> Prop) (f g : A -> list B) l :
  Forall P l -> (forall x, P x -> f x = g x) -> flat_map f l = flat_map g l.
Proof.
  intros F H. induction F as [|x l Px F IH]; simpl; [reflexivity|].
  now rewrite (H _ Px), IH.
Qed.

(** What a pass [each sel f] does to the values of the attribute [name0]
    on the elements that [sel0] selects: when the pass keeps the
    selection and maps the value by [g], the list of values is mapped by
    [g]. *)
Lemma values_after_each (sel0 sel : selector) (name0 : string)
      (f : attribs -> attribs) (g : string -> string) :
  (forall name a,
      sel0 name (if sel name a then f a else a) = sel0 name a) ->
  (forall name a,
      sel0 name a = true ->
      attr name0 (if sel name a then f a else a)
      = option_map g (attr name0 a)) ->
  forall d,
    List.map (node_attr name0) (select sel0 (each sel f d))
    = List.map (fun n => option_map g (node_attr name0 n)) (select sel0 d).
Proof.
  intros Hsel Hval.
  assert (N : forall n,
             List.map (node_attr name0)
                      (select_node sel0 (each_node sel f n))
             = List.map (fun n => option_map g (node_attr name0 n))
                        (select_node sel0 n)).
  { apply (node_induction
             (fun n =>
                List.map (node_attr name0)
                         (select_node sel0 (each_node sel f n))
                = List.map (fun n => option_map g (node_attr name0 n))
                           (select_node sel0 n))); try reflexivity.
    intros name a children F. cbn [each_node select_node].
    rewrite !List.map_app, Hsel. f_equal.
    - destruct (sel0 name a) eqn:S; [|reflexivity].
      cbn. now rewrite Hval.
    - rewrite flat_map_map, !map_flat_map.
      eapply flat_map_ext_Forall; [exact F|]. auto. }
  intros d. unfold select, each.
  rewrite flat_map_map, !map_flat_map.
  apply flat_map_ext. intros n. apply N.
Qed.

Lemma attr_update_same name rule a :
  attr name (update_attr name rule a)
  = option_map (apply_rule rule) (attr name a).
Proof.
  unfold update_attr, apply_rule.
  destruct (attr name a) as [v|] eqn:E; [|now rewrite E]. simpl.
  destruct (rule v) eqn:R; [apply attr_set_same | exact E].
Qed.

Lemma attr_update_other name name' rule a :
  name <> name' -> attr name' (update_attr name rule a) = attr name' a.
Proof.
  intros N. unfold update_attr.
  destruct (attr name a) as [v|]; [|reflexivity].
  destruct (rule v); [now apply attr_set_other | reflexivity].
Qed.

Lemma has_attr_update name name' rule a :
  has_attr name' (update_attr name rule a) = has_attr name' a.
Proof.
  unfold has_attr. destruct (String.eqb name name') eqn:E.
  - apply String.eqb_eq in E; subst name'. rewrite attr_update_same.
    now destruct (attr name a).
  - apply String.eqb_neq in E. now rewrite attr_update_other.
Qed.

Lemma option_map_id {A} (o : option A) : option_map (fun x => x) o = o.
Proof. now destruct o. Qed.

Lemma map_option_map_id {A} (l : list (option A)) :
  List.map (option_map (fun x => x)) l = l.
Proof.
  induction l as [|o l IH]; simpl; [reflexivity|].
  now rewrite IH, option_map_id.
Qed.

(** A pass that rewrites the slot [tag[name]] maps its values by the
    rule.  The rule may look at the other attributes of the element. *)
Lemma slot_after_own_pass tag name
      (rule : attribs -> string -> option string) (g : string -> string) :
  (forall a v, attr name a = Some v -> apply_rule (rule a) v = g v) ->
  forall d,
    slot_values tag name
      (each (tag_with tag name) (fun a => update_attr name (rule a) a) d)
    = List.map (option_map g) (slot_values tag name d).
Proof.
  intros G d. unfold slot_values. rewrite List.map_map.
  apply values_after_each.
  - intros n a. destruct (tag_with tag name n a) eqn:S; [|exact S].
    unfold tag_with in *. now rewrite has_attr_update.
  - intros n a S. rewrite S, attr_update_same.
    destruct (attr name a) as [v|] eqn:E; [|reflexivity].
    simpl. now rewrite (G a v E).
Qed.

(** A pass on another attribute, or on another tag, leaves the slot. *)
Lemma slot_after_other_pass tag name (sel : selector) name'
      (rule : attribs -> string -> option string) :
  (name' <> name \/ forall a, sel tag a = false) ->
  forall d,
    slot_values tag name
      (each sel (fun a => update_attr name' (rule a) a) d)
    = slot_values tag name d.
Proof.
  intros D d. unfold slot_values.
  rewrite <- (map_option_map_id (List.map _ (select _ d))).
  rewrite List.map_map. apply values_after_each.
  - intros n a. destruct (sel n a); [|reflexivity].
    unfold tag_with. now rewrite has_attr_update.
  - intros n a S. rewrite option_map_id.
    destruct (sel n a) eqn:E; [|reflexivity].
    destruct D as [N|N].
    + now apply attr_update_other.
    + unfold tag_with in S. apply andb_true_iff in S. destruct S as [T _].
      apply String.eqb_eq in T; subst n. now rewrite N in E.
Qed.

End DomFacts.

(** ** The anchor rule *)

Section AnchorRule.
Context {platform : Platform}.

Lemma anchor_rule_value (base href : string) :
  apply_rule (anchor_href base) href = anchor_new_href base href.
Proof.
  unfold apply_rule, anchor_href, anchor_new_href, truthy.
  rewrite resolved_is_absoluteUrl.
  destruct (String.eqb href ""); [reflexivity|]. cbn [negb].
  destruct (Str.startsWith "#" href); [reflexivity|]. cbn [orb].
  destruct (Str.startsWith "javascript:" href); [reflexivity|].
  now destruct (absoluteUrl base href).
Qed.

Lemma anchors_after_rules (base : string) (d : Dom.document) :
  anchor_hrefs (rewrite_rules base d)
  = List.map (option_map (anchor_new_href base)) (anchor_hrefs d).
Proof.
  unfold anchor_hrefs, rewrite_rules, rewrite_srcsets, rewrite_styles,
    rewrite_links, rewrite_scripts, rewrite_images, rewrite_anchors.
  rewrite (DomFacts.slot_after_other_pass "a" "href" _ "srcset"
             (fun _ => srcset_value base));
    [|left; discriminate].
  rewrite (DomFacts.slot_after_other_pass "a" "href" _ "style"
             (fun _ => style_value base));
    [|left; discriminate].
  rewrite (DomFacts.slot_after_other_pass "a" "href" _ "href"
             (fun a => link_href base (Dom.attr "rel" a)));
    [|right; reflexivity].
  rewrite (DomFacts.slot_after_other_pass "a" "href" _ "src"
             (fun _ => asset_src base));
    [|left; discriminate].
  rewrite (DomFacts.slot_after_other_pass "a" "href" _ "src"
             (fun _ => asset_src base));
    [|left; discriminate].
  apply (DomFacts.slot_after_own_pass "a" "href"
           (fun _ => anchor_href base)).
  intros a v _. apply anchor_rule_value.
Qed.

(** C3, amended.  In every document, the [href] values of the anchors
    after rewriting are those before, each mapped as follows: an empty
    value and a value that starts with [#] or [javascript:] stays; any other
    value is resolved against the base and, if that succeeds, becomes
    [/proxy?url=] followed by the percent-encoded absolute URL; if it
    fails, the value stays.  For [<a href="/about">] at base
    [https://example.com/] the new value encodes
    [https://example.com/about]. *)
Theorem anchor_href_rewritten (base : string) (d : Dom.document) :
  anchor_hrefs (rewrite_rules base d)
  = List.map (option_map (anchor_new_href base)) (anchor_hrefs d)
  /\ rewrite_rules "https://example.com/"
       [Dom.Element "a" [("href", "/about")] []]
     = [Dom.Element "a"
          [("href", "/proxy?url=https%3A%2F%2Fexample.com%2Fabout")] []].
Proof.
  split; [apply anchors_after_rules | vm_compute; reflexivity].
Qed.

End AnchorRule.

(** C3 as stated fails for the empty [href]: it starts neither with [#]
    nor with [javascript:], it resolves (to the base), and yet the anchor
    keeps it. *)
Lemma anchor_empty_href_kept :
  Str.startsWith "#" "" = false
  /\ Str.startsWith "javascript:" "" = false
  /\ absoluteUrl "https://example.com/" "" = Some "https://example.com/"
  /\ rewrite_rules "https://example.com/" [Dom.Element "a" [("href", "")] []]
     = [Dom.Element "a" [("href", "")] []].
Proof. vm_compute. repeat split. Qed.

(** ** The link rule *)

Section LinkRule.
Context {platform : Platform}.

Lemma link_rule_value (base : string) (rel : option string)
      (href abs : string) :
  absoluteUrl base href = Some abs ->
  link_href base rel href
  = Some (if String.eqb (Str.toLowerCase
                           (match rel with Some r => r | None => "" end))
                        "stylesheet"
             || css_path_test abs
          then "/asset?url=" ++ encodeURIComponent abs
          else "/proxy?url=" ++ encodeURIComponent abs).
Proof.
  intros H. unfold link_href. rewrite resolved_is_absoluteUrl, H.
  assert (E : (match rel with
               | Some r => if truthy r then r else ""
               | None => ""
               end) = match rel with Some r => r | None => "" end).
  { destruct rel as [r|]; [|reflexivity]. unfold truthy.
    destruct (String.eqb r "") eqn:Z; [|reflexivity].
    apply String.eqb_eq in Z. now subst. }
  rewrite E. now destruct (_ || _).
Qed.

(** C7.  A link whose [href] resolves goes to the asset endpoint when its
    [rel], lower-cased, is [stylesheet] or when the resolved URL, cut at
    its first [?], ends in [.css] in any letter case, and to the navigate
    endpoint otherwise.  The stylesheet example of the claim holds.  But
    the tested text still carries the fragment: a link whose resolved URL
    has a path ending in [.css] and a fragment goes to the navigate
    endpoint, where the same link with a query instead goes to the asset
    endpoint. *)
Theorem link_css_fragment_goes_to_proxy :
  (forall base rel href abs,
      absoluteUrl base href = Some abs ->
      link_href base rel href
      = Some (if String.eqb (Str.toLowerCase
                               (match rel with Some r => r | None => "" end))
                            "stylesheet"
                 || css_path_test abs
              then "/asset?url=" ++ encodeURIComponent abs
              else "/proxy?url=" ++ encodeURIComponent abs))
  /\ rewrite_rules "https://example.com/a/"
       [Dom.Element "link" [("rel", "stylesheet"); ("href", "style.css")] []]
     = [Dom.Element "link"
          [("rel", "stylesheet");
           ("href", "/asset?url=https%3A%2F%2Fexample.com%2Fa%2Fstyle.css")]
          []]
  /\ option_map (fun u => URL.path_serialize (URL.path u))
                (URL.new "style.css#v2" (Some "https://example.com/a/"))
     = Some "/a/style.css"
  /\ rewrite_rules "https://example.com/a/"
       [Dom.Element "link" [("rel", "preload"); ("href", "style.css#v2")] []]
     = [Dom.Element "link"
          [("rel", "preload");
           ("href",
            "/proxy?url=https%3A%2F%2Fexample.com%2Fa%2Fstyle.css%23v2")] []]
  /\ rewrite_rules "https://example.com/a/"
       [Dom.Element "link" [("rel", "preload"); ("href", "style.css?v=2")] []]
     = [Dom.Element "link"
          [("rel", "preload");
           ("href",
            "/asset?url=https%3A%2F%2Fexample.com%2Fa%2Fstyle.css%3Fv%3D2")] []].
Proof.
  split; [apply link_rule_value | vm_compute; repeat split].
Qed.

End LinkRule.

(** ** The style rule *)

Section StyleRule.
Context {platform : Platform}.

Lemma lazy_until_spec (close : string) : forall s inner rest,
  lazy_until close s = Some (inner, rest) -> s = inner ++ close ++ rest.
Proof.
  induction s as [|c s IH]; intros inner rest H; cbn [lazy_until] in H.
  - destruct (Str.strip_prefix close "") as [r|] eqn:E; [|discriminate].
    inversion H; subst. apply (strip_prefix_spec _ _ _ E).
  - destruct (Str.strip_prefix close (String c s)) as [r|] eqn:E.
    + inversion H; subst. apply (strip_prefix_spec _ _ _ E).
    + destruct (line_terminator_at (String c s)); [discriminate|].
      destruct (lazy_until close s) as [[i r]|] eqn:L; [|discriminate].
      inversion H; subst. simpl. now rewrite (IH _ _ eq_refl).
Qed.

Lemma is_quote_mark (c : ascii) :
  is_quote c = true -> quote_mark (Str.of_char c).
Proof.
  unfold is_quote, quote_mark. intros H. apply orb_true_iff in H.
  destruct H as [H|H]; apply Ascii.eqb_eq in H; subst; auto.
Qed.

Lemma url_match_spec (s q inner rest : string) :
  url_match s = Some (q, inner, rest) ->
  s = matched_text q inner ++ rest /\ quote_mark q.
Proof.
  unfold url_match, matched_text.
  destruct (Str.strip_prefix "url(" s) as [after|] eqn:P; [|discriminate].
  apply strip_prefix_spec in P. subst s.
  assert (U : match lazy_until ")" after with
              | Some (inner0, rest0) => Some ("", inner0, rest0)
              | None => None
              end = Some (q, inner, rest) ->
              "url(" ++ after = ("url(" ++ q ++ inner ++ q ++ ")") ++ rest
              /\ quote_mark q).
  { destruct (lazy_until ")" after) as [[i r]|] eqn:L; [|discriminate].
    intros H; inversion H; subst. apply lazy_until_spec in L. subst after.
    split; [|now left]. simpl. now rewrite append_assoc. }
  destruct after as [|c r]; [exact U|].
  destruct (is_quote c) eqn:Q; [|exact U].
  destruct (lazy_until (String c ")") r) as [[i r']|] eqn:L; [|exact U].
  intros H; inversion H; subst. apply lazy_until_spec in L. subst r.
  split; [|now apply is_quote_mark]. simpl. f_equal. f_equal. f_equal.
  f_equal. f_equal. now rewrite append_assoc.
Qed.

Lemma concat_map_ext {A} (f g : A -> string) (l : list A) :
  Forall (fun x => f x = g x) l -> concat_map f l = concat_map g l.
Proof.
  induction 1 as [|x l E F IH]; simpl; [reflexivity | now rewrite E, IH].
Qed.

Lemma style_url_image (base q inner : string) :
  style_url base (matched_text q inner) q inner = url_image base (UrlRef q inner).
Proof.
  unfold style_url, url_image, matched_text, asset_ref.
  rewrite resolved_is_absoluteUrl.
  destruct (absoluteUrl base inner); reflexivity.
Qed.

Lemma style_rule_value (base style : string) :
  apply_rule (style_value base) style
  = concat_map (url_image base) (url_pieces (String.length style) style).
Proof.
  unfold apply_rule, style_value, truthy.
  destruct (String.eqb style "") eqn:E; cbn [negb].
  - apply String.eqb_eq in E. subst. reflexivity.
  - unfold replace_urls. apply concat_map_ext.
    apply Forall_forall. intros [c|q inner] _; [reflexivity|].
    apply style_url_image.
Qed.

(** *** The regular expression finds the references, and only them *)

Lemma append_inv_head (a x y : string) : a ++ x = a ++ y -> x = y.
Proof.
  induction a as [|c a IH]; simpl; [auto|]. intros H. inversion H. auto.
Qed.

Lemma one_line_nil : one_line "".
Proof.
  intros lt I a b Z. destruct a; [|discriminate]. simpl in Z.
  unfold line_terminators in I. simpl in I.
  destruct I as [I|[I|[I|[I|[]]]]]; subst lt; discriminate.
Qed.

Lemma code_is (c : ascii) (n : N) :
  (n < 256)%N -> (Chr.code c =? n)%N = true -> c = ascii_of_N n.
Proof.
  intros _ H. apply N.eqb_eq in H. unfold Chr.code in H.
  rewrite <- H. symmetry. apply ascii_N_embedding.
Qed.

Lemma line_terminator_at_found (s : string) :
  line_terminator_at s = true ->
  exists lt x, In lt line_terminators /\ s = lt ++ x.
Proof.
  unfold line_terminator_at, line_terminators.
  destruct s as [|c r]; [discriminate|]. intros H.
  apply orb_true_iff in H. destruct H as [H|H].
  - apply orb_true_iff in H. destruct H as [H|H].
    + apply code_is in H; [|reflexivity]. subst c.
      exists (String (ascii_of_N 10) ""), r. split; [now left | reflexivity].
    + apply code_is in H; [|reflexivity]. subst c.
      exists (String (ascii_of_N 13) ""), r.
      split; [right; now left | reflexivity].
  - destruct r as [|d [|e r]]; try discriminate.
    apply andb_true_iff in H. destruct H as [H E].
    apply andb_true_iff in H. destruct H as [C D].
    apply code_is in C; [|reflexivity]. apply code_is in D; [|reflexivity].
    subst c d. apply orb_true_iff in E. destruct E as [E|E];
      (apply code_is in E; [|reflexivity]); subst e.
    + eexists _, r. split; [right; right; now left | reflexivity].
    + eexists _, r. split; [right; right; right; now left | reflexivity].
Qed.

Lemma line_terminator_at_start (lt x : string) :
  In lt line_terminators -> line_terminator_at (lt ++ x) = true.
Proof.
  unfold line_terminators. simpl.
  intros [I|[I|[I|[I|[]]]]]; subst lt; reflexivity.
Qed.

(** Before a closing text that starts with an ASCII character, a text
    without line terminator has none at its start either: the bytes of a
    terminator cannot run into the closing text. *)
Lemma no_terminator_at_start (k : ascii) (tail t : string) :
  (Chr.code k <? 128)%N = true -> t <> "" -> one_line t ->
  line_terminator_at (t ++ String k tail) = false.
Proof.
  intros K N O. destruct (line_terminator_at _) eqn:E; [|reflexivity].
  exfalso. apply line_terminator_at_found in E.
  destruct E as (lt & x & I & E).
  pose proof (O lt I "") as O'. simpl in O'.
  unfold line_terminators in I. simpl in I.
  destruct t as [|c t]; [congruence|].
  destruct I as [I|[I|[I|[I|[]]]]]; subst lt; simpl in E.
  - inversion E. subst c. now apply (O' t).
  - inversion E. subst c. now apply (O' t).
  - inversion E as [[C T]]. subst c.
    destruct t as [|c2 t]; simpl in T.
    { inversion T. subst k. discriminate. }
    inversion T as [[C2 T2]]. subst c2.
    destruct t as [|c3 t]; simpl in T2.
    { inversion T2. subst k. discriminate. }
    inversion T2. subst c3. now apply (O' t).
  - inversion E as [[C T]]. subst c.
    destruct t as [|c2 t]; simpl in T.
    { inversion T. subst k. discriminate. }
    inversion T as [[C2 T2]]. subst c2.
    destruct t as [|c3 t]; simpl in T2.
    { inversion T2. subst k. discriminate. }
    inversion T2. subst c3. now apply (O' t).
Qed.

(** The lazy scan finds the shortest text... *)
Lemma lazy_until_sound (close : string) : forall s t rest,
  lazy_until close s = Some (t, rest) -> shortest_before close s t rest.
Proof.
  assert (Z : forall s rest, Str.strip_prefix close s = Some rest ->
                             shortest_before close s "" rest).
  { intros s rest E. apply strip_prefix_spec in E.
    split; [exact E|]. split; [intros; simpl; lia | apply one_line_nil]. }
  induction s as [|c s IH]; intros t rest H; cbn [lazy_until] in H.
  - destruct (Str.strip_prefix close "") as [r|] eqn:E; [|discriminate].
    inversion H; subst. now apply Z.
  - destruct (Str.strip_prefix close (String c s)) as [r|] eqn:E.
    + inversion H; subst. now apply Z.
    + destruct (line_terminator_at (String c s)) eqn:LT; [discriminate|].
      destruct (lazy_until close s) as [[i r]|] eqn:L; [|discriminate].
      inversion H; subst. destruct (IH _ _ eq_refl) as (E1 & Sh & OL).
      split; [simpl; now rewrite <- E1|]. split.
      * intros t' rest' X. destruct t' as [|c' t'].
        -- simpl in X. rewrite X, strip_prefix_append in E. discriminate.
        -- simpl in X. inversion X. simpl. apply le_n_S.
           now apply (Sh t' rest').
      * intros lt I a b X. destruct a as [|a0 a].
        -- simpl in X.
           assert (T : line_terminator_at (String c s) = true).
           { rewrite E1.
             change (String c (i ++ close ++ rest))
               with (String c i ++ close ++ rest).
             rewrite X, append_assoc.
             now apply line_terminator_at_start. }
           congruence.
        -- simpl in X. inversion X. now apply (OL lt I a b).
Qed.

(** ... and whenever there is one, it finds it. *)
Lemma lazy_until_complete (k : ascii) (tail : string) :
  (Chr.code k <? 128)%N = true ->
  forall s t rest,
    shortest_before (String k tail) s t rest ->
    lazy_until (String k tail) s = Some (t, rest).
Proof.
  intros K. induction s as [|c s IH]; intros t rest (E & Sh & OL).
  - destruct t; discriminate.
  - cbn [lazy_until].
    destruct (Str.strip_prefix (String k tail) (String c s)) as [r0|] eqn:P.
    + apply strip_prefix_spec in P.
      assert (T : t = "").
      { specialize (Sh "" r0 P). destruct t; [reflexivity|].
        simpl in Sh. lia. }
      subst t. simpl in E. rewrite E in P.
      change (String k (tail ++ rest)) with (String k tail ++ rest) in P.
      apply append_inv_head in P. now subst r0.
    + destruct t as [|c' t1].
      * simpl in E. rewrite E in P.
        change (String k (tail ++ rest)) with (String k tail ++ rest) in P.
        rewrite strip_prefix_append in P. discriminate.
      * simpl in E. injection E as C T. subst c'.
        assert (LT : line_terminator_at (String c s) = false).
        { rewrite T.
          change (String c (t1 ++ String k (tail ++ rest)))
            with (String c t1 ++ String k (tail ++ rest)).
          apply (no_terminator_at_start k); [exact K | discriminate | exact OL]. }
        rewrite LT. rewrite (IH t1 rest); [reflexivity|].
        split; [exact T|]. split.
        -- intros t' rest' X. specialize (Sh (String c t') rest').
           simpl in Sh. apply le_S_n, Sh. now rewrite X.
        -- intros lt I a b X. apply (OL lt I (String c a) b).
           simpl. now rewrite X.
Qed.

Lemma is_quote_quote (c : ascii) :
  is_quote c = true -> quote (Str.of_char c).
Proof.
  unfold is_quote, quote. intros H. apply orb_true_iff in H.
  destruct H as [H|H]; apply Ascii.eqb_eq in H; subst; auto.
Qed.

Lemma quote_is_quote (q : string) :
  quote q ->
  exists c, q = Str.of_char c /\ is_quote c = true
            /\ (Chr.code c <? 128)%N = true.
Proof.
  intros [Q|Q]; subst q.
  - exists "'"%char. now repeat split.
  - exists Chr.dquote. now repeat split.
Qed.

Lemma url_match_sound (s q t rest : string) :
  url_match s = Some (q, t, rest) -> reference_at s q t rest.
Proof.
  unfold url_match.
  destruct (Str.strip_prefix "url(" s) as [after|] eqn:P; [|discriminate].
  apply strip_prefix_spec in P. subst s. intros H. exists after.
  split; [reflexivity|].
  assert (U : forall c r,
             after = String c r ->
             (is_quote c = false \/ lazy_until (String c ")") r = None) ->
             match lazy_until ")" after with
             | Some (inner0, rest0) => Some ("", inner0, rest0)
             | None => None
             end = Some (q, t, rest) ->
             q = ""
             /\ shortest_before ")" after t rest
             /\ forall q' after' t' rest',
                 quote q' -> after = q' ++ after' ->
                 ~ shortest_before (q' ++ ")") after' t' rest').
  { intros c r A D X.
    destruct (lazy_until ")" after) as [[i r']|] eqn:L; [|discriminate].
    inversion X; subst q t rest. split; [reflexivity|].
    split; [now apply lazy_until_sound|].
    intros q' after' t' rest' Q A' Sh.
    destruct (quote_is_quote q' Q) as (c' & Eq & IQ & K). subst q'.
    rewrite A in A'. simpl in A'. inversion A'; subst c' after'.
    destruct D as [D|D]; [congruence|].
    rewrite (lazy_until_complete c ")" K r t' rest') in D;
      [discriminate | exact Sh]. }
  destruct after as [|c r].
  - simpl in H. discriminate.
  - destruct (is_quote c) eqn:IQ.
    + destruct (lazy_until (String c ")") r) as [[i r']|] eqn:L.
      * inversion H; subst q t rest. left.
        split; [now apply is_quote_quote|].
        exists r. split; [reflexivity|]. now apply lazy_until_sound.
      * right. apply (U c r eq_refl); [now right | exact H].
    + right. apply (U c r eq_refl); [now left | exact H].
Qed.

Lemma url_match_complete (s q t rest : string) :
  reference_at s q t rest -> url_match s = Some (q, t, rest).
Proof.
  intros (after & E & [(Q & after' & A & Sh) | (Q & Sh & No)]); subst s;
    unfold url_match; rewrite strip_prefix_append.
  - destruct (quote_is_quote q Q) as (c & Eq & IQ & K). subst q after.
    cbn [Str.of_char String.append]. rewrite IQ.
    now rewrite (lazy_until_complete c ")" K after' t rest Sh).
  - subst q.
    rewrite (lazy_until_complete ")" "" eq_refl after t rest Sh).
    destruct after as [|c r]; [reflexivity|].
    destruct (is_quote c) eqn:IQ; [|reflexivity].
    destruct (lazy_until (String c ")") r) as [[i r']|] eqn:L;
      [|reflexivity].
    exfalso. apply (No (Str.of_char c) r i r').
    + now apply is_quote_quote.
    + reflexivity.
    + now apply lazy_until_sound.
Qed.

(** *** The replacement follows the references *)

Lemma url_pieces_fuel : forall f1 f2 s,
  String.length s <= f1 -> String.length s <= f2 ->
  url_pieces f1 s = url_pieces f2 s.
Proof.
  induction f1 as [|f1 IH]; intros f2 s L1 L2.
  - destruct s; [now destruct f2 | simpl in L1; lia].
  - destruct s as [|c r]; [now destruct f2|].
    destruct f2 as [|f2]; [simpl in L2; lia|]. cbn [url_pieces].
    destruct (url_match (String c r)) as [[[q inner] rest]|] eqn:M.
    + destruct (url_match_spec _ _ _ _ M) as [E _].
      apply (f_equal String.length) in E. unfold matched_text in E.
      rewrite !length_append in E. simpl in E, L1, L2.
      f_equal. apply IH; lia.
    + f_equal. apply IH; simpl in L1, L2; lia.
Qed.

Lemma rule_at_reference (base s q t rest : string) :
  url_match s = Some (q, t, rest) ->
  apply_rule (style_value base) s
  = reference_image base q t ++ apply_rule (style_value base) rest.
Proof.
  intros M. rewrite !style_rule_value.
  destruct (url_match_spec _ _ _ _ M) as [E _].
  destruct s as [|c r]; [discriminate|].
  cbn [String.length url_pieces]. rewrite M. cbn [concat_map].
  f_equal. f_equal. apply url_pieces_fuel; [|lia].
  apply (f_equal String.length) in E. unfold matched_text in E.
  rewrite !length_append in E. simpl in E. lia.
Qed.

Lemma rule_at_other (base : string) (c : ascii) (r : string) :
  url_match (String c r) = None ->
  apply_rule (style_value base) (String c r)
  = String c (apply_rule (style_value base) r).
Proof.
  intros M. rewrite !style_rule_value.
  cbn [String.length url_pieces]. now rewrite M.
Qed.

Lemma style_rule_rewritten (base : string) : forall n style,
  String.length style <= n ->
  style_rewritten base style (apply_rule (style_value base) style).
Proof.
  induction n as [|n IH]; intros style L.
  - destruct style; [apply sr_end | simpl in L; lia].
  - destruct style as [|c r]; [apply sr_end|].
    destruct (url_match (String c r)) as [[[q t] rest]|] eqn:M.
    + rewrite (rule_at_reference _ _ _ _ _ M).
      apply sr_reference with (rest := rest); [now apply url_match_sound|].
      apply IH. destruct (url_match_spec _ _ _ _ M) as [E _].
      apply (f_equal String.length) in E. unfold matched_text in E.
      rewrite !length_append in E. simpl in E, L. lia.
    + rewrite (rule_at_other _ _ _ M). apply sr_other.
      * intros q t rest R. apply url_match_complete in R. congruence.
      * apply IH. simpl in L. lia.
Qed.

Lemma style_rewritten_is_rule (base style out : string) :
  style_rewritten base style out ->
  out = apply_rule (style_value base) style.
Proof.
  induction 1 as [|s q t rest out R _ IH|c s out N _ IH].
  - reflexivity.
  - apply url_match_complete in R.
    now rewrite (rule_at_reference _ _ _ _ _ R), IH.
  - rewrite rule_at_other, IH; [reflexivity|].
    destruct (url_match (String c s)) as [[[q t] rest]|] eqn:M;
      [|reflexivity].
    exfalso. apply (N q t rest). now apply url_match_sound.
Qed.

(** *** The pass over the document *)

Lemma style_values_after_own_pass (rule : string -> option string)
      (d : Dom.document) :
  style_values (Dom.each (Dom.any_with "style") (update_attr "style" rule) d)
  = List.map (option_map (apply_rule rule)) (style_values d).
Proof.
  unfold style_values. rewrite List.map_map.
  apply DomFacts.values_after_each.
  - intros n a. unfold Dom.any_with.
    destruct (Dom.has_attr "style" a) eqn:S; [|exact S].
    now rewrite DomFacts.has_attr_update.
  - intros n a S. unfold Dom.any_with in *. rewrite S.
    apply DomFacts.attr_update_same.
Qed.

Lemma style_values_after_other_pass (sel : Dom.selector) (name : string)
      (rule : Dom.attribs -> string -> option string) (d : Dom.document) :
  name <> "style" ->
  style_values (Dom.each sel (fun a => update_attr name (rule a) a) d)
  = style_values d.
Proof.
  intros N. unfold style_values.
  rewrite <- (DomFacts.map_option_map_id (List.map _ (Dom.select _ d))).
  rewrite List.map_map. apply DomFacts.values_after_each.
  - intros n a. unfold Dom.any_with. destruct (sel n a); [|reflexivity].
    apply DomFacts.has_attr_update.
  - intros n a _. rewrite DomFacts.option_map_id.
    destruct (sel n a); [|reflexivity].
    now apply DomFacts.attr_update_other.
Qed.

Lemma Forall2_map_image {A B} (P : A -> B -> Prop) (f : A -> B)
      (l : list A) :
  (forall x, P x (f x)) -> Forall2 P l (List.map f l).
Proof. intros H. induction l; constructor; auto. Qed.

(** C8, amended.  In every document, on every element that has a [style]
    attribute, whatever its tag, the new value is the old one read from
    left to right with every reference replaced by its image and every
    other character kept.  A reference is the lower-case text [url(],
    then a single or double quote, the shortest text without line
    terminator up to the same quote and a closing parenthesis; or, where
    the text does not go on like this, no quote and the shortest text
    without line terminator up to a closing parenthesis.  The image of a
    reference whose text resolves is [url('/asset?url=...')] with the
    percent-encoded absolute URL, in single quotes whatever the quotes
    were; the image of one that does not resolve is the reference as
    written.  This determines the new value.  The example of the claim
    holds. *)
Theorem inline_style_urls_rewritten (base : string) (d : Dom.document) :
  Forall2 (style_attribute_rewritten base)
          (style_values d) (style_values (rewrite_rules base d))
  /\ (forall style out out',
      style_rewritten base style out -> style_rewritten base style out' ->
      out = out')
  /\ rewrite_rules "https://example.com/a/"
       [Dom.Element "div" [("style", "background:url('bg.png')")] []]
     = [Dom.Element "div"
          [("style",
            "background:url('/asset?url=https%3A%2F%2Fexample.com%2Fa%2Fbg.png')")]
          []].
Proof.
  split; [|split].
  - unfold rewrite_rules, rewrite_srcsets, rewrite_styles, rewrite_links,
      rewrite_scripts, rewrite_images, rewrite_anchors.
    rewrite (style_values_after_other_pass _ "srcset"
               (fun _ => srcset_value base)) by discriminate.
    rewrite style_values_after_own_pass.
    rewrite (style_values_after_other_pass _ "href"
               (fun a => link_href base (Dom.attr "rel" a))) by discriminate.
    rewrite (style_values_after_other_pass _ "src"
               (fun _ => asset_src base)) by discriminate.
    rewrite (style_values_after_other_pass _ "src"
               (fun _ => asset_src base)) by discriminate.
    rewrite (style_values_after_other_pass _ "href"
               (fun _ => anchor_href base)) by discriminate.
    apply Forall2_map_image. intros [style|]; cbn; [|exact I].
    apply (style_rule_rewritten base (String.length style)), le_n.
  - intros style out out' A B.
    now rewrite (style_rewritten_is_rule _ _ _ A),
                (style_rewritten_is_rule _ _ _ B).
  - vm_compute. reflexivity.
Qed.

End StyleRule.

(** C8 as stated fails for references the expression does not find as
    such.  [URL(bg.png)] is a reference in CSS, its text resolves, and it
    is left as it is; in [url( 'bg.png' )] the quotes are taken for a part
    of the text to resolve. *)
Lemma style_references_not_found :
  absoluteUrl "https://example.com/a/" "bg.png"
  = Some "https://example.com/a/bg.png"
  /\ rewrite_rules "https://example.com/a/"
       [Dom.Element "div" [("style", "background:URL(bg.png)")] []]
     = [Dom.Element "div" [("style", "background:URL(bg.png)")] []]
  /\ rewrite_rules "https://example.com/a/"
       [Dom.Element "div" [("style", "background:url( 'bg.png' )")] []]
     = [Dom.Element "div"
          [("style",
            "background:url('/asset?url=https%3A%2F%2Fexample.com%2Fa%2F'bg.png'')")]
          []].
Proof. vm_compute. repeat split. Qed.

(** ** The srcset rule *)

Section SrcsetRule.
Context {platform : Platform}.

Lemma srcset_candidate_image (base cand : string) :
  srcset_candidate base cand = candidate_image base cand.
Proof.
  unfold srcset_candidate, candidate_image, asset_ref.
  rewrite resolved_is_absoluteUrl.
  destruct (absoluteUrl base (hd "" (Str.split_ws cand))); [|reflexivity].
  rewrite append_assoc. f_equal. f_equal.
  destruct (nth_error (Str.split_ws cand) 1) as [d|]; [|reflexivity].
  unfold truthy_opt, truthy. now destruct (String.eqb d "").
Qed.

Lemma srcset_rule_value (base srcset : string) :
  apply_rule (srcset_value base) srcset = srcset_new_value base srcset.
Proof.
  unfold apply_rule, srcset_value, srcset_new_value, truthy.
  destruct (String.eqb srcset ""); cbn [negb]; [reflexivity|].
  rewrite List.map_map. f_equal. apply List.map_ext.
  intros piece. apply srcset_candidate_image.
Qed.

(** C6, amended.  In every document, the [srcset] values of the [img]
    elements after rewriting are those before, each mapped as follows.  An
    empty value stays.  Any other value is split at its commas and each
    piece is trimmed; a trimmed piece is cut at its white space into
    tokens, the first being the URL and the second, if any, the
    descriptor; when the URL resolves the piece becomes [/asset?url=]
    followed by the percent-encoded absolute URL and, when there is a
    descriptor, a space and the descriptor; when it does not resolve the
    trimmed piece stays; the pieces are joined, in their order, by a comma
    and a space. *)
Theorem srcset_candidates_rewritten (base : string) (d : Dom.document) :
  slot_values "img" "srcset" (rewrite_rules base d)
  = List.map (option_map (srcset_new_value base))
             (slot_values "img" "srcset" d).
Proof.
  unfold rewrite_rules, rewrite_srcsets, rewrite_styles, rewrite_links,
    rewrite_scripts, rewrite_images, rewrite_anchors.
  rewrite (DomFacts.slot_after_own_pass "img" "srcset"
             (fun _ => srcset_value base) (srcset_new_value base));
    [|intros a v _; apply srcset_rule_value].
  rewrite (DomFacts.slot_after_other_pass "img" "srcset" _ "style"
             (fun _ => style_value base)); [|left; discriminate].
  rewrite (DomFacts.slot_after_other_pass "img" "srcset" _ "href"
             (fun a => link_href base (Dom.attr "rel" a)));
    [|left; discriminate].
  rewrite (DomFacts.slot_after_other_pass "img" "srcset" _ "src"
             (fun _ => asset_src base)); [|left; discriminate].
  rewrite (DomFacts.slot_after_other_pass "img" "srcset" _ "src"
             (fun _ => asset_src base)); [|left; discriminate].
  now rewrite (DomFacts.slot_after_other_pass "img" "srcset" _ "href"
                 (fun _ => anchor_href base)); [|left; discriminate].
Qed.

End SrcsetRule.

(** C6 as stated fails: a candidate whose URL does not resolve comes out
    trimmed, not as written (here two spaces follow the comma in the
    input, one in the output), and an empty [srcset] is left alone although
    its only candidate, the empty text, resolves. *)
Lemma srcset_failed_candidate_is_trimmed :
  absoluteUrl "https://example.com/a/" "https://exa<mple.com/b.png" = None
  /\ rewrite_rules "https://example.com/a/"
       [Dom.Element "img"
          [("srcset", "a.png 1x,  https://exa<mple.com/b.png 2x")] []]
     = [Dom.Element "img"
          [("srcset",
            "/asset?url=https%3A%2F%2Fexample.com%2Fa%2Fa.png 1x, https://exa<mple.com/b.png 2x")]
          []]
  /\ absoluteUrl "https://example.com/a/" "" = Some "https://example.com/a/"
  /\ rewrite_rules "https://example.com/a/"
       [Dom.Element "img" [("srcset", "")] []]
     = [Dom.Element "img" [("srcset", "")] []].
Proof. vm_compute. repeat split. Qed.

(** ** The asset relay *)

Section AssetRelay.
Context {platform : Platform}.

(** The part of a value before its first semicolon starts with a prefix
    that holds no semicolon exactly when the value does. *)
Lemma head_of_split_starts (p s : string) :
  Str.existsb (Ascii.eqb ";") p = false ->
  Str.startsWith p (List.hd "" (Str.split ";" s)) = Str.startsWith p s.
Proof.
  revert s; induction p as [|x p IH]; intros s H; [reflexivity|].
  simpl in H. apply orb_false_iff in H. destruct H as [X H].
  destruct s as [|c s]; [reflexivity|]. cbn [Str.split].
  destruct (Ascii.eqb c ";") eqn:C.
  - apply Ascii.eqb_eq in C. subst c. simpl.
    destruct (Ascii.eqb x ";") eqn:Y; [|reflexivity].
    apply Ascii.eqb_eq in Y. subst x. discriminate.
  - specialize (IH s H). destruct (Str.split ";" s) as [|h t] eqn:E.
    + simpl. destruct (Ascii.eqb x c); [|reflexivity].
      simpl in IH. exact IH.
    + simpl in *. destruct (Ascii.eqb x c); [exact IH | reflexivity].
Qed.

(** C4, amended.  For a request with a non-empty [url]: when [fetch]
    resolves, whatever the upstream status, the relay keeps its own status
    200; it hands the upstream content type to [res.set] when that is
    present and not empty, and sets none otherwise; and it pipes the
    upstream body, or, where the body cannot be piped, reads it whole and
    sends it.  When [fetch] rejects, or reading the whole body fails, the
    relay answers 500 with the text [Asset fetch failed] and no upstream
    byte.  The content type is not forwarded verbatim: [res.set] appends
    [; charset=utf-8] to a value without [charset] parameter whose type
    starts with [text/], [application/json] or [application/javascript],
    and keeps any other value as it is. *)
Theorem asset_relay_response (net : network) (url : string) :
  url <> "" ->
  (net 0 url = Rejected ->
   run (asset_handler (Some url)) net
   = {| status := 500; headers := []; body := Sent "Asset fetch failed" |})
  /\ (forall r, net 0 url = Resolved r ->
      up_pipeable r = true ->
      run (asset_handler (Some url)) net
      = {| status := 200; headers := forwarded_content_type r;
           body := Piped (up_bytes r) (up_intact r) |})
  /\ (forall r, net 0 url = Resolved r ->
      up_pipeable r = false -> up_intact r = true ->
      run (asset_handler (Some url)) net
      = {| status := 200; headers := forwarded_content_type r;
           body := Sent (up_bytes r) |})
  /\ (forall r, net 0 url = Resolved r ->
      up_pipeable r = false -> up_intact r = false ->
      run (asset_handler (Some url)) net
      = {| status := 500; headers := forwarded_content_type r;
           body := Sent "Asset fetch failed" |})
  /\ (forall ct, declares_charset ct = true -> express_content_type ct = ct)
  /\ (forall ct, declares_charset ct = false ->
      express_content_type ct
      = if Str.startsWith "text/" ct
           || Str.startsWith "application/javascript" ct
           || Str.startsWith "application/json" ct
        then ct ++ "; charset=utf-8" else ct)
  /\ declares_charset "text/html; charset=iso-8859-1" = true
  /\ declares_charset "text/plain" = false
  /\ declares_charset "image/png" = false.
Proof.
  intros N. apply String.eqb_neq in N.
  unfold asset_handler, truthy. rewrite N. cbn [negb].
  assert (F : forall r,
             (if truthy_opt (up_content_type r)
              then set_header "Content-Type"
                     (express_content_type
                        (match up_content_type r with
                         | Some ct => ct
                         | None => ""
                         end)) []
              else []) = forwarded_content_type r).
  { intros r. unfold forwarded_content_type, truthy_opt, truthy.
    destruct (up_content_type r) as [ct|]; [|reflexivity].
    now destruct (String.eqb ct ""). }
  split; [|split; [|split; [|split; [|split; [|split]]]]].
  - intros H. run_handler. now rewrite H.
  - intros r H P. run_handler. rewrite H, P, <- F.
    now destruct (truthy_opt (up_content_type r)).
  - intros r H P I. run_handler. rewrite H, P, I, <- F.
    now destruct (truthy_opt (up_content_type r)).
  - intros r H P I. run_handler. rewrite H, P, I, <- F.
    now destruct (truthy_opt (up_content_type r)).
  - intros ct D. unfold express_content_type. now rewrite D.
  - intros ct D. unfold express_content_type, has_default_charset.
    rewrite D, !head_of_split_starts by reflexivity. reflexivity.
  - repeat split.
Qed.

End AssetRelay.

Lemma asset_relay_response_witness :
  run (asset_handler (Some "https://example.com/x")) (steady not_found_page)
  = {| status := 200;
       headers := [("Content-Type", "text/plain; charset=utf-8")];
       body := Piped "not found" true |}.
Proof.
  assert (N : "https://example.com/x" <> "") by discriminate.
  destruct (asset_relay_response (steady not_found_page)
                                 "https://example.com/x" N)
    as (_ & H & _).
  exact (H not_found_page eq_refl eq_refl).
Defined.

(** C4 as stated fails: the relay answers an upstream 404 with its own
    status 200, and the upstream content type [text/plain] goes out as
    [text/plain; charset=utf-8]. *)
Lemma asset_relay_alters_status_and_content_type :
  up_status not_found_page = 404
  /\ up_content_type not_found_page = Some "text/plain"
  /\ run (asset_handler (Some "https://example.com/x"))
         (steady not_found_page)
     = {| status := 200;
          headers := [("Content-Type", "text/plain; charset=utf-8")];
          body := Piped "not found" true |}.
Proof. vm_compute. repeat split. Qed.

(** ** The page load of a resource that is not HTML *)

Section NonHtmlPageLoad.
Context {platform : Platform}.

(** The branch of lines 124-130. *)
Lemma proxy_non_html_branch (load_raw : string -> Dom.document)
      (fragment : string -> list Dom.node) (html : Dom.document -> string)
      (net : network) (url : string) (r r2 : upstream) :
  url <> "" ->
  net 0 url = Resolved r ->
  Str.includes "text/html"
    (match up_content_type r with
     | Some ct => if truthy ct then ct else ""
     | None => ""
     end) = false ->
  net 1 url = Resolved r2 ->
  up_pipeable r2 = true ->
  run (proxy_handler load_raw fragment html (Some url)) net
  = {| status := 200; headers := [];
       body := Piped (up_bytes r2) (up_intact r2) |}.
Proof.
  intros N H C H2 P. apply String.eqb_neq in N.
  unfold proxy_handler, truthy in *. rewrite N. cbn [negb].
  run_handler. rewrite H. cbn. rewrite C. cbn. rewrite H2. cbn.
  now rewrite P.
Qed.

(** C5.  When the upstream does not declare [text/html], the page load
    pipes the body of its second fetch, byte for byte, and sets no header
    at all: the upstream content type is not forwarded.  On a resource
    served as [image/png] the answer has the bytes and no content type,
    where the asset relay, for the same upstream, forwards [image/png]. *)
Theorem proxy_non_html_has_no_content_type
        (load_raw : string -> Dom.document)
        (fragment : string -> list Dom.node)
        (html : Dom.document -> string) :
  (forall net url r r2,
      url <> "" ->
      net 0 url = Resolved r ->
      Str.includes "text/html"
        (match up_content_type r with
         | Some ct => if truthy ct then ct else ""
         | None => ""
         end) = false ->
      net 1 url = Resolved r2 ->
      up_pipeable r2 = true ->
      run (proxy_handler load_raw fragment html (Some url)) net
      = {| status := 200; headers := [];
           body := Piped (up_bytes r2) (up_intact r2) |})
  /\ run (proxy_handler load_raw fragment html
                        (Some "https://example.com/logo.png"))
         (steady png_image)
     = {| status := 200; headers := []; body := Piped "PNG bytes" true |}
  /\ run (asset_handler (Some "https://example.com/logo.png"))
         (steady png_image)
     = {| status := 200; headers := [("Content-Type", "image/png")];
          body := Piped "PNG bytes" true |}.
Proof.
  split; [|split; vm_compute; reflexivity].
  intros net url r r2. apply proxy_non_html_branch.
Qed.

End NonHtmlPageLoad.

(** ** The metadata lookup *)

Section MetadataLookup.
Context {platform : Platform}.

(** C9, amended.  A request with a non-empty [url] is never answered with
    an error status: the answer is 200 with the title and favicon found
    when the page is fetched and read, and 200 with the title equal to the
    url and a null favicon when the fetch rejects or reading the body
    fails.  A request without [url], or with an empty one, is answered 400
    with [error: missing url]. *)
Theorem meta_lookup_response (load : string -> Dom.document)
        (net : network) (url : string) :
  (url <> "" ->
   status (run (meta_handler load (Some url)) net) = 200
   /\ (net 0 url = Rejected ->
       body (run (meta_handler load (Some url)) net)
       = Json [("title", Some url); ("favicon", None)])
   /\ (forall r, net 0 url = Resolved r -> up_intact r = false ->
       body (run (meta_handler load (Some url)) net)
       = Json [("title", Some url); ("favicon", None)])
   /\ (forall r, net 0 url = Resolved r -> up_intact r = true ->
       body (run (meta_handler load (Some url)) net)
       = Json [("title", Some (meta_title url (load (up_bytes r))));
               ("favicon", meta_favicon url (load (up_bytes r)))]))
  /\ run (meta_handler load None) net
     = {| status := 400; headers := [];
          body := Json [("error", Some "missing url")] |}
  /\ run (meta_handler load (Some "")) net
     = {| status := 400; headers := [];
          body := Json [("error", Some "missing url")] |}.
Proof.
  split; [|split; reflexivity].
  intros N. apply String.eqb_neq in N.
  unfold meta_handler, truthy. rewrite N. cbn [negb].
  repeat split.
  - run_handler. destruct (net 0 url) as [|r]; [reflexivity|].
    destruct (up_intact r); reflexivity.
  - intros H. run_handler. now rewrite H.
  - intros r H I. run_handler. now rewrite H, I.
  - intros r H I. run_handler. now rewrite H, I.
Qed.

End MetadataLookup.

(** C9 as stated fails: a request without [url] is answered with the
    error status 400 and no title. *)
Lemma meta_lookup_missing_url_is_400 :
  run (meta_handler (fun _ => []) None) unreachable
  = {| status := 400; headers := [];
       body := Json [("error", Some "missing url")] |}.
Proof. reflexivity. Qed.

Section MetadataLookup.
Context {platform : Platform}.

Lemma favicon_href_found (d : Dom.document) :
  first_truthy (favicon_candidates d) = favicon_href d.
Proof.
  unfold favicon_candidates, favicon_href, Dom.first_attr.
  change (Dom.select (Dom.tag_attr_is_ci "link" "rel" "icon") d)
    with (Dom.select (rel_is "icon") d).
  change (Dom.select (Dom.tag_attr_is_ci "link" "rel" "shortcut icon") d)
    with (Dom.select (rel_is "shortcut icon") d).
  change (Dom.select (Dom.tag_attr_is_ci "link" "rel" "apple-touch-icon") d)
    with (Dom.select (rel_is "apple-touch-icon") d).
  fold (first_link_href "icon" d) (first_link_href "shortcut icon" d)
       (first_link_href "apple-touch-icon" d).
  destruct (first_link_href "icon" d) as [a|];
    destruct (first_link_href "shortcut icon" d) as [b|];
    destruct (first_link_href "apple-touch-icon" d) as [c|];
    cbn; unfold truthy;
    repeat match goal with
           | |- context [String.eqb ?x ""] => destruct (String.eqb x "")
           end; reflexivity.
Qed.

Lemma find_some_holds {A} (f : A -> bool) (l : list A) (x : A) :
  List.find f l = Some x -> f x = true.
Proof. intros H. now apply List.find_some in H. Qed.

(** C10, amended.  When the page is fetched and read, the favicon of the
    answer is decided by the [href] found: of each kind [icon],
    [shortcut icon], [apple-touch-icon], in this order, the first [link]
    whose [rel] is that word in any letter case counts, and the [href]
    found is the first non-empty one these links carry.  When one is
    found, the favicon is its resolution against the url, hence null when
    that fails; the synthesized origin followed by [/favicon.ico] is
    returned exactly when none is found, that is, when each of the three
    links is absent, without [href] or with an empty one. *)
Theorem meta_favicon_of_discovered_link (load : string -> Dom.document)
        (net : network) (url : string) (r : upstream) :
  url <> "" -> net 0 url = Resolved r -> up_intact r = true ->
  let d := load (up_bytes r) in
  run (meta_handler load (Some url)) net
  = {| status := 200; headers := [];
       body := Json [("title", Some (meta_title url d));
                     ("favicon",
                      match favicon_href d with
                      | Some href => absoluteUrl url href
                      | None =>
                          match URL.new url None with
                          | Some u => Some (URL.origin u ++ "/favicon.ico")
                          | None => None
                          end
                      end)] |}
  /\ (forall href, favicon_href d = Some href -> href <> "")
  /\ (favicon_href d = None <->
      Forall (fun word => first_link_href word d = None
                          \/ first_link_href word d = Some "")
             ["icon"; "shortcut icon"; "apple-touch-icon"]).
Proof.
  intros N H I d. apply String.eqb_neq in N. split; [|split].
  - unfold meta_handler, truthy. rewrite N. cbn [negb].
    run_handler. rewrite H, I. cbn. fold d.
    unfold meta_favicon, favicon_fallback.
    now rewrite favicon_href_found.
  - intros href F. apply find_some_holds in F.
    apply negb_true_iff, String.eqb_neq in F. exact F.
  - unfold favicon_href. rewrite !Forall_cons_iff, Forall_nil_iff.
    destruct (first_link_href "icon" d) as [a|];
      destruct (first_link_href "shortcut icon" d) as [b|];
      destruct (first_link_href "apple-touch-icon" d) as [c|];
      cbn [present flat_map app find negb];
      repeat match goal with
             | |- context [String.eqb ?x ""] =>
                 let E := fresh "E" in
                 destruct (String.eqb x "") eqn:E;
                 [apply String.eqb_eq in E; subst x
                 |apply String.eqb_neq in E]
             end; cbn [negb];
      intuition (try discriminate; try congruence).
Qed.

End MetadataLookup.

Lemma meta_favicon_of_discovered_link_witness :
  run (meta_handler (fun _ => page_with_upper_case_icon)
                    (Some "https://example.com/page"))
      (steady html_page)
  = {| status := 200; headers := [];
       body := Json [("title", Some "Example"); ("favicon", None)] |}
  /\ favicon_href page_with_upper_case_icon
     = Some "https://exa<mple.com/i.png".
Proof.
  assert (N : "https://example.com/page" <> "") by discriminate.
  destruct (meta_favicon_of_discovered_link
              (fun _ => page_with_upper_case_icon) (steady html_page)
              "https://example.com/page" html_page N eq_refl eq_refl)
    as (R & _).
  split; [rewrite R; vm_compute|]; reflexivity.
Defined.

(** C10 as stated fails: with a favicon link that has no [href] the
    synthesized [/favicon.ico] is returned although favicon links are
    present, one of them with an [href] that does not resolve. *)
Lemma meta_favicon_fallback_with_link_present :
  List.length (Dom.select (rel_is "icon") page_with_icon_without_href) = 2
  /\ absoluteUrl "https://example.com/page" "https://exa<mple.com/i.png" = None
  /\ meta_favicon "https://example.com/page" page_with_icon_without_href
     = Some "https://example.com/favicon.ico".
Proof. vm_compute. repeat split. Qed.

(** ** What the rules write *)

Section References.
Context {platform : Platform}.

Lemma unreserved_not_percent (c : ascii) :
  uri_unreserved c = true -> Ascii.eqb c "%" = false.
Proof. all_chars c. Qed.

Lemma percent_byte_digits (c : ascii) :
  upper_hex (Chr.hex_digit_upper (Chr.code c / 16)) = true
  /\ upper_hex (Chr.hex_digit_upper (Chr.code c mod 16)) = true.
Proof. all_chars c. Qed.

Lemma encodeURIComponent_encoded (s : string) :
  component_encoded (encodeURIComponent s) = true.
Proof.
  induction s as [|c s IH]; [reflexivity|]. cbn [encodeURIComponent].
  destruct (uri_unreserved c) eqn:U.
  - cbn. rewrite (unreserved_not_percent _ U), U. exact IH.
  - unfold percent_byte. cbn [String.append component_encoded].
    rewrite Ascii.eqb_refl.
    destruct (percent_byte_digits c) as [A B]. now rewrite A, B, IH.
Qed.

Lemma proxy_ref_navigate (abs : string) : navigate_ref (proxy_ref abs) = true.
Proof.
  unfold navigate_ref, proxy_ref. rewrite strip_prefix_append.
  apply encodeURIComponent_encoded.
Qed.

Lemma asset_ref_asset (abs : string) : asset_reference (asset_ref abs) = true.
Proof.
  unfold asset_reference, asset_ref. rewrite strip_prefix_append.
  apply encodeURIComponent_encoded.
Qed.

End References.

Module PassFacts.
Import Dom.

Lemma Forall2_same {A} (R : A -> A -> Prop) (l : list A) :
  (forall x, R x x) -> Forall2 R l l.
Proof. intros H. induction l; constructor; auto. Qed.

Lemma Forall2_map_both {A B} (R : B -> B -> Prop) (f : A -> B)
      (l l' : list A) :
  Forall2 (fun x y => R (f x) (f y)) l l' ->
  Forall2 R (List.map f l) (List.map f l').
Proof. induction 1; constructor; auto. Qed.

Lemma Forall2_flat_map_both {A B} (R : B -> B -> Prop)
      (g h : A -> list B) (l : list A) :
  Forall (fun x => Forall2 R (g x) (h x)) l ->
  Forall2 R (flat_map g l) (flat_map h l).
Proof.
  induction 1 as [|x l H F IH]; simpl; [constructor|].
  now apply Forall2_app.
Qed.

Lemma Forall2_chain {A} (R S T : A -> A -> Prop) (l0 l1 l2 : list A) :
  (forall x y z, R x y -> S y z -> T x z) ->
  Forall2 R l0 l1 -> Forall2 S l1 l2 -> Forall2 T l0 l2.
Proof.
  intros H F. revert l2. induction F as [|x y l0 l1 Rxy F IH]; intros l2 G.
  - inversion G. constructor.
  - inversion G as [|y' z l1' l2' Syz G']; subst. constructor; eauto.
Qed.

(** [set_attr] changes the value of the first attribute of that name,
    and nothing else. *)
Lemma set_attr_related (name v v0 : string) : forall a,
  attr name a = Some v0 ->
  Forall2 (fun kv kv' : string * string =>
             fst kv' = fst kv
             /\ (snd kv' = snd kv
                 \/ (fst kv = name /\ snd kv = v0 /\ snd kv' = v)))
          a (set_attr name v a).
Proof.
  induction a as [|[k w] a IH]; simpl; [discriminate|].
  destruct (String.eqb k name) eqn:E.
  - intros H. inversion H; subst w. apply String.eqb_eq in E. subst k.
    constructor.
    + split; [reflexivity|]. right. now repeat split.
    + apply Forall2_same. intros x. split; [reflexivity | now left].
  - intros H. constructor.
    + split; [reflexivity | now left].
    + now apply IH.
Qed.

(** A pass and the attributes of the document, place by place: each one
    keeps its tag and its name, and either its value or, on a selected
    element, gets what the rule makes of its value. *)
Lemma attributes_related_after_pass (sel : selector) (name : string)
      (rule : attribs -> string -> option string)
      (Q : string -> string -> string -> Prop) :
  (forall t a v0 v,
      sel t a = true -> attr name a = Some v0 -> rule a v0 = Some v ->
      Q t v0 v) ->
  forall d,
    Forall2 (fun x y =>
               attr_tag y = attr_tag x
               /\ attr_name y = attr_name x
               /\ (attr_value y = attr_value x
                   \/ (attr_name x = name
                       /\ Q (attr_tag x) (attr_value x) (attr_value y))))
            (attributes d)
            (attributes (each sel (fun a => update_attr name (rule a) a) d)).
Proof.
  intros HQ.
  set (R := fun x y : string * string * string =>
              attr_tag y = attr_tag x
              /\ attr_name y = attr_name x
              /\ (attr_value y = attr_value x
                  \/ (attr_name x = name
                      /\ Q (attr_tag x) (attr_value x) (attr_value y)))).
  assert (Same : forall l, Forall2 R l l).
  { intros l. apply Forall2_same. intros x. repeat split. now left. }
  assert (N : forall n,
             Forall2 R (node_attributes n)
                     (node_attributes
                        (each_node sel
                           (fun a => update_attr name (rule a) a) n))).
  { apply (DomFacts.node_induction
             (fun n =>
                Forall2 R (node_attributes n)
                        (node_attributes
                           (each_node sel
                              (fun a => update_attr name (rule a) a) n))));
      try (intros; apply Same).
    intros t a children F. cbn [each_node node_attributes].
    apply Forall2_app.
    - apply (Forall2_map_both R (fun kv : string * string =>
                                   (t, fst kv, snd kv))).
      destruct (sel t a) eqn:S;
        [|apply Forall2_same; intros x; repeat split; now left].
      unfold update_attr. destruct (attr name a) as [v0|] eqn:A;
        [|apply Forall2_same; intros x; repeat split; now left].
      destruct (rule a v0) as [v|] eqn:Ru;
        [|apply Forall2_same; intros x; repeat split; now left].
      eapply Forall2_impl; [|apply (set_attr_related name v v0 a A)].
      intros kv kv' (K & V). unfold R, attr_tag, attr_name, attr_value.
      cbn. repeat split; [now rewrite K|].
      destruct V as [V|(K' & V0 & V')]; [now left|]. right.
      split; [exact K'|]. rewrite V0, V'. apply (HQ t a v0 v S A Ru).
    - rewrite DomFacts.flat_map_map.
      now apply Forall2_flat_map_both. }
  intros d. unfold attributes, each. rewrite DomFacts.flat_map_map.
  apply Forall2_flat_map_both. apply Forall_forall. intros n _. apply N.
Qed.

(** One more pass after others: what the others wrote stays, when no
    attribute they wrote is in the slot of this pass. *)
Lemma one_more_pass (name : string)
      (W : string * string * string -> string -> Prop)
      (Q : string -> string -> string -> Prop)
      (l0 l1 l2 : list (string * string * string)) :
  (forall x v v0 v', W x v -> attr_name x = name ->
                     Q (attr_tag x) v0 v' -> False) ->
  Forall2 (fun x y =>
             attr_tag y = attr_tag x
             /\ attr_name y = attr_name x
             /\ (attr_value y = attr_value x \/ W x (attr_value y)))
          l0 l1 ->
  Forall2 (fun x y =>
             attr_tag y = attr_tag x
             /\ attr_name y = attr_name x
             /\ (attr_value y = attr_value x
                 \/ (attr_name x = name
                     /\ Q (attr_tag x) (attr_value x) (attr_value y))))
          l1 l2 ->
  Forall2 (fun x z =>
             attr_tag z = attr_tag x
             /\ attr_name z = attr_name x
             /\ (attr_value z = attr_value x
                 \/ W x (attr_value z)
                 \/ (attr_name x = name
                     /\ Q (attr_tag x) (attr_value x) (attr_value z))))
          l0 l2.
Proof.
  intros D. apply Forall2_chain.
  intros x y z (T1 & N1 & V1) (T2 & N2 & V2).
  split; [congruence|]. split; [congruence|].
  destruct V2 as [V2|(N & Qy)].
  - rewrite V2. destruct V1 as [V1|V1]; [now left | right; now left].
  - destruct V1 as [V1|V1].
    + right; right. rewrite <- N1, <- T1, <- V1. now split.
    + exfalso. apply (D x (attr_value y) (attr_value y) (attr_value z) V1).
      * congruence.
      * now rewrite <- T1.
Qed.

Lemma tag_with_tag tag name t a : tag_with tag name t a = true -> t = tag.
Proof.
  unfold tag_with. intros H. apply andb_true_iff in H.
  now apply String.eqb_eq.
Qed.

End PassFacts.

(** ** A reference to an endpoint stays on the origin of the page *)

Module OriginFacts.
Import URL Shape URLFacts.

Section Facts.
Context {platform : Platform}.

Lemma unreserved_clean (c : ascii) : uri_unreserved c = true -> clean c = true.
Proof. all_chars c. Qed.

Lemma upper_hex_clean (c : ascii) : upper_hex c = true -> clean c = true.
Proof. all_chars c. Qed.

Lemma component_encoded_clean : forall n s,
  String.length s <= n -> component_encoded s = true ->
  Str.forallb clean s = true.
Proof.
  induction n as [|n IH]; intros s L H.
  - destruct s; [reflexivity | simpl in L; lia].
  - destruct s as [|c r]; [reflexivity|]. cbn [component_encoded] in H.
    destruct (Ascii.eqb c "%") eqn:E.
    + apply Ascii.eqb_eq in E; subst c.
      destruct r as [|h [|l r']]; try discriminate.
      apply andb_true_iff in H. destruct H as [H R].
      apply andb_true_iff in H. destruct H as [A B].
      cbn [Str.forallb]. rewrite (upper_hex_clean _ A), (upper_hex_clean _ B).
      rewrite (IH r'); [reflexivity | simpl in L; lia | exact R].
    + apply andb_true_iff in H. destruct H as [U R].
      cbn [Str.forallb]. rewrite (unreserved_clean _ U).
      apply (IH r); [simpl in L; lia | exact R].
Qed.

Lemma forallb_rev_acc (p : ascii -> bool) : forall s acc,
  Str.forallb p (Str.rev_acc s acc) = Str.forallb p s && Str.forallb p acc.
Proof.
  induction s as [|c s IH]; intros acc; simpl; [reflexivity|].
  rewrite IH. simpl. now rewrite andb_assoc, (andb_comm (p c)).
Qed.

Lemma forallb_rev (p : ascii -> bool) (s : string) :
  Str.forallb p (Str.rev s) = Str.forallb p s.
Proof. unfold Str.rev. rewrite forallb_rev_acc. simpl. apply andb_true_r. Qed.

Lemma rev_acc_rev_acc : forall s a b,
  Str.rev_acc (Str.rev_acc s a) b = Str.rev_acc a (s ++ b).
Proof.
  induction s as [|c s IH]; intros a b; simpl; [reflexivity|].
  now rewrite IH.
Qed.

Lemma rev_involutive (s : string) : Str.rev (Str.rev s) = s.
Proof.
  unfold Str.rev. rewrite rev_acc_rev_acc. simpl. apply append_nil_r.
Qed.

Lemma strip_leading_clean (s : string) :
  Str.forallb clean s = true -> strip_leading c0_control_or_space s = s.
Proof.
  destruct s as [|c r]; [reflexivity|]. simpl. intros H.
  apply andb_true_iff in H. destruct H as [C _].
  unfold clean in C. unfold c0_control_or_space.
  now destruct (Chr.code c <=? 32)%N.
Qed.

Lemma clean_not_tab (c : ascii) : clean c = true -> tab_or_newline c = false.
Proof. all_chars c. Qed.

Lemma filter_clean (s : string) :
  Str.forallb clean s = true ->
  Str.filter (fun c => negb (tab_or_newline c)) s = s.
Proof.
  induction s as [|c r IH]; [reflexivity|]. simpl. intros H.
  apply andb_true_iff in H. destruct H as [C R].
  rewrite (clean_not_tab _ C). simpl. now rewrite IH.
Qed.

(** The parser's preparation of the input leaves a clean text alone. *)
Lemma preprocess_clean (s : string) :
  Str.forallb clean s = true ->
  Str.filter (fun c => negb (tab_or_newline c))
             (strip_both c0_control_or_space s) = s.
Proof.
  intros H. unfold strip_both.
  rewrite (strip_leading_clean s H).
  rewrite strip_leading_clean; [|now rewrite forallb_rev].
  rewrite rev_involutive. now apply filter_clean.
Qed.

(** *** The path of a URL parsed without a base, in a special scheme *)

Lemma push_segment_segmented u b slash :
  segmented u -> segmented (push_segment u b slash).
Proof.
  unfold segmented, push_segment, has_opaque_path, shorten_path,
    append_segment.
  intros S. destruct (path u) as [text|l] eqn:P; [discriminate|].
  destruct (is_double_dot b).
  - destruct l as [|x [|y l]]; cbn;
      try (destruct (_ && _); cbn; rewrite ?P); destruct slash; cbn;
      rewrite ?P; reflexivity.
  - destruct (is_single_dot b); [destruct slash|]; cbn; rewrite ?P;
      reflexivity.
Qed.

Lemma query_state_segmented u s : segmented u -> segmented (query_state u s).
Proof.
  unfold segmented, has_opaque_path, query_state.
  destruct (span_until _ s) as [q rest]. destruct rest; auto.
Qed.

Lemma path_state_segmented s : forall u b,
  segmented u -> segmented (path_state u b s).
Proof.
  induction s as [|c s IH]; intros u b S; simpl.
  - now apply push_segment_segmented.
  - destruct (is_slash _ c); [apply IH; now apply push_segment_segmented|].
    destruct (Ascii.eqb c "?").
    + apply query_state_segmented.
      now apply (push_segment_segmented u b false) in S.
    + destruct (Ascii.eqb c "#"); [|now apply IH].
      now apply (push_segment_segmented u b false) in S.
Qed.

Lemma path_start_state_segmented u s :
  segmented u -> segmented (path_start_state u s).
Proof.
  intros S. unfold path_start_state. destruct s as [|c s].
  - destruct (is_special u); [now apply path_state_segmented | exact S].
  - destruct (is_special u).
    + destruct (is_slash true c); now apply path_state_segmented.
    + destruct (Ascii.eqb c "?"); [now apply query_state_segmented|].
      destruct (Ascii.eqb c "#"); [exact S|].
      destruct (Ascii.eqb c "/"); now apply path_state_segmented.
Qed.

Lemma port_state_segmented u s : segmented u -> keeps_segmented (port_state u s).
Proof.
  intros S v. unfold port_state. destruct (span_until _ s) as [buffer rest].
  destruct (at_authority_end _ rest); [|discriminate].
  destruct buffer.
  - intros H; inversion H. now apply path_start_state_segmented.
  - destruct (_ <? _)%N; [discriminate|].
    intros H; inversion H. now apply path_start_state_segmented.
Qed.

Lemma host_state_segmented u s : segmented u -> keeps_segmented (host_state u s).
Proof.
  intros S v. unfold host_state.
  destruct (host_scan _ _ s) as [buffer [rest|rest]].
  - destruct (String.eqb buffer ""); [discriminate|].
    destruct (host_parse _ _); [|discriminate].
    now apply port_state_segmented.
  - destruct (_ && _); [discriminate|].
    destruct (host_parse _ _); [|discriminate].
    intros H; inversion H. now apply path_start_state_segmented.
Qed.

Lemma authority_state_segmented u s :
  segmented u -> keeps_segmented (authority_state u s).
Proof.
  intros S v. unfold authority_state.
  destruct (span_until _ s) as [authority rest].
  destruct (split_last_at authority) as [[credentials hostport]|];
    [|now apply host_state_segmented].
  destruct (String.eqb hostport ""); [discriminate|].
  destruct (span_until _ credentials) as [user after].
  now apply host_state_segmented.
Qed.

Lemma ignore_slashes_segmented s : forall u,
  segmented u -> keeps_segmented (special_authority_ignore_slashes_state u s).
Proof.
  induction s as [|c s IH]; intros u S; simpl.
  - now apply authority_state_segmented.
  - destruct (is_slash true c);
      [now apply IH | now apply authority_state_segmented].
Qed.

Lemma special_authority_slashes_segmented u s :
  segmented u -> keeps_segmented (special_authority_slashes_state u s).
Proof.
  intros S. unfold special_authority_slashes_state.
  destruct s as [|c s]; [now apply ignore_slashes_segmented|].
  destruct c as [[] [] [] [] [] [] [] []];
    try (now apply ignore_slashes_segmented).
  destruct s as [|d s]; [now apply ignore_slashes_segmented|].
  destruct d as [[] [] [] [] [] [] [] []];
    now apply ignore_slashes_segmented.
Qed.

(** A URL with scheme [http] or [https] parsed without a base has a path
    made of segments. *)
Lemma base_less_http_segmented input u :
  basic_parse input None = Some u -> http_like u -> segmented u.
Proof.
  unfold basic_parse. set (s := Str.filter _ _). clearbody s.
  destruct (split_scheme s) as [[sch rest]|]; [|discriminate].
  destruct (String.eqb sch "file") eqn:F.
  { intros H [E|E]; rewrite (file_state_scheme _ _ _ _ H) in E;
      discriminate. }
  destruct (is_special_scheme sch) eqn:Sp.
  - intros H _.
    assert (S0 : segmented (with_scheme blank sch)) by reflexivity.
    apply (special_authority_slashes_segmented _ _ S0 _ H).
  - intros H L. exfalso.
    assert (E : scheme u = sch).
    { destruct rest as [|c rest].
      - inversion H. now rewrite opaque_path_state_scheme.
      - destruct c as [[] [] [] [] [] [] [] []];
          try (inversion H; now rewrite opaque_path_state_scheme).
        now apply (path_or_authority_scheme _ _ _ H). }
    rewrite <- E in Sp. destruct L as [L|L]; rewrite L in Sp; discriminate.
Qed.

Lemma origin_same_authority u v :
  same_authority u v -> http_like u -> origin v = origin u.
Proof.
  intros (S & H & P) L. unfold origin, is_special, tuple_origin.
  rewrite S, H, P. destruct L as [L|L]; rewrite L; reflexivity.
Qed.

(** Resolving a clean text that starts with a slash followed by a letter
    other than a slash keeps the authority of the base. *)
Lemma resolve_path_absolute (c : ascii) (r : string) (u : t) :
  Str.forallb clean (String "/" (String c r)) = true ->
  is_slash true c = false ->
  http_like u -> segmented u ->
  exists v, basic_parse (String "/" (String c r)) (Some u) = Some v
            /\ same_authority u v.
Proof.
  intros C NS L S. unfold basic_parse. rewrite (preprocess_clean _ C).
  cbn [split_scheme]. replace (Chr.is_alpha "/") with false by reflexivity.
  unfold no_scheme_state. unfold segmented in S. rewrite S.
  assert (F : String.eqb (scheme u) "file" = false).
  { destruct L as [L|L]; now rewrite L. }
  rewrite F. unfold relative_state.
  replace (is_slash (is_special (with_scheme blank (scheme u))) "/")
    with true by (unfold is_slash; reflexivity).
  unfold relative_slash_state. rewrite NS, andb_false_r.
  assert (E : Ascii.eqb c "/" = false).
  { unfold is_slash in NS. apply orb_false_iff in NS. apply NS. }
  rewrite E. eexists. split; [reflexivity|].
  eapply same_authority_trans; [|apply path_state_authority].
  now repeat split.
Qed.

End Facts.

End OriginFacts.

(** ** The resolver *)

Section Resolver.
Context {platform : Platform}.














End Resolver.



Section RewrittenValues.
Context {platform : Platform}.

Lemma endpoint_ref_shape (v : string) :
  endpoint_ref v = true ->
  exists c r, v = String "/" (String c r)
              /\ URL.is_slash true c = false
              /\ Str.forallb Shape.clean v = true.
Proof.
  unfold endpoint_ref, navigate_ref, asset_reference. intros H.
  apply orb_true_iff in H. destruct H as [H|H].
  - destruct (Str.strip_prefix "/proxy?url=" v) as [e|] eqn:P;
      [|discriminate].
    apply strip_prefix_spec in P. subst v.
    exists "p"%char, ("roxy?url=" ++ e). repeat split.
    rewrite forallb_append.
    now rewrite (OriginFacts.component_encoded_clean _ e (le_n _) H).
  - destruct (Str.strip_prefix "/asset?url=" v) as [e|] eqn:P;
      [|discriminate].
    apply strip_prefix_spec in P. subst v.
    exists "a"%char, ("sset?url=" ++ e). repeat split.
    rewrite forallb_append.
    now rewrite (OriginFacts.component_encoded_clean _ e (le_n _) H).
Qed.

(** On a page served over [http] or [https], a reference to an endpoint
    resolves, and to the origin of the page. *)
Lemma endpoint_ref_same_origin (page v : string) (u : URL.t) :
  URL.new page None = Some u ->
  URL.scheme u = "http" \/ URL.scheme u = "https" ->
  endpoint_ref v = true ->
  exists u', URL.new v (Some page) = Some u' /\ URL.origin u' = URL.origin u.
Proof.
  intros P L E. destruct (endpoint_ref_shape v E) as (c & r & V & NS & C).
  subst v. unfold URL.new in *. rewrite P.
  pose proof (OriginFacts.base_less_http_segmented _ _ P L) as S.
  destruct (OriginFacts.resolve_path_absolute c r u C NS L S) as (u' & R & A).
  exists u'. split; [exact R|].
  now apply OriginFacts.origin_same_authority.
Qed.

Lemma anchor_href_written (base v0 v : string) :
  anchor_href base v0 = Some v ->
  v0 <> ""
  /\ Str.startsWith "#" v0 = false
  /\ Str.startsWith "javascript:" v0 = false
  /\ exists abs, absoluteUrl base v0 = Some abs
                 /\ v = "/proxy?url=" ++ encodeURIComponent abs.
Proof.
  unfold anchor_href, truthy.
  destruct (String.eqb v0 "") eqn:E; [discriminate|]. cbn [negb].
  apply String.eqb_neq in E.
  destruct (Str.startsWith "#" v0); [discriminate|]. cbn [orb].
  destruct (Str.startsWith "javascript:" v0); [discriminate|].
  rewrite resolved_is_absoluteUrl.
  destruct (absoluteUrl base v0) as [abs|]; [|discriminate].
  intros H; inversion H. repeat split; auto. now exists abs.
Qed.

Lemma asset_src_written (base v0 v : string) :
  asset_src base v0 = Some v ->
  exists abs, absoluteUrl base v0 = Some abs
              /\ v = "/asset?url=" ++ encodeURIComponent abs.
Proof.
  unfold asset_src. rewrite resolved_is_absoluteUrl.
  destruct (absoluteUrl base v0) as [abs|]; [|discriminate].
  intros H; inversion H. now exists abs.
Qed.

Lemma link_href_written (base : string) rel (v0 v : string) :
  link_href base rel v0 = Some v ->
  exists abs, absoluteUrl base v0 = Some abs
              /\ (v = "/asset?url=" ++ encodeURIComponent abs
                  \/ v = "/proxy?url=" ++ encodeURIComponent abs).
Proof.
  unfold link_href. rewrite resolved_is_absoluteUrl.
  destruct (absoluteUrl base v0) as [abs|]; [|discriminate].
  destruct (_ || _); intros H; inversion H; exists abs; auto.
Qed.

Lemma style_value_written (base v0 v : string) :
  style_value base v0 = Some v -> style_rewritten base v0 v.
Proof.
  intros H.
  pose proof (style_rule_rewritten base (String.length v0) v0 (le_n _)) as R.
  unfold apply_rule in R. now rewrite H in R.
Qed.

Lemma srcset_value_written (base v0 v : string) :
  srcset_value base v0 = Some v -> v = srcset_new_value base v0.
Proof.
  intros H. rewrite <- srcset_rule_value. unfold apply_rule. now rewrite H.
Qed.

(** The attributes of the document, place by place, through the six
    passes. *)
Lemma attributes_after_rules (base : string) (d : Dom.document) :
  Forall2 (attribute_rewritten base)
          (Dom.attributes d) (Dom.attributes (rewrite_rules base d)).
Proof.
  unfold rewrite_rules, rewrite_srcsets, rewrite_styles, rewrite_links,
    rewrite_scripts, rewrite_images, rewrite_anchors.
  set (Qa := fun t v0 v : string =>
               t = "a"
               /\ v0 <> ""
               /\ Str.startsWith "#" v0 = false
               /\ Str.startsWith "javascript:" v0 = false
               /\ exists abs, absoluteUrl base v0 = Some abs
                              /\ v = "/proxy?url=" ++ encodeURIComponent abs).
  set (Qi := fun t v0 v : string =>
               t = "img" /\ exists abs, absoluteUrl base v0 = Some abs
                          /\ v = "/asset?url=" ++ encodeURIComponent abs).
  set (Qs := fun t v0 v : string =>
               t = "script" /\ exists abs, absoluteUrl base v0 = Some abs
                          /\ v = "/asset?url=" ++ encodeURIComponent abs).
  set (Ql := fun t v0 v : string =>
               t = "link" /\ exists abs, absoluteUrl base v0 = Some abs
                          /\ (v = "/asset?url=" ++ encodeURIComponent abs
                              \/ v = "/proxy?url=" ++ encodeURIComponent abs)).
  set (Qy := fun _ v0 v : string => style_rewritten base v0 v).
  set (Qc := fun t v0 v : string =>
               t = "img" /\ v = srcset_new_value base v0).
  set (d1 := Dom.each (Dom.tag_with "a" "href") _ d).
  set (d2 := Dom.each (Dom.tag_with "img" "src") _ d1).
  set (d3 := Dom.each (Dom.tag_with "script" "src") _ d2).
  set (d4 := Dom.each (Dom.tag_with "link" "href") _ d3).
  set (d5 := Dom.each (Dom.any_with "style") _ d4).
  set (d6 := Dom.each (Dom.tag_with "img" "srcset") _ d5).
  pose proof (PassFacts.attributes_related_after_pass
                (Dom.tag_with "a" "href") "href"
                (fun _ => anchor_href base) Qa) as P1.
  pose proof (PassFacts.attributes_related_after_pass
                (Dom.tag_with "img" "src") "src"
                (fun _ => asset_src base) Qi) as P2.
  pose proof (PassFacts.attributes_related_after_pass
                (Dom.tag_with "script" "src") "src"
                (fun _ => asset_src base) Qs) as P3.
  pose proof (PassFacts.attributes_related_after_pass
                (Dom.tag_with "link" "href") "href"
                (fun a => link_href base (Dom.attr "rel" a)) Ql) as P4.
  pose proof (PassFacts.attributes_related_after_pass
                (Dom.any_with "style") "style"
                (fun _ => style_value base) Qy) as P5.
  pose proof (PassFacts.attributes_related_after_pass
                (Dom.tag_with "img" "srcset") "srcset"
                (fun _ => srcset_value base) Qc) as P6.
  specialize (P1 ltac:(intros t a v0 v S _ R; split;
                       [now apply PassFacts.tag_with_tag in S
                       |now apply anchor_href_written]) d).
  specialize (P2 ltac:(intros t a v0 v S _ R; split;
                       [now apply PassFacts.tag_with_tag in S
                       |now apply asset_src_written]) d1).
  specialize (P3 ltac:(intros t a v0 v S _ R; split;
                       [now apply PassFacts.tag_with_tag in S
                       |now apply asset_src_written]) d2).
  specialize (P4 ltac:(intros t a v0 v S _ R; split;
                       [now apply PassFacts.tag_with_tag in S
                       |now apply link_href_written in R]) d3).
  specialize (P5 ltac:(intros t a v0 v _ _ R;
                       now apply style_value_written) d4).
  specialize (P6 ltac:(intros t a v0 v S _ R; split;
                       [now apply PassFacts.tag_with_tag in S
                       |now apply srcset_value_written]) d5).
  fold d1 in P1. fold d2 in P2. fold d3 in P3. fold d4 in P4.
  fold d5 in P5. fold d6 in P6.
  set (W1 := fun (x : string * string * string) (v : string) =>
               attr_name x = "href"
               /\ Qa (attr_tag x) (attr_value x) v).
  set (W2 := fun x v => W1 x v
               \/ (attr_name x = "src"
                   /\ Qi (attr_tag x) (attr_value x) v)).
  set (W3 := fun x v => W2 x v
               \/ (attr_name x = "src"
                   /\ Qs (attr_tag x) (attr_value x) v)).
  set (W4 := fun x v => W3 x v
               \/ (attr_name x = "href"
                   /\ Ql (attr_tag x) (attr_value x) v)).
  set (W5 := fun x v => W4 x v
               \/ (attr_name x = "style"
                   /\ Qy (attr_tag x) (attr_value x) v)).
  assert (S2 := PassFacts.one_more_pass "src" W1 Qi _ _ _
                  ltac:(unfold W1, Qa, Qi; intros; intuition congruence)
                  P1 P2).
  assert (S3 := PassFacts.one_more_pass "src" W2 Qs _ _ _
                  ltac:(unfold W2, W1, Qa, Qi, Qs; intros;
                        intuition congruence)
                  S2 P3).
  assert (S4 := PassFacts.one_more_pass "href" W3 Ql _ _ _
                  ltac:(unfold W3, W2, W1, Qa, Qi, Qs, Ql; intros;
                        intuition congruence)
                  S3 P4).
  assert (S5 := PassFacts.one_more_pass "style" W4 Qy _ _ _
                  ltac:(unfold W4, W3, W2, W1, Qa, Qi, Qs, Ql; intros;
                        intuition congruence)
                  S4 P5).
  assert (S6 := PassFacts.one_more_pass "srcset" W5 Qc _ _ _
                  ltac:(unfold W5, W4, W3, W2, W1, Qa, Qi, Qs, Ql; intros;
                        intuition congruence)
                  S5 P6).
  eapply Forall2_impl; [|exact S6].
  intros x y (T & N & V). unfold attribute_rewritten.
  split; [exact T|]. split; [exact N|].
  destruct V as [V|V]; [now left|]. right. unfold written.
  unfold W5, W4, W3, W2, W1, Qa, Qi, Qs, Ql, Qy, Qc in V.
  intuition auto.
Qed.

Lemma encodeURIComponent_append (a b : string) :
  encodeURIComponent (a ++ b)
  = encodeURIComponent a ++ encodeURIComponent b.
Proof.
  induction a as [|c a IH]; [reflexivity|]. cbn [String.append
    encodeURIComponent]. now rewrite IH, append_assoc.
Qed.

(** C1, amended.  The attributes of the document the rules produce are
    those of the input, place by place: each keeps its tag and its name,
    and either its value or the value the rules wrote for it.  What they
    write is: on an anchor [href] that is not empty and starts neither
    with [#] nor with [javascript:], [/proxy?url=] followed by the
    percent-encoded resolution of the old value; on an [img] or [script]
    [src], [/asset?url=] followed by it; on a [link] [href], one of the
    two; on a [style], the text with each reference that resolves replaced
    by [url('/asset?url=...')]; on an [img] [srcset], the candidates
    rewritten and joined.  So a value that does not resolve, an anchor that
    is skipped and every attribute outside these slots stay as they are.
    In each reference the parameter is made of unreserved characters and
    escapes; the apostrophe is among the former, also inside
    [url('...')].  A reference is no absolute URL: against any base with
    scheme [http] or [https] it resolves to the origin of that base, and so
    goes where the base of the document points.  The banner markup holds
    the base URL as given, as the [href] of its link. *)
Theorem rewritten_values_are_endpoint_refs (base : string) (d : Dom.document) :
  Forall2 (attribute_rewritten base)
          (Dom.attributes d) (Dom.attributes (rewrite_rules base d))
  /\ (forall abs,
      navigate_ref ("/proxy?url=" ++ encodeURIComponent abs) = true
      /\ asset_reference ("/asset?url=" ++ encodeURIComponent abs) = true)
  /\ (forall a b,
      encodeURIComponent (a ++ "'" ++ b)
      = encodeURIComponent a ++ "'" ++ encodeURIComponent b)
  /\ (forall docbase u v,
      URL.new docbase None = Some u ->
      URL.scheme u = "http" \/ URL.scheme u = "https" ->
      endpoint_ref v = true ->
      exists u', URL.new v (Some docbase) = Some u'
                 /\ URL.origin u' = URL.origin u)
  /\ (exists before after,
      forall b, banner_html b
                = before ++ "<a href=" ++ dq ++ b ++ dq ++ after).
Proof.
  split; [|split; [|split; [|split]]].
  - apply attributes_after_rules.
  - intros abs. split; [apply proxy_ref_navigate | apply asset_ref_asset].
  - intros a b. now rewrite !encodeURIComponent_append.
  - intros docbase u v. apply endpoint_ref_same_origin.
  - exists ("<div style=" ++ dq ++
            "position:fixed;left:0;right:0;top:0;background:rgba(0,0,0,0.55);color:#fff;padding:6px;z-index:99999;font-family:system-ui;font-size:12px;"
            ++ dq ++ ">Proxied via In-Browser Proxy — "),
           (" style=" ++ dq ++ "color:#9cf;" ++ dq ++ " target=" ++ dq
            ++ "_blank" ++ dq ++ " rel=" ++ dq ++ "noopener noreferrer"
            ++ dq ++ ">Open original</a></div>").
    intros b. reflexivity.
Qed.

End RewrittenValues.

(** C1 as stated fails.  The [src] of an [iframe] is no slot of the rules:
    it resolves, it is not skipped, and it stays as a reference to another
    origin.  A [base] element stays too, and the reference written on the
    anchor after it resolves to the origin the [base] names, not to that of
    the proxy.  And a URL with an apostrophe gives a [style] in which the
    single-quoted text ends before the reference does. *)
Lemma rewritten_page_leaves_its_origin :
  Dom.attributes (rewrite_rules "https://example.com/" page_with_frame)
  = [("iframe", "src", "https://other.example/frame")]
  /\ absoluteUrl "https://example.com/" "https://other.example/frame"
     = Some "https://other.example/frame"
  /\ Dom.attributes (rewrite_rules "https://example.com/" page_with_base)
     = [("base", "href", "https://other.example/");
        ("a", "href", "/proxy?url=https%3A%2F%2Fexample.com%2Fx")]
  /\ absoluteUrl "https://other.example/"
                 "/proxy?url=https%3A%2F%2Fexample.com%2Fx"
     = Some "https://other.example/proxy?url=https%3A%2F%2Fexample.com%2Fx"
  /\ Dom.attributes
       (rewrite_rules "https://example.com/" page_with_apostrophe)
     = [("div", "style",
         "background:url('/asset?url=https%3A%2F%2Fexample.com%2Fit's.png')")].
Proof. vm_compute. repeat split. Qed.

(* ================================================================== *)
(** * Part III: further properties of the code *)
(* ================================================================== *)

(** ** The parameter of a reference *)

Lemma percent_decode_plain (c : ascii) (s : string) :
  Ascii.eqb c "%" = false ->
  URL.percent_decode (String c s) = String c (URL.percent_decode s).
Proof.
  intros E. destruct s as [|h [|l r]]; cbn [URL.percent_decode];
    rewrite ?E; reflexivity.
Qed.

Lemma percent_byte_decodes (c : ascii) :
  Chr.is_hex (Chr.hex_digit_upper (Chr.code c / 16)) = true
  /\ Chr.is_hex (Chr.hex_digit_upper (Chr.code c mod 16)) = true
  /\ ascii_of_N (Chr.digit_value (Chr.hex_digit_upper (Chr.code c / 16)) * 16
                 + Chr.digit_value (Chr.hex_digit_upper (Chr.code c mod 16)))
     = c.
Proof. all_chars c. Qed.

Lemma percent_decode_encodeURIComponent (s : string) :
  URL.percent_decode (encodeURIComponent s) = s.
Proof.
  induction s as [|c s IH]; [reflexivity|]. cbn [encodeURIComponent].
  destruct (uri_unreserved c) eqn:U.
  - cbn [Str.of_char String.append].
    rewrite (percent_decode_plain _ _ (unreserved_not_percent _ U)).
    now rewrite IH.
  - unfold percent_byte. cbn [String.append URL.percent_decode].
    destruct (percent_byte_decodes c) as (A & B & C).
    rewrite A, B, C, Ascii.eqb_refl. cbn [andb]. now rewrite IH.
Qed.

(** X1.  Percent-decoding the parameter of a reference gives back the
    absolute URL it was built from, whatever its bytes; hence two absolute
    URLs never share a navigate reference, nor an asset reference. *)
Theorem reference_parameter_round_trip (abs abs' : string) :
  Str.strip_prefix "/proxy?url=" (proxy_ref abs)
  = Some (encodeURIComponent abs)
  /\ Str.strip_prefix "/asset?url=" (asset_ref abs)
     = Some (encodeURIComponent abs)
  /\ URL.percent_decode (encodeURIComponent abs) = abs
  /\ (proxy_ref abs = proxy_ref abs' -> abs = abs')
  /\ (asset_ref abs = asset_ref abs' -> abs = abs').
Proof.
  assert (I : encodeURIComponent abs = encodeURIComponent abs' -> abs = abs').
  { intros E. apply (f_equal URL.percent_decode) in E.
    now rewrite !percent_decode_encodeURIComponent in E. }
  repeat split; try apply strip_prefix_append.
  - apply percent_decode_encodeURIComponent.
  - unfold proxy_ref. intros E. apply I.
    pose proof (strip_prefix_append "/proxy?url=" (encodeURIComponent abs))
      as P. rewrite E, strip_prefix_append in P. now inversion P.
  - unfold asset_ref. intros E. apply I.
    pose proof (strip_prefix_append "/asset?url=" (encodeURIComponent abs))
      as P. rewrite E, strip_prefix_append in P. now inversion P.
Qed.

Lemma unreserved_ref_char (c : ascii) : uri_unreserved c = true -> ref_char c = true.
Proof. all_chars c. Qed.

Lemma percent_byte_ref_chars (c : ascii) :
  Str.forallb ref_char (percent_byte c) = true.
Proof. all_chars c. Qed.

Lemma encodeURIComponent_ref_chars (s : string) :
  Str.forallb ref_char (encodeURIComponent s) = true.
Proof.
  induction s as [|c s IH]; [reflexivity|]. cbn [encodeURIComponent].
  rewrite forallb_append, IH, andb_true_r.
  destruct (uri_unreserved c) eqn:U; [|apply percent_byte_ref_chars].
  cbn. now rewrite (unreserved_ref_char _ U).
Qed.

Lemma ref_char_is_harmless (c : ascii) :
  ref_char c = true ->
  (32 <? Chr.code c)%N = true /\ (Chr.code c <? 127)%N = true
  /\ Ascii.eqb c Chr.dquote = false /\ Chr.one_of "<>&#+ ;,\" c = false.
Proof. all_chars c. Qed.

(** X2.  A reference the rules write consists of letters, digits and the
    marks [-_.!~*'()%/?=] only: it holds no double quote, angle bracket,
    ampersand, hash, plus, comma, semicolon, space, control character or
    byte outside ASCII, so it cannot end a double-quoted attribute, open a
    tag, start a second parameter or a fragment, or split a [srcset]. *)
Theorem reference_alphabet (abs : string) :
  Str.forallb ref_char (proxy_ref abs) = true
  /\ Str.forallb ref_char (asset_ref abs) = true
  /\ (forall c, ref_char c = true ->
      (32 <? Chr.code c)%N = true /\ (Chr.code c <? 127)%N = true
      /\ Ascii.eqb c Chr.dquote = false
      /\ Chr.one_of "<>&#+ ;,\" c = false).
Proof.
  repeat split; try (now apply ref_char_is_harmless).
  - unfold proxy_ref. rewrite forallb_append, encodeURIComponent_ref_chars.
    reflexivity.
  - unfold asset_ref. rewrite forallb_append, encodeURIComponent_ref_chars.
    reflexivity.
Qed.

(** ** References that start with a slash *)

Section PathAbsoluteReferences.
Context {platform : Platform}.

(** X3.  Against a base with scheme [http] or [https], a reference that
    starts with a slash followed by a character other than a slash or a
    backslash, and that holds no space or control character, resolves, and
    the result has the origin of the base. *)
Theorem absoluteUrl_path_absolute (base : string) (u : URL.t)
        (c : ascii) (r : string) :
  URL.new base None = Some u ->
  URL.scheme u = "http" \/ URL.scheme u = "https" ->
  URL.is_slash true c = false ->
  Str.forallb Shape.clean (String "/" (String c r)) = true ->
  exists v,
    URL.new (String "/" (String c r)) (Some base) = Some v
    /\ absoluteUrl base (String "/" (String c r)) = Some (URL.toString v)
    /\ URL.origin v = URL.origin u.
Proof.
  intros P L NS C.
  pose proof (OriginFacts.base_less_http_segmented _ _ P L) as S.
  destruct (OriginFacts.resolve_path_absolute c r u C NS L S) as (v & R & A).
  assert (N : URL.new (String "/" (String c r)) (Some base) = Some v).
  { unfold URL.new in *. now rewrite P. }
  exists v. repeat split.
  - exact N.
  - unfold absoluteUrl. now rewrite N.
  - now apply OriginFacts.origin_same_authority.
Qed.

End PathAbsoluteReferences.

Lemma absoluteUrl_path_absolute_witness :
  exists v,
    URL.new "/about?x=1" (Some "https://example.com:8443/a/b") = Some v
    /\ absoluteUrl "https://example.com:8443/a/b" "/about?x=1"
       = Some (URL.toString v)
    /\ URL.origin v = "https://example.com:8443".
Proof.
  destruct (URL.new "https://example.com:8443/a/b" None) as [u|] eqn:P;
    [|discriminate].
  assert (L : URL.scheme u = "http" \/ URL.scheme u = "https").
  { right. vm_compute in P. now inversion P. }
  destruct (absoluteUrl_path_absolute "https://example.com:8443/a/b" u
              "a"%char "bout?x=1" P L eq_refl eq_refl) as (v & N & A & O).
  exists v. repeat split; try assumption.
  rewrite O. vm_compute in P. now inversion P.
Defined.

(** ** The slots of the rules, over whole documents *)

Section Slots.
Context {platform : Platform}.

Lemma asset_rule_value (base src : string) :
  apply_rule (asset_src base) src = asset_new_src base src.
Proof.
  unfold apply_rule, asset_src, asset_new_src.
  rewrite resolved_is_absoluteUrl. now destruct (absoluteUrl base src).
Qed.

(** X4.  In every document, the [src] values of the [img] elements, and
    those of the [script] elements, after rewriting are those before, each
    replaced by [/asset?url=] and its percent-encoded resolution when it
    resolves and left as it is when not.  There is no guard for the empty
    value here. *)
Theorem img_and_script_src_rewritten (base : string) (d : Dom.document) :
  slot_values "img" "src" (rewrite_rules base d)
  = List.map (option_map (asset_new_src base)) (slot_values "img" "src" d)
  /\ slot_values "script" "src" (rewrite_rules base d)
     = List.map (option_map (asset_new_src base))
                (slot_values "script" "src" d).
Proof.
  unfold rewrite_rules, rewrite_srcsets, rewrite_styles, rewrite_links,
    rewrite_scripts, rewrite_images, rewrite_anchors.
  split.
  - rewrite (DomFacts.slot_after_other_pass "img" "src" _ "srcset"
               (fun _ => srcset_value base)); [|left; discriminate].
    rewrite (DomFacts.slot_after_other_pass "img" "src" _ "style"
               (fun _ => style_value base)); [|left; discriminate].
    rewrite (DomFacts.slot_after_other_pass "img" "src" _ "href"
               (fun a => link_href base (Dom.attr "rel" a)));
      [|left; discriminate].
    rewrite (DomFacts.slot_after_other_pass "img" "src" _ "src"
               (fun _ => asset_src base)); [|right; reflexivity].
    rewrite (DomFacts.slot_after_own_pass "img" "src"
               (fun _ => asset_src base) (asset_new_src base));
      [|intros a v _; apply asset_rule_value].
    now rewrite (DomFacts.slot_after_other_pass "img" "src" _ "href"
                   (fun _ => anchor_href base)); [|left; discriminate].
  - rewrite (DomFacts.slot_after_other_pass "script" "src" _ "srcset"
               (fun _ => srcset_value base)); [|left; discriminate].
    rewrite (DomFacts.slot_after_other_pass "script" "src" _ "style"
               (fun _ => style_value base)); [|left; discriminate].
    rewrite (DomFacts.slot_after_other_pass "script" "src" _ "href"
               (fun a => link_href base (Dom.attr "rel" a)));
      [|left; discriminate].
    rewrite (DomFacts.slot_after_own_pass "script" "src"
               (fun _ => asset_src base) (asset_new_src base));
      [|intros a v _; apply asset_rule_value].
    rewrite (DomFacts.slot_after_other_pass "script" "src" _ "src"
               (fun _ => asset_src base)); [|right; reflexivity].
    now rewrite (DomFacts.slot_after_other_pass "script" "src" _ "href"
                   (fun _ => anchor_href base)); [|left; discriminate].
Qed.

(** X5.  The rules leave every attribute outside their six slots as it
    is: for a tag and an attribute name that are none of [a href],
    [img src], [script src], [link href], [style] on any tag and
    [img srcset], the values in the rewritten document are those of the
    input.  So the [src] of an [iframe], [video] or [source], the [action]
    of a [form], the [href] of an [area] or [base] are never rewritten. *)
Theorem other_slots_untouched (base tag name : string) (d : Dom.document) :
  rewritten_slot tag name = false ->
  slot_values tag name (rewrite_rules base d) = slot_values tag name d.
Proof.
  unfold rewritten_slot. intros H.
  apply orb_false_iff in H. destruct H as [H Hsrcset].
  apply orb_false_iff in H. destruct H as [H Hstyle].
  apply orb_false_iff in H. destruct H as [H Hlink].
  apply orb_false_iff in H. destruct H as [H Hscript].
  apply orb_false_iff in H. destruct H as [Hanchor Himg].
  assert (T : forall t n,
             String.eqb tag t && String.eqb name n = false ->
             n <> name \/ forall a, Dom.tag_with t n tag a = false).
  { intros t n E. apply andb_false_iff in E. destruct E as [E|E].
    - right. intros a. unfold Dom.tag_with. now rewrite E.
    - left. apply String.eqb_neq in E. congruence. }
  unfold rewrite_rules, rewrite_srcsets, rewrite_styles, rewrite_links,
    rewrite_scripts, rewrite_images, rewrite_anchors.
  rewrite (DomFacts.slot_after_other_pass tag name _ "srcset"
             (fun _ => srcset_value base)); [|now apply T].
  rewrite (DomFacts.slot_after_other_pass tag name _ "style"
             (fun _ => style_value base));
    [|left; apply String.eqb_neq in Hstyle; congruence].
  rewrite (DomFacts.slot_after_other_pass tag name _ "href"
             (fun a => link_href base (Dom.attr "rel" a))); [|now apply T].
  rewrite (DomFacts.slot_after_other_pass tag name _ "src"
             (fun _ => asset_src base)); [|now apply T].
  rewrite (DomFacts.slot_after_other_pass tag name _ "src"
             (fun _ => asset_src base)); [|now apply T].
  now rewrite (DomFacts.slot_after_other_pass tag name _ "href"
                 (fun _ => anchor_href base)); [|now apply T].
Qed.

End Slots.

Lemma other_slots_untouched_witness :
  slot_values "iframe" "src"
    (rewrite_rules "https://example.com/" page_with_frame)
  = slot_values "iframe" "src" page_with_frame.
Proof.
  apply (other_slots_untouched "https://example.com/" "iframe" "src").
  reflexivity.
Defined.

(** ** The shape of the document *)

Section DocumentShape.
Context {platform : Platform}.

Lemma set_attr_names name v a v0 :
  Dom.attr name a = Some v0 ->
  List.map (fun kv : string * string => (fst kv, "")) (Dom.set_attr name v a)
  = List.map (fun kv => (fst kv, "")) a.
Proof.
  induction a as [|[k w] a IH]; simpl; [discriminate|].
  destruct (String.eqb k name) eqn:E; simpl; [reflexivity|].
  intros H. now rewrite IH.
Qed.

Lemma update_attr_names name rule a :
  List.map (fun kv : string * string => (fst kv, "")) (update_attr name rule a)
  = List.map (fun kv => (fst kv, "")) a.
Proof.
  unfold update_attr. destruct (Dom.attr name a) as [v0|] eqn:E;
    [|reflexivity].
  destruct (rule v0); [now apply (set_attr_names _ _ _ v0) | reflexivity].
Qed.

Lemma shape_after_pass (sel : Dom.selector) (name : string)
      (rule : Dom.attribs -> string -> option string) (d : Dom.document) :
  List.map shape (Dom.each sel (fun a => update_attr name (rule a) a) d)
  = List.map shape d.
Proof.
  unfold Dom.each. rewrite List.map_map. apply List.map_ext.
  apply (DomFacts.node_induction
           (fun n => shape (Dom.each_node sel
                              (fun a => update_attr name (rule a) a) n)
                     = shape n)); try reflexivity.
  intros t a children F. cbn [Dom.each_node shape]. f_equal.
  - destruct (sel t a); [apply update_attr_names | reflexivity].
  - rewrite List.map_map. induction F as [|c l E F IH]; [reflexivity|].
    simpl. now rewrite E, IH.
Qed.

(** X6.  The rules change attribute values only: the rewritten document
    has the elements of the input in the same nesting and order, with the
    same tags, the same attribute names in the same order, and the same
    text. *)
Theorem rules_keep_shape (base : string) (d : Dom.document) :
  List.map shape (rewrite_rules base d) = List.map shape d
  /\ List.length (rewrite_rules base d) = List.length d.
Proof.
  assert (S : List.map shape (rewrite_rules base d) = List.map shape d).
  { unfold rewrite_rules, rewrite_srcsets, rewrite_styles, rewrite_links,
      rewrite_scripts, rewrite_images, rewrite_anchors.
    rewrite (shape_after_pass _ "srcset" (fun _ => srcset_value base)).
    rewrite (shape_after_pass _ "style" (fun _ => style_value base)).
    rewrite (shape_after_pass _ "href"
               (fun a => link_href base (Dom.attr "rel" a))).
    rewrite (shape_after_pass _ "src" (fun _ => asset_src base)).
    rewrite (shape_after_pass _ "src" (fun _ => asset_src base)).
    apply (shape_after_pass _ "href" (fun _ => anchor_href base)). }
  split; [exact S|].
  apply (f_equal (@List.length _)) in S. now rewrite !List.length_map in S.
Qed.

End DocumentShape.

(** ** The banner *)

Section Banner.
Context {platform : Platform}.

Lemma skipn_app_length {A} (k : nat) (l r : list A) :
  List.length l = k -> List.skipn k (l ++ r) = r.
Proof.
  intros E. subst k. induction l as [|x l IH]; [reflexivity | exact IH].
Qed.

Lemma drop_first_prepend (sel : Dom.selector) (frag : list Dom.node)
      (d : Dom.document) :
  drop_first sel (List.length frag) (Dom.prepend sel frag d) = d.
Proof.
  unfold drop_first, Dom.prepend. rewrite List.map_map.
  rewrite <- (List.map_id d) at 2. apply List.map_ext.
  apply (DomFacts.node_induction
           (fun n => drop_first_node sel (List.length frag)
                       (Dom.prepend_node sel frag n) = n)); try reflexivity.
  intros t a children F. cbn [Dom.prepend_node drop_first_node]. f_equal.
  assert (M : List.map (drop_first_node sel (List.length frag))
                       (List.map (Dom.prepend_node sel frag) children)
              = children).
  { rewrite <- (List.map_id children) at 2. rewrite List.map_map.
    induction F as [|c l H F IH]; [reflexivity|]. simpl.
    now rewrite H, IH. }
  rewrite List.map_app, M. destruct (sel t a); [|reflexivity].
  apply skipn_app_length, List.length_map.
Qed.

Lemma prepend_without_target (sel : Dom.selector) (frag : list Dom.node)
      (d : Dom.document) :
  Dom.select sel d = [] -> Dom.prepend sel frag d = d.
Proof.
  unfold Dom.select, Dom.prepend. intros H.
  rewrite <- (List.map_id d) at 2.
  assert (N : forall n, Dom.select_node sel n = [] ->
                        Dom.prepend_node sel frag n = n).
  { apply (DomFacts.node_induction
             (fun n => Dom.select_node sel n = [] ->
                       Dom.prepend_node sel frag n = n)); try reflexivity.
    intros t a children F E. cbn [Dom.select_node] in E.
    apply app_eq_nil in E. destruct E as [E1 E2].
    cbn [Dom.prepend_node]. destruct (sel t a); [discriminate|].
    cbn [app]. f_equal. rewrite <- (List.map_id children) at 2.
    induction F as [|c l Hc F IH]; [reflexivity|]. simpl in *.
    apply app_eq_nil in E2. destruct E2 as [E2 E3].
    now rewrite (Hc E2), (IH E3). }
  induction d as [|n d IH]; [reflexivity|]. simpl in *.
  apply app_eq_nil in H. destruct H as [H1 H2].
  now rewrite (N n H1), (IH H2).
Qed.

(** X7.  The banner is a pure insertion.  Whatever markup parser is
    used, dropping from every [body] of the page as many first children
    as the banner has nodes gives back the document the rules produced, so
    no element that was there is moved or changed; and a document without
    [body] gets no banner at all. *)
Theorem banner_is_an_insertion (fragment : string -> list Dom.node)
        (base : string) (d : Dom.document) :
  drop_first (Dom.tag_is "body") (List.length (fragment (banner_html base)))
             (rewrite_page fragment base d)
  = rewrite_rules base d
  /\ (Dom.select (Dom.tag_is "body") (rewrite_rules base d) = [] ->
      rewrite_page fragment base d = rewrite_rules base d).
Proof.
  unfold rewrite_page. split.
  - apply drop_first_prepend.
  - apply prepend_without_target.
Qed.

End Banner.

(** ** The page load *)

Section PageLoad.
Context {platform : Platform}.

(** X8.  For a request with a non-empty [url], the page load answers:
    500 [Proxy failed] when the fetch rejects; for an upstream that
    declares [text/html], 200 with the content type forced to
    [text/html; charset=utf-8], whatever the upstream declared, and the
    serialized rewritten page, or 500 when reading the body fails; for any
    other upstream, 500 when the second fetch rejects, and, where the second
    body cannot be piped, 200 with that body or 500 when reading it fails.
    No failure answer carries a header or an upstream byte. *)
Theorem page_load_response (load_raw : string -> Dom.document)
        (fragment : string -> list Dom.node) (html : Dom.document -> string)
        (net : network) (url : string) :
  url <> "" ->
  let failed := {| status := 500; headers := [];
                   body := Sent "Proxy failed" |} in
  let answer := run (proxy_handler load_raw fragment html (Some url)) net in
  (net 0 url = Rejected -> answer = failed)
  /\ (forall r, net 0 url = Resolved r ->
      Str.includes "text/html" (declared_type r) = true ->
      (up_intact r = true ->
       answer = {| status := 200;
                   headers := [("Content-Type", "text/html; charset=utf-8")];
                   body := Sent (html (rewrite_page fragment url
                                         (load_raw (up_bytes r)))) |})
      /\ (up_intact r = false -> answer = failed))
  /\ (forall r, net 0 url = Resolved r ->
      Str.includes "text/html" (declared_type r) = false ->
      (net 1 url = Rejected -> answer = failed)
      /\ (forall r2, net 1 url = Resolved r2 -> up_pipeable r2 = false ->
          (up_intact r2 = true ->
           answer = {| status := 200; headers := [];
                       body := Sent (up_bytes r2) |})
          /\ (up_intact r2 = false -> answer = failed))).
Proof.
  intros N failed answer. subst failed answer. apply String.eqb_neq in N.
  unfold proxy_handler, declared_type, truthy in *. rewrite N. cbn [negb].
  repeat split.
  - intros H. run_handler. now rewrite H.
  - intros I. run_handler. rewrite H. cbn. rewrite H0. cbn. now rewrite I.
  - intros I. run_handler. rewrite H. cbn. rewrite H0. cbn. now rewrite I.
  - intros H2. run_handler. rewrite H. cbn. rewrite H0. cbn. now rewrite H2.
  - intros I. run_handler. rewrite H. cbn. rewrite H0. cbn. rewrite H1. cbn.
    now rewrite H2, I.
  - intros I. run_handler. rewrite H. cbn. rewrite H0. cbn. rewrite H1. cbn.
    now rewrite H2, I.
Qed.

End PageLoad.

Lemma page_load_response_witness :
  run (proxy_handler (fun _ => page_without_head) (fun _ => [])
                     (fun _ => "<html>") (Some "https://example.com/"))
      (steady html_page)
  = {| status := 200;
       headers := [("Content-Type", "text/html; charset=utf-8")];
       body := Sent "<html>" |}.
Proof.
  assert (N : "https://example.com/" <> "") by discriminate.
  destruct (page_load_response (fun _ => page_without_head) (fun _ => [])
              (fun _ => "<html>") (steady html_page)
              "https://example.com/" N) as (_ & H & _).
  destruct (H html_page eq_refl eq_refl) as [K _].
  exact (K eq_refl).
Defined.

(** ** Status codes and upstream calls *)

Section StatusAndCalls.
Context {platform : Platform}.

Lemma missing_iff_not_truthy (url : option string) :
  url_missing url <-> truthy_opt url = false.
Proof.
  unfold url_missing, truthy_opt, truthy. split.
  - intros [E|E]; subst; reflexivity.
  - destruct url as [u|]; [|now left]. intros H. right.
    destruct (String.eqb u "") eqn:E; [|discriminate].
    apply String.eqb_eq in E. now subst.
Qed.





Lemma meta_fetches (load : string -> Dom.document) net url :
  fetches (meta_handler load url) net = if truthy_opt url then 1 else 0.
Proof.
  unfold fetches, meta_handler, truthy_opt.
  destruct url as [u|]; [|reflexivity].
  destruct (truthy u); [|reflexivity].
  run_handler. destruct (net 0 u) as [|r]; [reflexivity|].
  destruct (up_intact r); reflexivity.
Qed.

Lemma asset_fetches net url :
  fetches (asset_handler url) net = if truthy_opt url then 1 else 0.
Proof.
  unfold fetches, asset_handler, truthy_opt.
  destruct url as [u|]; [|reflexivity].
  destruct (truthy u); [|reflexivity].
  run_handler. destruct (net 0 u) as [|r]; [reflexivity|]. cbn.
  destruct (up_content_type r) as [ct|]; [destruct (truthy ct)|]; cbn;
    destruct (up_pipeable r); cbn; try reflexivity;
    destruct (up_intact r); reflexivity.
Qed.

Lemma proxy_fetches load_raw fragment html net url :
  fetches (proxy_handler load_raw fragment html url) net
  = match url with
    | Some u =>
        if truthy u then
          match net 0 u with
          | Resolved r =>
              if Str.includes "text/html" (declared_type r) then 1 else 2
          | Rejected => 1
          end
        else 0
    | None => 0
    end.
Proof.
  unfold fetches, proxy_handler, declared_type.
  destruct url as [u|]; [|reflexivity].
  destruct (truthy u); [|reflexivity].
  run_handler. destruct (net 0 u) as [|r]; [reflexivity|]. cbn.
  destruct (Str.includes _ _); cbn.
  - destruct (up_intact r); reflexivity.
  - destruct (net 1 u) as [|r2]; [reflexivity|]. cbn.
    destruct (up_pipeable r2); cbn; [reflexivity|].
    destruct (up_intact r2); reflexivity.
Qed.

(** X10.  There is no retry and no call without an address: a request
    without [url] reaches no upstream; otherwise the metadata lookup and the
    asset relay call [fetch] exactly once, and the page load once, or twice
    exactly when the first call resolved with a content type that does not
    declare [text/html]. *)
Theorem handler_upstream_calls (load load_raw : string -> Dom.document)
        (fragment : string -> list Dom.node) (html : Dom.document -> string)
        (net : network) (url : option string) :
  (url_missing url ->
   fetches (meta_handler load url) net = 0
   /\ fetches (asset_handler url) net = 0
   /\ fetches (proxy_handler load_raw fragment html url) net = 0)
  /\ (forall u, url = Some u -> u <> "" ->
      fetches (meta_handler load url) net = 1
      /\ fetches (asset_handler url) net = 1
      /\ (fetches (proxy_handler load_raw fragment html url) net = 1
          \/ fetches (proxy_handler load_raw fragment html url) net = 2)
      /\ (fetches (proxy_handler load_raw fragment html url) net = 2
          <-> exists r, net 0 u = Resolved r
                        /\ Str.includes "text/html" (declared_type r)
                           = false)).
Proof.
  rewrite meta_fetches, asset_fetches, proxy_fetches. split.
  - intros M. apply missing_iff_not_truthy in M. rewrite M.
    repeat split. destruct url as [u|]; [|reflexivity].
    unfold truthy_opt in M. now rewrite M.
  - intros u E N. subst url. apply String.eqb_neq in N.
    unfold truthy_opt, truthy. rewrite N. cbn [negb].
    repeat split.
    + destruct (net 0 u) as [|r]; [now left|].
      destruct (Str.includes _ _); auto.
    + destruct (net 0 u) as [|r]; [discriminate|].
      destruct (Str.includes _ _) eqn:I; [discriminate|]. eauto.
    + intros (r & H & I). now rewrite H, I.
Qed.

End StatusAndCalls.

(** ** The metadata of a page *)

Section PageMetadata.
Context {platform : Platform}.

(** X11.  With a non-empty [url] the title is never empty.  It is the
    Open Graph title when that is there and not empty, whatever the
    [title] element says; failing that the text of the first [title]
    element when not empty; failing that the [url]. *)
Theorem meta_title_precedence (url : string) (d : Dom.document) :
  url <> "" ->
  meta_title url d <> ""
  /\ (forall t, og_title d = Some t -> t <> "" -> meta_title url d = t)
  /\ (og_title d = None \/ og_title d = Some "" ->
      (Dom.first_text (Dom.tag_is "title") d <> "" ->
       meta_title url d = Dom.first_text (Dom.tag_is "title") d)
      /\ (Dom.first_text (Dom.tag_is "title") d = "" ->
          meta_title url d = url)).
Proof.
  intros N. unfold meta_title, og_title. cbn [first_truthy].
  set (og := Dom.first_attr _ "content" d).
  set (tt := Dom.first_text (Dom.tag_is "title") d).
  unfold truthy_opt, truthy. repeat split.
  - destruct og as [t|].
    + destruct (String.eqb t "") eqn:E; cbn.
      * destruct (String.eqb tt "") eqn:E2; cbn; [exact N|].
        now apply String.eqb_neq.
      * now apply String.eqb_neq.
    + destruct (String.eqb tt "") eqn:E2; cbn; [exact N|].
      now apply String.eqb_neq.
  - intros t E T. rewrite E. apply String.eqb_neq in T. now rewrite T.
  - intros T. apply String.eqb_neq in T.
    destruct H as [H|H]; rewrite H; cbn; now rewrite T.
  - intros T. destruct H as [H|H]; rewrite H, T; reflexivity.
Qed.

End PageMetadata.

Lemma meta_title_precedence_witness :
  meta_title "https://example.com/" page_with_title <> ""
  /\ (forall t, og_title page_with_title = Some t -> t <> "" ->
      meta_title "https://example.com/" page_with_title = t)
  /\ (og_title page_with_title = None \/ og_title page_with_title = Some "" ->
      (Dom.first_text (Dom.tag_is "title") page_with_title <> "" ->
       meta_title "https://example.com/" page_with_title
       = Dom.first_text (Dom.tag_is "title") page_with_title)
      /\ (Dom.first_text (Dom.tag_is "title") page_with_title = "" ->
          meta_title "https://example.com/" page_with_title
          = "https://example.com/")).
Proof.
  apply (meta_title_precedence "https://example.com/" page_with_title).
  discriminate.
Defined.

Section PageMetadata.
Context {platform : Platform}.

Lemma select_narrower (sel sel' : Dom.selector) (d : Dom.document) :
  (forall n a, sel n a = true -> sel' n a = true) ->
  Dom.select sel' d = [] -> Dom.select sel d = [].
Proof.
  intros W. unfold Dom.select.
  assert (N : forall n, Dom.select_node sel' n = [] ->
                        Dom.select_node sel n = []).
  { apply (DomFacts.node_induction
             (fun n => Dom.select_node sel' n = [] ->
                       Dom.select_node sel n = [])); try reflexivity.
    intros t a children F E. cbn [Dom.select_node] in *.
    apply app_eq_nil in E. destruct E as [E1 E2].
    destruct (sel t a) eqn:S.
    - rewrite (W _ _ S) in E1. discriminate.
    - cbn [app]. clear E1.
      induction F as [|c l Hc F IH]; [reflexivity|]. simpl in *.
      apply app_eq_nil in E2. destruct E2 as [E2 E3].
      now rewrite (Hc E2), (IH E3). }
  induction d as [|n d IH]; [reflexivity|]. simpl. intros E.
  apply app_eq_nil in E. destruct E as [E1 E2].
  now rewrite (N n E1), (IH E2).
Qed.

Lemma first_attr_lacking tag name value attr_name (d : Dom.document) :
  lacks tag d ->
  Dom.first_attr (Dom.tag_attr_is tag name value) attr_name d = None.
Proof.
  intros L. unfold Dom.first_attr.
  rewrite (select_narrower (Dom.tag_attr_is tag name value)
                           (Dom.tag_is tag) d); [reflexivity| |exact L].
  intros n a H. unfold Dom.tag_attr_is in H. unfold Dom.tag_is.
  now apply andb_true_iff in H.
Qed.

Lemma first_attr_lacking_ci tag name value attr_name (d : Dom.document) :
  lacks tag d ->
  Dom.first_attr (Dom.tag_attr_is_ci tag name value) attr_name d = None.
Proof.
  intros L. unfold Dom.first_attr.
  rewrite (select_narrower (Dom.tag_attr_is_ci tag name value)
                           (Dom.tag_is tag) d); [reflexivity| |exact L].
  intros n a H. unfold Dom.tag_attr_is_ci in H. unfold Dom.tag_is.
  now apply andb_true_iff in H.
Qed.

Lemma origin_of_http (u : URL.t) :
  Shape.http_like u -> URL.origin u = URL.tuple_origin u.
Proof.
  intros [L|L]; unfold URL.origin, URL.is_special; rewrite L; reflexivity.
Qed.

(** X12.  For a page without [meta], [title] and [link] elements, fetched
    and read from an address with scheme [http] or [https], the metadata
    lookup answers 200 with the address as title and, as favicon, the
    scheme, host and port of the address followed by [/favicon.ico]. *)
Theorem meta_lookup_of_bare_page (load : string -> Dom.document)
        (net : network) (url : string) (r : upstream) (u : URL.t) :
  url <> "" -> net 0 url = Resolved r -> up_intact r = true ->
  URL.new url None = Some u ->
  URL.scheme u = "http" \/ URL.scheme u = "https" ->
  lacks "meta" (load (up_bytes r)) ->
  lacks "title" (load (up_bytes r)) ->
  lacks "link" (load (up_bytes r)) ->
  run (meta_handler load (Some url)) net
  = {| status := 200; headers := [];
       body := Json [("title", Some url);
                     ("favicon",
                      Some (URL.tuple_origin u ++ "/favicon.ico"))] |}.
Proof.
  intros N H I P L Lm Lt Ll. apply String.eqb_neq in N.
  unfold meta_handler, truthy. rewrite N. cbn [negb].
  run_handler. rewrite H, I. cbn.
  unfold meta_title, meta_favicon, favicon_candidates, favicon_fallback.
  rewrite !(first_attr_lacking_ci _ _ _ _ _ Ll).
  rewrite (first_attr_lacking _ _ _ _ _ Lm).
  unfold Dom.first_text. unfold lacks in Lt.
  rewrite Lt, P, (origin_of_http u L). reflexivity.
Qed.

End PageMetadata.

Lemma meta_lookup_of_bare_page_witness :
  run (meta_handler (fun _ => page_without_head)
                    (Some "https://example.com:8443/a?b"))
      (steady html_page)
  = {| status := 200; headers := [];
       body := Json [("title", Some "https://example.com:8443/a?b");
                     ("favicon",
                      Some "https://example.com:8443/favicon.ico")] |}.
Proof.
  destruct (URL.new "https://example.com:8443/a?b" None) as [u|] eqn:P;
    [|discriminate].
  assert (L : URL.scheme u = "http" \/ URL.scheme u = "https").
  { right. vm_compute in P. now inversion P. }
  assert (N : "https://example.com:8443/a?b" <> "") by discriminate.
  rewrite (meta_lookup_of_bare_page (fun _ => page_without_head)
             (steady html_page) "https://example.com:8443/a?b" html_page u
             N eq_refl eq_refl P L eq_refl eq_refl eq_refl).
  vm_compute in P. inversion P. reflexivity.
Defined.

Section PageMetadata.
Context {platform : Platform}.

(** X13.  For an address with scheme [http] or [https], the favicon the
    metadata extraction returns is null or an absolute URL string, fit to
    be handed to the asset relay; it is null only when an [href] was found
    and does not resolve. *)
Theorem meta_favicon_is_absolute (url : string) (d : Dom.document)
        (u : URL.t) :
  URL.new url None = Some u ->
  URL.scheme u = "http" \/ URL.scheme u = "https" ->
  (forall f, meta_favicon url d = Some f -> absolute_url_string f)
  /\ (meta_favicon url d = None ->
      exists href, discovered_favicon d = Some href
                   /\ absoluteUrl url href = None).
Proof.
  intros P L. unfold meta_favicon, discovered_favicon, favicon_fallback.
  rewrite P. destruct (first_truthy (favicon_candidates d)) as [href|].
  - split; [intros f; apply absoluteUrl_absolute|].
    intros H. now exists href.
  - split; [|discriminate]. intros f H. inversion H.
    rewrite (origin_of_http u L). unfold URL.tuple_origin.
    exists (URL.scheme u). eexists. split.
    + rewrite append_assoc. reflexivity.
    + apply (URLFacts.new_scheme _ _ _ P).
Qed.

End PageMetadata.

Lemma meta_favicon_is_absolute_witness :
  (forall f, meta_favicon "https://example.com/page" page_with_broken_icon
             = Some f -> absolute_url_string f)
  /\ (meta_favicon "https://example.com/page" page_with_broken_icon = None ->
      exists href, discovered_favicon page_with_broken_icon = Some href
                   /\ absoluteUrl "https://example.com/page" href = None).
Proof.
  destruct (URL.new "https://example.com/page" None) as [u|] eqn:P;
    [|discriminate].
  apply (meta_favicon_is_absolute "https://example.com/page"
           page_with_broken_icon u P).
  right. vm_compute in P. now inversion P.
Defined.

(** ** The tab manager of the client *)

Module AppFacts.
Import App.

Lemma go_url_ok (typed u : string) :
  go_url typed = Some u -> u <> "" /\ has_http_prefix u = true.
Proof.
  unfold go_url, truthy. destruct (String.eqb (Str.trim typed) "") eqn:E;
    [discriminate|]. cbn [negb].
  destruct (has_http_prefix (Str.trim typed)) eqn:P; cbn [negb];
    intros H; inversion H; subst.
  - split; [now apply String.eqb_neq | exact P].
  - split; [discriminate | reflexivity].
Qed.

Lemma set_nth_length r t h : List.length (set_nth r t h) = List.length h.
Proof.
  revert r; induction h as [|x h IH]; intros [|r]; simpl; auto.
Qed.

Lemma set_nth_Forall (P : tab -> Prop) r t h :
  Forall P h -> P t -> Forall P (set_nth r t h).
Proof.
  intros F Pt. revert r. induction F as [|x h Px F IH]; intros [|r]; simpl;
    constructor; auto.
Qed.

Lemma set_nth_same r t h :
  r < List.length h -> nth_error (set_nth r t h) r = Some t.
Proof.
  revert r; induction h as [|x h IH]; intros [|r] L; simpl in *;
    try lia; auto. apply IH. lia.
Qed.

Lemma remove_nth_Forall {A} (P : A -> Prop) k l :
  Forall P l -> Forall P (remove_nth k l).
Proof.
  intros F. revert k. induction F as [|x l Px F IH]; intros [|k]; simpl;
    try constructor; auto.
Qed.

Lemma nth_error_Forall {A} (P : A -> Prop) l k x :
  Forall P l -> nth_error l k = Some x -> P x.
Proof.
  intros F H. apply nth_error_In in H. rewrite Forall_forall in F. auto.
Qed.

Lemma Forall_lt_weaken {A} (f : A -> nat) n m l :
  n <= m -> Forall (fun x => f x < n) l -> Forall (fun x => f x < m) l.
Proof.
  intros L F. induction F; constructor; auto. lia.
Qed.

(** [loadTab] up to its [await] makes a listed tab the active one; the
    state before it need not have an active tab. *)
Lemma loadTab_begin_ok r s :
  Forall tab_ok (heap s) ->
  Forall (fun r => r < List.length (heap s)) (tabs s) ->
  Forall (fun p => fst p < List.length (heap s)) (pending s) ->
  (frame s = None \/ frame s = Some ""
   \/ exists f, frame s = Some f /\ navigate_ref f = true) ->
  In r (tabs s) ->
  state_ok (loadTab_begin r s).
Proof.
  intros H T P F I. unfold loadTab_begin.
  assert (L : r < List.length (heap s))
    by (rewrite Forall_forall in T; now apply T).
  destruct (nth_error (heap s) r) as [t|] eqn:N;
    [|apply nth_error_None in N; lia].
  unfold state_ok. cbn. repeat split; auto.
  - apply Forall_app. split; [exact P|]. constructor; [exact L|constructor].
  - intros a Ea. inversion Ea. subst. exact I.
  - discriminate.
Qed.

Lemma fetched_title_ok (m : meta) (u : string) :
  u <> "" ->
  (if truthy_opt (got_title m)
   then match got_title m with Some x => x | None => "" end
   else u) <> "".
Proof.
  intros N. destruct (got_title m) as [x|]; cbn; [|exact N].
  unfold truthy. destruct (String.eqb x "") eqn:E; cbn; [exact N|].
  now apply String.eqb_neq.
Qed.

Lemma loadTab_finish_ok r m s : state_ok s -> state_ok (loadTab_finish r m s).
Proof.
  intros (H & T & P & A & E & F). unfold loadTab_finish.
  destruct (nth_error (heap s) r) as [t|] eqn:N; [|now repeat split].
  destruct (nth_error_Forall _ _ _ _ H N) as (U & Hp & Ti & Fa).
  unfold state_ok. cbn. rewrite set_nth_length. repeat split; auto.
  - apply set_nth_Forall; [exact H|]. unfold tab_ok. cbn.
    repeat split; auto.
    + now apply fetched_title_ok.
    + destruct (truthy_opt (got_favicon m)); [|now left]. right.
      eexists. split; [reflexivity|]. apply asset_ref_asset.
  - right; right. eexists. split; [reflexivity|]. apply proxy_ref_navigate.
Qed.

Lemma createTab_ok u i s :
  u <> "" -> has_http_prefix u = true ->
  Forall tab_ok (heap s) ->
  Forall (fun r => r < List.length (heap s)) (tabs s) ->
  Forall (fun p => fst p < List.length (heap s)) (pending s) ->
  (frame s = None \/ frame s = Some ""
   \/ exists f, frame s = Some f /\ navigate_ref f = true) ->
  state_ok (createTab u i s).
Proof.
  intros U Hp H T P F. unfold createTab.
  apply loadTab_begin_ok; cbn; rewrite ?List.length_app; cbn.
  - apply Forall_app. split; [exact H|]. constructor; [|constructor].
    unfold tab_ok. cbn. repeat split; auto.
  - apply Forall_app. split.
    + apply (Forall_lt_weaken (fun x => x) (List.length (heap s))); [lia|].
      exact T.
    + constructor; [lia | constructor].
  - apply (Forall_lt_weaken fst (List.length (heap s))); [lia | exact P].
  - exact F.
  - apply in_or_app. right. now left.
Qed.

Lemma kept_listed (f : nat -> bool) (n : nat) (l : list nat) :
  Forall (fun r => r < n) l -> Forall (fun r => r < n) (List.filter f l).
Proof.
  rewrite !Forall_forall. intros H x I. apply filter_In in I. now apply H.
Qed.

Lemma closeTab_ok i s : state_ok s -> state_ok (closeTab i s).
Proof.
  intros (H & T & P & A & E & F). unfold closeTab.
  set (keep := fun r => negb (String.eqb (id_of s r) i)).
  assert (K : Forall (fun r => r < List.length (heap s))
                     (List.filter keep (tabs s)))
    by now apply kept_listed.
  destruct (active s) as [a|] eqn:Ea.
  - destruct (String.eqb (id_of s a) i) eqn:Ei.
    + destruct (List.filter keep (tabs s)) as [|b rest] eqn:Ek; cbn.
      * unfold state_ok. cbn. repeat split; auto; discriminate.
      * apply loadTab_begin_ok; cbn; auto.
    + apply loadTab_begin_ok; cbn; auto.
      apply filter_In. split; [now apply A|]. unfold keep. now rewrite Ei.
  - rewrite (E eq_refl). cbn. unfold state_ok. cbn.
    repeat split; auto; discriminate.
Qed.

Lemma go_ok i s : state_ok s -> state_ok (go i s).
Proof.
  intros S. pose proof S as (H & T & P & A & E & F). unfold go.
  destruct (go_url (address s)) as [u|] eqn:G; [|exact S].
  destruct (go_url_ok _ _ G) as [U Hp].
  destruct (active s) as [a|] eqn:Ea; [|now apply createTab_ok].
  destruct (nth_error (heap s) a) as [t|] eqn:N; [|exact S].
  destruct (nth_error_Forall _ _ _ _ H N) as (_ & _ & Ti & Fa).
  apply loadTab_begin_ok; cbn; rewrite ?set_nth_length; auto.
  apply set_nth_Forall; [exact H|]. unfold tab_ok. cbn. repeat split; auto.
Qed.

Lemma step_ok s e : state_ok s -> state_ok (step s e).
Proof.
  intros S. pose proof S as (H & T & P & A & E & F).
  destruct e as [i|text|i|i|r|k answer]; cbn [step].
  - apply createTab_ok; auto. discriminate.
  - exact S.
  - now apply go_ok.
  - now apply closeTab_ok.
  - destruct (List.existsb (Nat.eqb r) (tabs s)) eqn:X; [|exact S].
    apply existsb_exists in X. destruct X as (x & I & Ex).
    apply Nat.eqb_eq in Ex. subst x. now apply loadTab_begin_ok.
  - destruct (nth_error (pending s) k) as [[r u]|] eqn:N; [|exact S].
    apply loadTab_finish_ok. unfold state_ok. cbn. repeat split; auto.
    now apply remove_nth_Forall.
Qed.

Lemma loaded_ok typed i : state_ok (loaded typed i).
Proof.
  unfold loaded. apply createTab_ok; cbn; auto. discriminate.
Qed.

Lemma steps_ok events s :
  state_ok s -> state_ok (List.fold_left step events s).
Proof.
  revert s. induction events as [|e events IH]; intros s S; cbn; auto.
  apply IH. now apply step_ok.
Qed.

Lemma run_ok typed i events : state_ok (run typed i events).
Proof. unfold run. apply steps_ok, loaded_ok. Qed.

Lemma loadTab_begin_heap r s : heap (loadTab_begin r s) = heap s.
Proof. unfold loadTab_begin. now destruct (nth_error (heap s) r). Qed.

Lemma loadTab_begin_tabs r s : tabs (loadTab_begin r s) = tabs s.
Proof. unfold loadTab_begin. now destruct (nth_error (heap s) r). Qed.

End AppFacts.

(** X14.  Whatever the user does and whatever the lookups answer, the
    active tab is one of the listed tabs and an existing tab object; no tab
    is active only when no tab is listed. *)
Theorem active_tab_is_listed (typed i : string) (events : list App.event) :
  let s := App.run typed i events in
  match App.active s with
  | Some a => In a (App.tabs s)
              /\ exists t, nth_error (App.heap s) a = Some t
  | None => App.tabs s = []
  end.
Proof.
  cbn zeta. destruct (AppFacts.run_ok typed i events)
    as (H & T & P & A & E & F).
  destruct (App.active (App.run typed i events)) as [a|] eqn:Ea.
  - split; [now apply A|].
    assert (L : a < List.length (App.heap (App.run typed i events)))
      by (rewrite Forall_forall in T; apply T; now apply A).
    destruct (nth_error (App.heap (App.run typed i events)) a) as [t|] eqn:N;
      [now exists t | apply nth_error_None in N; lia].
  - now apply E.
Qed.

(** X15.  The script only ever points the frame at the empty address or
    at a [/proxy?url=] reference with an encoded parameter, and the icon of
    a tab is absent or a [/asset?url=] reference with an encoded
    parameter. *)
Theorem frame_and_icons_use_the_endpoints
        (typed i : string) (events : list App.event) :
  let s := App.run typed i events in
  (App.frame s = None \/ App.frame s = Some ""
   \/ exists f, App.frame s = Some f /\ navigate_ref f = true)
  /\ Forall (fun t => App.favicon t = None
                      \/ exists f, App.favicon t = Some f
                                   /\ asset_reference f = true)
            (App.heap s).
Proof.
  cbn zeta. destruct (AppFacts.run_ok typed i events)
    as (H & T & P & A & E & F).
  split; [exact F|]. rewrite Forall_forall in *. intros t I.
  now destruct (H t I) as (_ & _ & _ & Fa).
Qed.

(** X16.  Every listed tab has an address that is not empty and starts
    with [http://] or [https://] (in any case of the letters), and a title
    that is not empty. *)
Theorem tabs_have_address_and_title
        (typed i : string) (events : list App.event) (r : nat) :
  let s := App.run typed i events in
  In r (App.tabs s) ->
  exists t, nth_error (App.heap s) r = Some t
            /\ App.url t <> ""
            /\ App.has_http_prefix (App.url t) = true
            /\ App.title t <> "".
Proof.
  cbn zeta. intros I. destruct (AppFacts.run_ok typed i events)
    as (H & T & P & A & E & F).
  assert (L : r < List.length (App.heap (App.run typed i events)))
    by (rewrite Forall_forall in T; now apply T).
  destruct (nth_error (App.heap (App.run typed i events)) r) as [t|] eqn:N;
    [|apply nth_error_None in N; lia].
  exists t. destruct (AppFacts.nth_error_Forall _ _ _ _ H N)
    as (U & Hp & Ti & _). auto.
Qed.

Lemma tabs_have_address_and_title_witness :
  exists t,
    nth_error (App.heap (App.run "" "t1" [App.Type_ "example.org";
                                          App.Go "t2"])) 0 = Some t
    /\ App.url t <> ""
    /\ App.has_http_prefix (App.url t) = true
    /\ App.title t <> "".
Proof.
  apply (tabs_have_address_and_title "" "t1"
           [App.Type_ "example.org"; App.Go "t2"] 0).
  vm_compute. now left.
Defined.

(** X17.  [closeTab(id)] in any state: the listed tabs are the former
    ones without those of that id, in their order; the active tab is kept
    when its id is another one, else the first tab left becomes active; and
    the frame is emptied when no tab is active afterwards, and left as it
    was otherwise. *)
Theorem closed_tab_is_gone (s : App.state) (i : string) :
  let s' := App.closeTab i s in
  App.tabs s'
  = List.filter (fun r => negb (String.eqb (App.id_of s r) i)) (App.tabs s)
  /\ Forall (fun r => App.id_of s' r <> i) (App.tabs s')
  /\ (forall a, App.active s = Some a -> App.id_of s a <> i ->
                App.active s' = Some a)
  /\ (forall a, App.active s = Some a -> App.id_of s a = i ->
                App.active s' = List.hd_error (App.tabs s'))
  /\ (App.active s = None -> App.active s' = None)
  /\ (App.active s' = None -> App.frame s' = Some "")
  /\ (App.active s' <> None -> App.frame s' = App.frame s).
Proof.
  cbn zeta.
  assert (Hh : App.heap (App.closeTab i s) = App.heap s).
  { unfold App.closeTab.
    destruct (match App.active s with
              | Some a => if String.eqb (App.id_of s a) i
                          then List.hd_error _ else Some a
              | None => None end);
      [now rewrite AppFacts.loadTab_begin_heap | reflexivity]. }
  assert (Ht : App.tabs (App.closeTab i s)
               = List.filter
                   (fun r => negb (String.eqb (App.id_of s r) i))
                   (App.tabs s)).
  { unfold App.closeTab.
    destruct (match App.active s with
              | Some a => if String.eqb (App.id_of s a) i
                          then List.hd_error _ else Some a
              | None => None end);
      [now rewrite AppFacts.loadTab_begin_tabs | reflexivity]. }
  assert (Ha : forall o,
             (match App.active s with
              | Some a => if String.eqb (App.id_of s a) i
                          then List.hd_error
                                 (List.filter
                                    (fun r => negb (String.eqb
                                                      (App.id_of s r) i))
                                    (App.tabs s))
                          else Some a
              | None => None end) = o ->
             App.active (App.closeTab i s) = o
             /\ (o = None -> App.frame (App.closeTab i s) = Some "")
             /\ (o <> None -> App.frame (App.closeTab i s) = App.frame s)).
  { intros o Eo. unfold App.closeTab. rewrite Eo. destruct o as [b|].
    - unfold App.loadTab_begin. cbn.
      destruct (nth_error (App.heap s) b); cbn;
        (split; [reflexivity | split; [discriminate | reflexivity]]).
    - cbn. split; [reflexivity | split; [reflexivity | congruence]]. }
  split; [exact Ht|]. split.
  { rewrite Ht. apply Forall_forall. intros r I. apply filter_In in I.
    destruct I as [_ I]. unfold App.id_of in *. rewrite Hh.
    apply negb_true_iff, String.eqb_neq in I. exact I. }
  repeat split.
  - intros a Ea N. apply String.eqb_neq in N.
    destruct (Ha (Some a)) as [R _]; [now rewrite Ea, N | exact R].
  - intros a Ea N. apply String.eqb_eq in N. rewrite Ht.
    destruct (Ha (List.hd_error
                    (List.filter
                       (fun r => negb (String.eqb (App.id_of s r) i))
                       (App.tabs s)))) as [R _];
      [now rewrite Ea, N | exact R].
  - intros Ea. destruct (Ha None) as [R _]; [now rewrite Ea | exact R].
  - intros N. destruct (Ha _ eq_refl) as (R & Z & _). apply Z.
    now rewrite <- R.
  - intros N. destruct (Ha _ eq_refl) as (R & _ & Z). apply Z.
    now rewrite <- R.
Qed.

(** X18.  When a pending lookup of a tab settles, the frame is pointed at
    the [/proxy?url=] reference of that tab's address, whose parameter
    decodes to the address, whether or not the tab is still active or
    listed; the active tab and the list stay as they are; the tab keeps its
    id and address; and when the lookup threw or was not ok the tab is
    titled by the address that was looked up and has no icon. *)
Theorem meta_arrival_loads_tab
        (s : App.state) (k r : nat) (u : string)
        (answer : option (bool * App.meta)) (t : App.tab) :
  nth_error (App.pending s) k = Some (r, u) ->
  nth_error (App.heap s) r = Some t ->
  let s' := App.step s (App.MetaArrived k answer) in
  App.frame s' = Some ("/proxy?url=" ++ encodeURIComponent (App.url t))
  /\ URL.percent_decode (encodeURIComponent (App.url t)) = App.url t
  /\ App.active s' = App.active s
  /\ App.tabs s' = App.tabs s
  /\ exists t', nth_error (App.heap s') r = Some t'
                /\ App.id t' = App.id t
                /\ App.url t' = App.url t
                /\ (match answer with
                    | Some (true, _) => True
                    | _ => App.title t' = (if truthy u then u
                                           else App.url t)
                           /\ App.favicon t' = None
                    end).
Proof.
  intros Np Nh. cbn zeta. cbn [App.step]. rewrite Np.
  unfold App.loadTab_finish. cbn. rewrite Nh. cbn.
  split; [reflexivity|]. split; [apply percent_decode_encodeURIComponent|].
  split; [reflexivity|]. split; [reflexivity|].
  eexists. split.
  - apply AppFacts.set_nth_same. apply nth_error_Some. now rewrite Nh.
  - cbn. split; [reflexivity|]. split; [reflexivity|].
    destruct answer as [[[|] m]|]; cbn; auto.
Qed.

Lemma meta_arrival_loads_tab_witness :
  let s := App.loaded "" "t1" in
  let t := {| App.id := "t1"; App.url := "https://example.com";
              App.title := "https://example.com"; App.favicon := None |} in
  let s' := App.step s (App.MetaArrived 0 None) in
  App.frame s'
  = Some ("/proxy?url=" ++ encodeURIComponent (App.url t))
  /\ URL.percent_decode (encodeURIComponent (App.url t)) = App.url t
  /\ App.active s' = App.active s
  /\ App.tabs s' = App.tabs s
  /\ exists t', nth_error (App.heap s') 0 = Some t'
                /\ App.id t' = App.id t
                /\ App.url t' = App.url t
                /\ (App.title t' = (if truthy "https://example.com"
                                    then "https://example.com"
                                    else App.url t)
                    /\ App.favicon t' = None).
Proof.
  apply (meta_arrival_loads_tab (App.loaded "" "t1") 0 0
           "https://example.com" None
           {| App.id := "t1"; App.url := "https://example.com";
              App.title := "https://example.com";
              App.favicon := None |}); reflexivity.
Defined.

(** X19.  The go button, when the address field holds more than white
    space: the address with [https://] put before it unless it starts with
    [http://] or [https://] becomes the address of the active tab (of a new
    tab when none is active), is shown in the address field, and a lookup
    of it is pending for that tab. *)
Theorem go_button_loads_address
        (typed i : string) (events : list App.event) (j u : string) :
  let s := App.run typed i events in
  App.go_url (App.address s) = Some u ->
  let s' := App.step s (App.Go j) in
  App.has_http_prefix u = true
  /\ u = (if App.has_http_prefix (Str.trim (App.address s))
          then Str.trim (App.address s)
          else "https://" ++ Str.trim (App.address s))
  /\ App.address s' = u
  /\ exists a t, App.active s' = Some a
                 /\ In a (App.tabs s')
                 /\ nth_error (App.heap s') a = Some t
                 /\ App.url t = u
                 /\ In (a, u) (App.pending s').
Proof.
  cbn zeta. intros G. set (s := App.run typed i events) in *.
  destruct (AppFacts.run_ok typed i events) as (H & T & P & A & E & F).
  fold s in H, T, P, A, E, F.
  destruct (AppFacts.go_url_ok _ _ G) as [U Hp].
  split; [exact Hp|]. split.
  { revert G. unfold App.go_url.
    destruct (negb (truthy (Str.trim (App.address s)))); [discriminate|].
    destruct (App.has_http_prefix (Str.trim (App.address s))); cbn;
      intros X; now inversion X. }
  cbn [App.step]. unfold App.go. rewrite G.
  destruct (App.active s) as [a|] eqn:Ea.
  - assert (L : a < List.length (App.heap s))
      by (rewrite Forall_forall in T; apply T; now apply A).
    destruct (nth_error (App.heap s) a) as [t|] eqn:N;
      [|apply nth_error_None in N; lia].
    unfold App.loadTab_begin. cbn.
    rewrite (AppFacts.set_nth_same a _ (App.heap s) L). cbn.
    split; [reflexivity|]. eexists a, _. split; [reflexivity|].
    split; [now apply A|].
    split; [now apply AppFacts.set_nth_same|].
    split; [reflexivity|]. apply in_or_app. right. now left.
  - unfold App.createTab, App.loadTab_begin. cbn.
    rewrite nth_error_app2 by lia. rewrite Nat.sub_diag. cbn.
    split; [reflexivity|]. eexists _, _. split; [reflexivity|].
    split; [apply in_or_app; right; now left|].
    split; [rewrite nth_error_app2 by lia; rewrite Nat.sub_diag;
            reflexivity|].
    split; [reflexivity|]. apply in_or_app. right. now left.
Qed.

Lemma go_button_loads_address_witness :
  let s := App.run "" "t1" [App.Type_ " example.org "] in
  let s' := App.step s (App.Go "t2") in
  App.has_http_prefix "https://example.org" = true
  /\ "https://example.org"
     = (if App.has_http_prefix (Str.trim (App.address s))
        then Str.trim (App.address s)
        else "https://" ++ Str.trim (App.address s))
  /\ App.address s' = "https://example.org"
  /\ exists a t, App.active s' = Some a
                 /\ In a (App.tabs s')
                 /\ nth_error (App.heap s') a = Some t
                 /\ App.url t = "https://example.org"
                 /\ In (a, "https://example.org") (App.pending s').
Proof.
  apply (go_button_loads_address "" "t1" [App.Type_ " example.org "]
           "t2" "https://example.org").
  reflexivity.
Defined.
